(** * NFTTippingJarFHE: batch lifecycle, encrypted aggregation and the
      decryption request/callback protocol

    A shallow embedding of [contracts/NFT_Tipping_Jar.sol].  Contract
    storage is a record, every external function is a computation in a
    small state-and-revert monad, and a transaction either commits the new
    storage or reverts to the old one.  The fhevm library, the decryption
    oracle and keccak256 are collaborators outside the repository: they
    are the fields of the class [FHEVM]. *)

From Stdlib Require Import NArith Strings.Byte.
From stdpp Require Import gmap list fin_maps.

Local Open Scope N_scope.

(** ** Solidity value types *)

(** [uint256], [address], [bytes32] and the ciphertext handle [euint32]
    are all words; they are natural numbers here and the one checked
    addition the contract performs on them is written out in [checked_add]. *)
Abbreviation uint256 := N (only parsing).
Abbreviation address := N (only parsing).
Abbreviation bytes32 := N (only parsing).
Abbreviation euint32 := N (only parsing).
Abbreviation bytes := (list byte) (only parsing).

Definition UINT256_MAX : N := 2 ^ 256 - 1.
Definition UINT32_MOD : N := 2 ^ 32.

(** ** The external collaborators *)

(** A handle is the word it wraps: [euint32.wrap], [toUint256] and
    [toBytes32] are the casts between the two and do not appear below. *)
Class FHEVM := {
  (** [FHE.add] on two [euint32] handles *)
  FHE_add : euint32 -> euint32 -> euint32;
  (** [FHE.isInitialized] *)
  FHE_isInitialized : euint32 -> bool;
  (** [FHE.checkSignatures(requestId, cleartexts, proof)] *)
  FHE_checkSignatures : uint256 -> bytes -> bytes -> bool;
  (** [keccak256(abi.encode(cts, addr))] *)
  keccak256_encode : list bytes32 -> address -> bytes32;
  (** [address(this)] *)
  this : address
}.

(** ** Storage *)

Record Tip := {
  tipper : address;
  encryptedAmount : euint32;
  encryptedMessagePart1 : euint32;
  encryptedMessagePart2 : euint32
}.

Record Batch := {
  id : uint256;
  isOpen : bool;
  startTime : uint256;
  closeTime : uint256
}.

Record DecryptionContext := {
  batchId : uint256;
  stateHash : bytes32;
  processed : bool
}.

(** The value a Solidity mapping returns for a key never written. *)
Definition ctx_default : DecryptionContext :=
  {| batchId := 0; stateHash := 0; processed := false |}.

Inductive Event :=
| OwnershipTransferred (previousOwner newOwner : address)
| ProviderAdded (provider : address)
| ProviderRemoved (provider : address)
| Paused (account : address)
| Unpaused (account : address)
| CooldownSecondsSet (oldCooldownSeconds newCooldownSeconds : uint256)
| BatchOpened (batchId startTime : uint256)
| BatchClosed (batchId closeTime tipCount : uint256)
| TipSubmitted (tipper : address) (batchId tipIndex : uint256)
| DecryptionRequested (requestId batchId : uint256) (stateHash : bytes32)
| DecryptionCompleted (requestId batchId totalAmount : uint256).

Inductive Error :=
| NotOwner
| NotProvider
| PausedState
| CooldownActive
| BatchNotOpen
| BatchOpen
| InvalidBatch
| ReplayAttempt
| StateMismatch
| InvalidProof
| NotInitialized
| Panic (code : N)       (* compiler-inserted checks: 0x11 overflow, 0x32 index *)
| DecodeFailure.         (* abi.decode on malformed data: revert without data *)

(** Contract storage.  Mappings are finite maps read with the Solidity
    default; [events] is the log of the events emitted so far. *)
Record State := {
  owner : address;
  isProvider : gmap N bool;
  paused : bool;
  cooldownSeconds : uint256;
  lastSubmissionTime : gmap N N;
  lastDecryptionRequestTime : gmap N N;
  tips : list Tip;
  batches : list Batch;
  batchTipCount : gmap N N;
  batchTotalEncryptedAmount : gmap N N;
  decryptionContexts : gmap N DecryptionContext;
  events : list Event
}.

Definition rd (m : gmap N N) (k : N) : N := default 0 (m !! k).
Definition rdb (m : gmap N bool) (k : N) : bool := default false (m !! k).
Definition rdctx (m : gmap N DecryptionContext) (k : N) : DecryptionContext :=
  default ctx_default (m !! k).

(** Field updates. *)
Definition set_owner (v : address) (s : State) : State :=
  {| owner := v; isProvider := isProvider s; paused := paused s;
     cooldownSeconds := cooldownSeconds s;
     lastSubmissionTime := lastSubmissionTime s;
     lastDecryptionRequestTime := lastDecryptionRequestTime s;
     tips := tips s; batches := batches s; batchTipCount := batchTipCount s;
     batchTotalEncryptedAmount := batchTotalEncryptedAmount s;
     decryptionContexts := decryptionContexts s; events := events s |}.
Definition set_isProvider (v : gmap N bool) (s : State) : State :=
  {| owner := owner s; isProvider := v; paused := paused s;
     cooldownSeconds := cooldownSeconds s;
     lastSubmissionTime := lastSubmissionTime s;
     lastDecryptionRequestTime := lastDecryptionRequestTime s;
     tips := tips s; batches := batches s; batchTipCount := batchTipCount s;
     batchTotalEncryptedAmount := batchTotalEncryptedAmount s;
     decryptionContexts := decryptionContexts s; events := events s |}.
Definition set_paused (v : bool) (s : State) : State :=
  {| owner := owner s; isProvider := isProvider s; paused := v;
     cooldownSeconds := cooldownSeconds s;
     lastSubmissionTime := lastSubmissionTime s;
     lastDecryptionRequestTime := lastDecryptionRequestTime s;
     tips := tips s; batches := batches s; batchTipCount := batchTipCount s;
     batchTotalEncryptedAmount := batchTotalEncryptedAmount s;
     decryptionContexts := decryptionContexts s; events := events s |}.
Definition set_cooldownSeconds (v : uint256) (s : State) : State :=
  {| owner := owner s; isProvider := isProvider s; paused := paused s;
     cooldownSeconds := v;
     lastSubmissionTime := lastSubmissionTime s;
     lastDecryptionRequestTime := lastDecryptionRequestTime s;
     tips := tips s; batches := batches s; batchTipCount := batchTipCount s;
     batchTotalEncryptedAmount := batchTotalEncryptedAmount s;
     decryptionContexts := decryptionContexts s; events := events s |}.
Definition set_lastSubmissionTime (v : gmap N N) (s : State) : State :=
  {| owner := owner s; isProvider := isProvider s; paused := paused s;
     cooldownSeconds := cooldownSeconds s;
     lastSubmissionTime := v;
     lastDecryptionRequestTime := lastDecryptionRequestTime s;
     tips := tips s; batches := batches s; batchTipCount := batchTipCount s;
     batchTotalEncryptedAmount := batchTotalEncryptedAmount s;
     decryptionContexts := decryptionContexts s; events := events s |}.
Definition set_lastDecryptionRequestTime (v : gmap N N) (s : State) : State :=
  {| owner := owner s; isProvider := isProvider s; paused := paused s;
     cooldownSeconds := cooldownSeconds s;
     lastSubmissionTime := lastSubmissionTime s;
     lastDecryptionRequestTime := v;
     tips := tips s; batches := batches s; batchTipCount := batchTipCount s;
     batchTotalEncryptedAmount := batchTotalEncryptedAmount s;
     decryptionContexts := decryptionContexts s; events := events s |}.
Definition set_tips (v : list Tip) (s : State) : State :=
  {| owner := owner s; isProvider := isProvider s; paused := paused s;
     cooldownSeconds := cooldownSeconds s;
     lastSubmissionTime := lastSubmissionTime s;
     lastDecryptionRequestTime := lastDecryptionRequestTime s;
     tips := v; batches := batches s; batchTipCount := batchTipCount s;
     batchTotalEncryptedAmount := batchTotalEncryptedAmount s;
     decryptionContexts := decryptionContexts s; events := events s |}.
Definition set_batches (v : list Batch) (s : State) : State :=
  {| owner := owner s; isProvider := isProvider s; paused := paused s;
     cooldownSeconds := cooldownSeconds s;
     lastSubmissionTime := lastSubmissionTime s;
     lastDecryptionRequestTime := lastDecryptionRequestTime s;
     tips := tips s; batches := v; batchTipCount := batchTipCount s;
     batchTotalEncryptedAmount := batchTotalEncryptedAmount s;
     decryptionContexts := decryptionContexts s; events := events s |}.
Definition set_batchTipCount (v : gmap N N) (s : State) : State :=
  {| owner := owner s; isProvider := isProvider s; paused := paused s;
     cooldownSeconds := cooldownSeconds s;
     lastSubmissionTime := lastSubmissionTime s;
     lastDecryptionRequestTime := lastDecryptionRequestTime s;
     tips := tips s; batches := batches s; batchTipCount := v;
     batchTotalEncryptedAmount := batchTotalEncryptedAmount s;
     decryptionContexts := decryptionContexts s; events := events s |}.
Definition set_batchTotalEncryptedAmount (v : gmap N N) (s : State) : State :=
  {| owner := owner s; isProvider := isProvider s; paused := paused s;
     cooldownSeconds := cooldownSeconds s;
     lastSubmissionTime := lastSubmissionTime s;
     lastDecryptionRequestTime := lastDecryptionRequestTime s;
     tips := tips s; batches := batches s; batchTipCount := batchTipCount s;
     batchTotalEncryptedAmount := v;
     decryptionContexts := decryptionContexts s; events := events s |}.
Definition set_decryptionContexts (v : gmap N DecryptionContext) (s : State) : State :=
  {| owner := owner s; isProvider := isProvider s; paused := paused s;
     cooldownSeconds := cooldownSeconds s;
     lastSubmissionTime := lastSubmissionTime s;
     lastDecryptionRequestTime := lastDecryptionRequestTime s;
     tips := tips s; batches := batches s; batchTipCount := batchTipCount s;
     batchTotalEncryptedAmount := batchTotalEncryptedAmount s;
     decryptionContexts := v; events := events s |}.
Definition set_events (v : list Event) (s : State) : State :=
  {| owner := owner s; isProvider := isProvider s; paused := paused s;
     cooldownSeconds := cooldownSeconds s;
     lastSubmissionTime := lastSubmissionTime s;
     lastDecryptionRequestTime := lastDecryptionRequestTime s;
     tips := tips s; batches := batches s; batchTipCount := batchTipCount s;
     batchTotalEncryptedAmount := batchTotalEncryptedAmount s;
     decryptionContexts := decryptionContexts s; events := v |}.

(** ** The execution monad: storage threaded through, [revert] aborts *)

Definition M (A : Type) : Type := State -> Error + (A * State).

Definition ret {A} (a : A) : M A := fun s => inr (a, s).
Definition bind {A B} (m : M A) (f : A -> M B) : M B :=
  fun s => match m s with
           | inl e => inl e
           | inr (a, s') => f a s'
           end.
Definition revert {A} (e : Error) : M A := fun _ => inl e.
Definition get : M State := fun s => inr (s, s).
Definition modify (f : State -> State) : M unit := fun s => inr (tt, f s).
Definition emit (ev : Event) : M unit :=
  modify (fun s => set_events (events s ++ [ev]) s).

Notation "'let*' x ':=' m 'in' f" := (bind m (fun x => f))
  (at level 10, x name, m at level 100, f at level 200).
Notation "m ';;' f" := (bind m (fun _ => f))
  (at level 100, f at level 200, right associativity).

(** [if (c) revert e();] *)
Definition revert_if (c : bool) (e : Error) : M unit :=
  if c then revert e else ret tt.

(** Checked [uint256] addition of Solidity 0.8: Panic(0x11) on overflow. *)
Definition checked_add (a b : uint256) : M uint256 :=
  if UINT256_MAX <? a + b then revert (Panic 17) else ret (a + b).

(** Call environment: [msg.sender], [block.timestamp], and the request id
    the decryption oracle hands out if it is asked during this call. *)
Record Env := {
  msg_sender : address;
  block_timestamp : uint256;
  oracle_requestId : uint256
}.

(** ** The contract *)

Section Contract.
Context `{fhe : FHEVM}.

(** *** Modifiers *)

Definition onlyOwner (e : Env) : M unit :=
  let* s := get in
  revert_if (negb (msg_sender e =? owner s)) NotOwner.

Definition onlyProvider (e : Env) : M unit :=
  let* s := get in
  revert_if (negb (rdb (isProvider s) (msg_sender e))) NotProvider.

Definition whenNotPaused : M unit :=
  let* s := get in
  revert_if (paused s) PausedState.

Definition checkSubmissionCooldown (e : Env) : M unit :=
  let* s := get in
  let* ready := checked_add (rd (lastSubmissionTime s) (msg_sender e)) (cooldownSeconds s) in
  revert_if (block_timestamp e <? ready) CooldownActive.

Definition checkDecryptionCooldown (e : Env) : M unit :=
  let* s := get in
  let* ready := checked_add (rd (lastDecryptionRequestTime s) (msg_sender e)) (cooldownSeconds s) in
  revert_if (block_timestamp e <? ready) CooldownActive.

(** *** Internal helpers *)

Definition _hashCiphertexts (cts : list bytes32) : bytes32 :=
  keccak256_encode cts this.

Definition _initIfNeeded (val : euint32) : M unit :=
  revert_if (negb (FHE_isInitialized val)) NotInitialized.

(** [batches.length - 1], a checked subtraction. *)
Definition last_index : M nat :=
  let* s := get in
  match length (batches s) with
  | O => revert (Panic 17)
  | S n => ret n
  end.

(** [batches[i]], a bounds-checked array access. *)
Definition batch_at (i : nat) : M Batch :=
  let* s := get in
  match batches s !! i with
  | Some b => ret b
  | None => revert (Panic 50)
  end.

(** Assignment to a field of the storage reference [batches[i]]. *)
Definition update_batch (i : nat) (f : Batch -> Batch) : M unit :=
  modify (fun s => set_batches (alter f i (batches s)) s).

(** The big-endian value of a byte string. *)
Definition be_value (bs : list byte) : N :=
  fold_left (fun acc b => acc * 256 + Byte.to_N b) bs 0.

(** [abi.decode(data, (uint32))]: one 32-byte word is read; the decoder
    reverts on short input and on a word that is not a [uint32]. *)
Definition abi_decode_uint32 (data : bytes) : M N :=
  if (length data <? 32)%nat then revert DecodeFailure
  else
    let w := be_value (take 32 data) in
    if UINT32_MOD <=? w then revert DecodeFailure else ret w.

(** *** Constructor *)

Definition constructor (e : Env) : State :=
  {| owner := msg_sender e;
     isProvider := <[msg_sender e := true]> ∅;
     paused := false;
     cooldownSeconds := 60;
     lastSubmissionTime := ∅;
     lastDecryptionRequestTime := ∅;
     tips := [];
     batches := [ {| id := 0; isOpen := false; startTime := 0; closeTime := 0 |} ];
     batchTipCount := ∅;
     batchTotalEncryptedAmount := ∅;
     decryptionContexts := ∅;
     events := [] |}.

(** *** Administration *)

Definition transferOwnership (e : Env) (newOwner : address) : M unit :=
  onlyOwner e ;;
  let* s := get in
  let previousOwner := owner s in
  modify (set_owner newOwner) ;;
  emit (OwnershipTransferred previousOwner newOwner).

Definition addProvider (e : Env) (provider : address) : M unit :=
  onlyOwner e ;;
  let* s := get in
  if negb (rdb (isProvider s) provider) then
    modify (fun s => set_isProvider (<[provider := true]> (isProvider s)) s) ;;
    emit (ProviderAdded provider)
  else ret tt.

Definition removeProvider (e : Env) (provider : address) : M unit :=
  onlyOwner e ;;
  let* s := get in
  if rdb (isProvider s) provider then
    modify (fun s => set_isProvider (<[provider := false]> (isProvider s)) s) ;;
    emit (ProviderRemoved provider)
  else ret tt.

Definition pause (e : Env) : M unit :=
  onlyOwner e ;;
  whenNotPaused ;;
  modify (set_paused true) ;;
  emit (Paused (msg_sender e)).

Definition unpause (e : Env) : M unit :=
  onlyOwner e ;;
  modify (set_paused false) ;;
  emit (Unpaused (msg_sender e)).

Definition setCooldownSeconds (e : Env) (newCooldownSeconds : uint256) : M unit :=
  onlyOwner e ;;
  let* s := get in
  let oldCooldownSeconds := cooldownSeconds s in
  modify (set_cooldownSeconds newCooldownSeconds) ;;
  emit (CooldownSecondsSet oldCooldownSeconds newCooldownSeconds).

(** *** Batch lifecycle *)

Definition openBatch (e : Env) : M unit :=
  onlyProvider e ;;
  whenNotPaused ;;
  let* i := last_index in
  let* currentBatch := batch_at i in
  revert_if (isOpen currentBatch) BatchOpen ;;
  let* s := get in
  let newBatchId := N.of_nat (length (batches s)) in
  modify (fun s => set_batches
    (batches s ++ [ {| id := newBatchId; isOpen := true;
                       startTime := block_timestamp e; closeTime := 0 |} ]) s) ;;
  emit (BatchOpened newBatchId (block_timestamp e)).

Definition closeBatch (e : Env) : M unit :=
  onlyProvider e ;;
  whenNotPaused ;;
  let* i := last_index in
  let* currentBatch := batch_at i in
  revert_if (negb (isOpen currentBatch)) BatchNotOpen ;;
  update_batch i (fun b => {| id := id b; isOpen := false;
                              startTime := startTime b; closeTime := closeTime b |}) ;;
  update_batch i (fun b => {| id := id b; isOpen := isOpen b;
                              startTime := startTime b; closeTime := block_timestamp e |}) ;;
  let* currentBatch := batch_at i in
  let* s := get in
  emit (BatchClosed (id currentBatch) (closeTime currentBatch)
                    (rd (batchTipCount s) (id currentBatch))).

(** *** Contributions *)

Definition submitTip (e : Env) (encryptedAmount encryptedMessagePart1 encryptedMessagePart2 : euint32)
  : M unit :=
  whenNotPaused ;;
  checkSubmissionCooldown e ;;
  let* i := last_index in
  let* currentBatch := batch_at i in
  revert_if (negb (isOpen currentBatch)) BatchNotOpen ;;
  _initIfNeeded encryptedAmount ;;
  _initIfNeeded encryptedMessagePart1 ;;
  _initIfNeeded encryptedMessagePart2 ;;
  modify (fun s => set_tips
    (tips s ++ [ {| tipper := msg_sender e;
                    encryptedAmount := encryptedAmount;
                    encryptedMessagePart1 := encryptedMessagePart1;
                    encryptedMessagePart2 := encryptedMessagePart2 |} ]) s) ;;
  let* s := get in
  let tipIndex := N.of_nat (length (tips s)) - 1 in
  let* count := checked_add (rd (batchTipCount s) (id currentBatch)) 1 in
  modify (fun s => set_batchTipCount (<[id currentBatch := count]> (batchTipCount s)) s) ;;
  let* s := get in
  (if rd (batchTotalEncryptedAmount s) (id currentBatch) =? 0 then
     modify (fun s => set_batchTotalEncryptedAmount
       (<[id currentBatch := encryptedAmount]> (batchTotalEncryptedAmount s)) s)
   else
     let currentTotal := rd (batchTotalEncryptedAmount s) (id currentBatch) in
     let newTotal := FHE_add currentTotal encryptedAmount in
     modify (fun s => set_batchTotalEncryptedAmount
       (<[id currentBatch := newTotal]> (batchTotalEncryptedAmount s)) s)) ;;
  modify (fun s => set_lastSubmissionTime
    (<[msg_sender e := block_timestamp e]> (lastSubmissionTime s)) s) ;;
  emit (TipSubmitted (msg_sender e) (id currentBatch) tipIndex).

(** *** Decryption request and callback *)

Definition requestBatchTotalDecryption (e : Env) (batchId : uint256) : M unit :=
  onlyProvider e ;;
  whenNotPaused ;;
  checkDecryptionCooldown e ;;
  let* s := get in
  revert_if ((N.of_nat (length (batches s)) <=? batchId) || (batchId =? 0)) InvalidBatch ;;
  let* b := batch_at (N.to_nat batchId) in
  revert_if (isOpen b) BatchOpen ;;
  let totalEncryptedAmount := rd (batchTotalEncryptedAmount s) batchId in
  _initIfNeeded totalEncryptedAmount ;;
  let cts := [totalEncryptedAmount] in
  let stateHash := _hashCiphertexts cts in
  let requestId := oracle_requestId e in
  modify (fun s => set_decryptionContexts
    (<[requestId := {| batchId := batchId; stateHash := stateHash; processed := false |}]>
       (decryptionContexts s)) s) ;;
  modify (fun s => set_lastDecryptionRequestTime
    (<[msg_sender e := block_timestamp e]> (lastDecryptionRequestTime s)) s) ;;
  emit (DecryptionRequested requestId batchId stateHash).

Definition myCallback (requestId : uint256) (cleartexts proof : bytes) : M unit :=
  let* s := get in
  revert_if (processed (rdctx (decryptionContexts s) requestId)) ReplayAttempt ;;
  let ctx := rdctx (decryptionContexts s) requestId in
  let* batch := batch_at (N.to_nat (batchId ctx)) in
  let currentTotalEncryptedAmount := rd (batchTotalEncryptedAmount s) (batchId ctx) in
  _initIfNeeded currentTotalEncryptedAmount ;;
  let currentCts := [currentTotalEncryptedAmount] in
  let currentStateHash := _hashCiphertexts currentCts in
  revert_if (negb (currentStateHash =? stateHash ctx)) StateMismatch ;;
  revert_if (negb (FHE_checkSignatures requestId cleartexts proof)) InvalidProof ;;
  let* totalAmount := abi_decode_uint32 cleartexts in
  modify (fun s => set_decryptionContexts
    (<[requestId := {| batchId := batchId (rdctx (decryptionContexts s) requestId);
                       stateHash := stateHash (rdctx (decryptionContexts s) requestId);
                       processed := true |}]> (decryptionContexts s)) s) ;;
  emit (DecryptionCompleted requestId (batchId ctx) totalAmount).

(** *** Transactions *)

Inductive Call :=
| TransferOwnership (newOwner : address)
| AddProvider (provider : address)
| RemoveProvider (provider : address)
| Pause
| Unpause
| SetCooldownSeconds (newCooldownSeconds : uint256)
| OpenBatch
| CloseBatch
| SubmitTip (encryptedAmount encryptedMessagePart1 encryptedMessagePart2 : euint32)
| RequestBatchTotalDecryption (batchId : uint256)
| MyCallback (requestId : uint256) (cleartexts proof : bytes).

Definition dispatch (e : Env) (c : Call) : M unit :=
  match c with
  | TransferOwnership a => transferOwnership e a
  | AddProvider a => addProvider e a
  | RemoveProvider a => removeProvider e a
  | Pause => pause e
  | Unpause => unpause e
  | SetCooldownSeconds n => setCooldownSeconds e n
  | OpenBatch => openBatch e
  | CloseBatch => closeBatch e
  | SubmitTip a m1 m2 => submitTip e a m1 m2
  | RequestBatchTotalDecryption b => requestBatchTotalDecryption e b
  | MyCallback r c p => myCallback r c p
  end.

(** The outcome of a transaction: the error it reverted with, or the
    committed storage. *)
Definition transact (e : Env) (c : Call) (s : State) : Error + State :=
  match dispatch e c s with
  | inl err => inl err
  | inr (_, s') => inr s'
  end.

(** Storage after the transaction: a revert leaves it as it was. *)
Definition step (s : State) (ec : Env * Call) : State :=
  match transact ec.1 ec.2 s with
  | inl _ => s
  | inr s' => s'
  end.

Definition run (tr : list (Env * Call)) (s : State) : State :=
  fold_left step tr s.

(** Storage reachable from a deployment. *)
Definition reachable (s : State) : Prop :=
  exists e0 tr, s = run tr (constructor e0).

End Contract.

(** ** Vocabulary of the properties *)

Section Vocabulary.
Context `{fhe : FHEVM}.

(** Well-formedness of the registry. *)
Record batches_wf (s : State) : Prop := {
  wf_sentinel : exists b0, batches s !! 0%nat = Some b0 /\ isOpen b0 = false;
  wf_ids : forall i b, batches s !! i = Some b -> id b = N.of_nat i;
  wf_last_open : forall i b,
    batches s !! i = Some b -> isOpen b = true -> S i = length (batches s);
  wf_count0 : rd (batchTipCount s) 0 = 0;
  wf_total0 : forall b,
    rd (batchTipCount s) b = 0 -> rd (batchTotalEncryptedAmount s) b = 0
}.

(** Some batch of the registry is open. *)
Definition some_batch_open (s : State) : Prop :=
  exists i b, batches s !! i = Some b /\ isOpen b = true.

(** The latest batch, [batches[batches.length - 1]], is open. *)
Definition latest_batch_open (s : State) : bool :=
  match last (batches s) with
  | Some b => isOpen b
  | None => false
  end.

(** The guards in front of the body of submitTip let the call through. *)
Definition submission_allowed (s : State) (e : Env) : Prop :=
  paused s = false /\
  rd (lastSubmissionTime s) (msg_sender e) + cooldownSeconds s <= block_timestamp e /\
  block_timestamp e <= UINT256_MAX.

(** The library's convention for handles: the zero word is the handle of
    no ciphertext. *)
Definition zero_handle_uninitialized : Prop := FHE_isInitialized 0 = false.

(** The guards in front of the body of requestBatchTotalDecryption let the
    call through. *)
Definition request_allowed (s : State) (e : Env) : Prop :=
  rdb (isProvider s) (msg_sender e) = true /\
  paused s = false /\
  rd (lastDecryptionRequestTime s) (msg_sender e) + cooldownSeconds s <= block_timestamp e /\
  block_timestamp e <= UINT256_MAX.

(** The oracle hands out [rid] in this transaction. *)
Definition reissues (rid : uint256) (ec : Env * Call) : bool :=
  match ec.2 with
  | RequestBatchTotalDecryption _ => oracle_requestId ec.1 =? rid
  | _ => false
  end.

(** The event is a DecryptionCompleted for [rid]. *)
Definition is_completion (rid : uint256) (ev : Event) : bool :=
  match ev with
  | DecryptionCompleted r _ _ => r =? rid
  | _ => false
  end.

(** How many DecryptionCompleted events a log holds for [rid]. *)
Definition completions (rid : uint256) (evs : list Event) : nat :=
  length (filter (fun ev => is_completion rid ev = true) evs).

(** The log records a decryption request under [rid]. *)
Definition requested (rid : uint256) (evs : list Event) : Prop :=
  exists b h, DecryptionRequested rid b h ∈ evs.

(** Stored contexts and completions all stem from logged requests. *)
Record contexts_wf (s : State) : Prop := {
  cw_stored : forall rid,
    is_Some (decryptionContexts s !! rid) -> requested rid (events s);
  cw_completed : forall rid b t,
    DecryptionCompleted rid b t ∈ events s -> requested rid (events s)
}.

(** The amount a logged event contributes to batch [b]: the
    [encryptedAmount] of the tip whose index a TipSubmitted for [b]
    carries. *)
Definition contribution (tps : list Tip) (b : uint256) (ev : Event) : list euint32 :=
  match ev with
  | TipSubmitted _ b' i =>
      if b' =? b then
        match tps !! N.to_nat i with
        | Some t => [encryptedAmount t]
        | None => []
        end
      else []
  | _ => []
  end.

(** The ledger record a logged TipSubmitted points at. *)
Definition logged_tip (tps : list Tip) (ev : Event) : list Tip :=
  match ev with
  | TipSubmitted _ _ i =>
      match tps !! N.to_nat i with
      | Some t => [t]
      | None => []
      end
  | _ => []
  end.

(** The encrypted amounts submitted to batch [b], in submission order. *)
Definition amounts_of_batch (s : State) (b : uint256) : list euint32 :=
  flat_map (contribution (tips s) b) (events s).

(** The homomorphic fold: nothing yet is the zero word, the first amount
    seeds, the others are merged with [FHE.add] from the left. *)
Definition hfold (l : list euint32) : euint32 :=
  match l with
  | [] => 0
  | a :: l' => fold_left FHE_add l' a
  end.

(** [FHE.add] of two initialized handles is an initialized handle. *)
Definition add_initialized : Prop :=
  forall x y, FHE_isInitialized x = true -> FHE_isInitialized y = true ->
              FHE_isInitialized (FHE_add x y) = true.

(** [dec] decrypts [euint32] handles: plaintexts are 32-bit and [FHE.add]
    adds them as [uint32] addition does. *)
Record decrypts (dec : euint32 -> N) : Prop := {
  dec_range : forall h, dec h < UINT32_MOD;
  dec_add : forall x y,
    FHE_isInitialized x = true -> FHE_isInitialized y = true ->
    dec (FHE_add x y) = (dec x + dec y) mod UINT32_MOD
}.

(** The plaintext sum a1 + ... + an. *)
Definition plain_sum (dec : euint32 -> N) (l : list euint32) : N :=
  foldr (fun h acc => dec h + acc) 0 l.

(** The ledger agrees with the aggregates. *)
Record ledger_wf (s : State) : Prop := {
  lw_indices : forall t b i,
    TipSubmitted t b i ∈ events s -> (N.to_nat i < length (tips s))%nat;
  lw_ledger : flat_map (logged_tip (tips s)) (events s) = tips s;
  lw_initialized : forall b,
    Forall (fun h => FHE_isInitialized h = true) (amounts_of_batch s b);
  lw_total : forall b,
    rd (batchTotalEncryptedAmount s) b = hfold (amounts_of_batch s b);
  lw_count : forall b,
    rd (batchTipCount s) b = N.of_nat (length (amounts_of_batch s b))
}.

(** The entry points behind [onlyOwner]. *)
Definition owner_only (c : Call) : bool :=
  match c with
  | TransferOwnership _ | AddProvider _ | RemoveProvider _
  | Pause | Unpause | SetCooldownSeconds _ => true
  | _ => false
  end.

(** The entry points behind [onlyProvider]. *)
Definition provider_only (c : Call) : bool :=
  match c with
  | OpenBatch | CloseBatch | RequestBatchTotalDecryption _ => true
  | _ => false
  end.

(** The entry points behind [whenNotPaused]. *)
Definition pausable (c : Call) : bool :=
  match c with
  | Pause | OpenBatch | CloseBatch | SubmitTip _ _ _
  | RequestBatchTotalDecryption _ => true
  | _ => false
  end.

(** The caller passes the role modifier in front of [c], if there is one. *)
Definition role_passes (s : State) (e : Env) (c : Call) : bool :=
  if owner_only c then msg_sender e =? owner s
  else if provider_only c then rdb (isProvider s) (msg_sender e)
  else true.

(** How many events of a log satisfy [p]. *)
Definition count_events (p : Event -> bool) (evs : list Event) : nat :=
  length (filter (fun ev => p ev = true) evs).

Definition is_opened (ev : Event) : bool :=
  match ev with BatchOpened _ _ => true | _ => false end.

Definition is_closed (ev : Event) : bool :=
  match ev with BatchClosed _ _ _ => true | _ => false end.

Definition is_tip (ev : Event) : bool :=
  match ev with TipSubmitted _ _ _ => true | _ => false end.

Definition is_tip_of (b : uint256) (ev : Event) : bool :=
  match ev with TipSubmitted _ b' _ => b' =? b | _ => false end.

(** The (tipper, tipIndex) pairs of the TipSubmitted events, in log order. *)
Definition tip_log (evs : list Event) : list (address * uint256) :=
  flat_map (fun ev => match ev with
                      | TipSubmitted t _ i => [(t, i)]
                      | _ => []
                      end) evs.

(** The (tipper, index) pairs of the ledger, in ledger order. *)
Definition tip_ledger (tps : list Tip) : list (address * uint256) :=
  imap (fun k t => (tipper t, N.of_nat k)) tps.

(** A stored context names a closed batch other than the sentinel whose
    running total is initialized and hashes to the stored fingerprint. *)
Definition context_ok (s : State) (ctx : DecryptionContext) : Prop :=
  batchId ctx <> 0 /\
  exists bt, batches s !! N.to_nat (batchId ctx) = Some bt /\
             isOpen bt = false /\
             FHE_isInitialized (rd (batchTotalEncryptedAmount s) (batchId ctx)) = true /\
             stateHash ctx = _hashCiphertexts [rd (batchTotalEncryptedAmount s) (batchId ctx)].

(** The batch events of the log are the batch records of the registry:
    a BatchOpened for every batch but the sentinel, with its startTime; a
    BatchClosed for every closed batch but the sentinel, with its
    closeTime and its count. *)
Definition batch_log (s : State) : Prop :=
  (forall i t, BatchOpened (N.of_nat i) t ∈ events s <->
     i <> 0%nat /\ exists bt, batches s !! i = Some bt /\ startTime bt = t) /\
  (forall i t c, BatchClosed (N.of_nat i) t c ∈ events s <->
     i <> 0%nat /\ exists bt, batches s !! i = Some bt /\ isOpen bt = false /\
                              closeTime bt = t /\
                              rd (batchTipCount s) (N.of_nat i) = c).

(** The event an entry point logs. *)
Definition emitted_by (c : Call) (ev : Event) : bool :=
  match c, ev with
  | TransferOwnership _, OwnershipTransferred _ _
  | AddProvider _, ProviderAdded _
  | RemoveProvider _, ProviderRemoved _
  | Pause, Paused _
  | Unpause, Unpaused _
  | SetCooldownSeconds _, CooldownSecondsSet _ _
  | OpenBatch, BatchOpened _ _
  | CloseBatch, BatchClosed _ _ _
  | SubmitTip _ _ _, TipSubmitted _ _ _
  | RequestBatchTotalDecryption _, DecryptionRequested _ _ _
  | MyCallback _ _ _, DecryptionCompleted _ _ _ => true
  | _, _ => false
  end.

(** addProvider of a provider, removeProvider of a non-provider. *)
Definition redundant (s : State) (c : Call) : bool :=
  match c with
  | AddProvider p => rdb (isProvider s) p
  | RemoveProvider p => negb (rdb (isProvider s) p)
  | _ => false
  end.

(** The outcome of [abi.decode(data, (uint32))] as a value. *)
Definition decoded_uint32 (data : bytes) : option N :=
  if (length data <? 32)%nat then None
  else if UINT32_MOD <=? be_value (take 32 data) then None
  else Some (be_value (take 32 data)).

(** The ledger part of storage against the tip events of the log. *)
Definition tips_logged (s : State) : Prop :=
  tip_log (events s) = tip_ledger (tips s) /\
  (forall b, rd (batchTipCount s) b = N.of_nat (count_events (is_tip_of b) (events s))) /\
  (forall t b i, TipSubmitted t b i ∈ events s ->
     b <> 0 /\ (N.to_nat b < length (batches s))%nat).

(** Every stored context is well-formed. *)
Definition contexts_valid (s : State) : Prop :=
  forall rid ctx, decryptionContexts s !! rid = Some ctx -> context_ok s ctx.

(** A batch fit for decryption: it exists, is not the sentinel, is closed,
    and its running total is initialized. *)
Definition decryptable (s : State) (b : uint256) : Prop :=
  b <> 0 /\
  exists bt, batches s !! N.to_nat b = Some bt /\ isOpen bt = false /\
             FHE_isInitialized (rd (batchTotalEncryptedAmount s) b) = true.

(** Every logged completion carries a 32-bit total of a decryptable batch. *)
Definition completions_valid (s : State) : Prop :=
  forall r b t, DecryptionCompleted r b t ∈ events s ->
    t < UINT32_MOD /\ decryptable s b.

(** Stored contexts are announced in the log, processed ones completed. *)
Definition contexts_logged (s : State) : Prop :=
  (forall rid ctx, decryptionContexts s !! rid = Some ctx ->
     DecryptionRequested rid (batchId ctx) (stateHash ctx) ∈ events s) /\
  (forall rid ctx, decryptionContexts s !! rid = Some ctx -> processed ctx = true ->
     exists t, DecryptionCompleted rid (batchId ctx) t ∈ events s).

(** The administrative part of storage: owner, pause flag, cooldown,
    provider map. *)
Definition admin_of (s : State) : address * bool * uint256 * gmap N bool :=
  (owner s, paused s, cooldownSeconds s, isProvider s).

(** What an event says about the administrative part. *)
Definition replay_admin (st : address * bool * uint256 * gmap N bool) (ev : Event)
  : address * bool * uint256 * gmap N bool :=
  let '(o, pz, cd, pr) := st in
  match ev with
  | OwnershipTransferred _ n => (n, pz, cd, pr)
  | ProviderAdded p => (o, pz, cd, <[p := true]> pr)
  | ProviderRemoved p => (o, pz, cd, <[p := false]> pr)
  | Paused _ => (o, true, cd, pr)
  | Unpaused _ => (o, false, cd, pr)
  | CooldownSecondsSet _ n => (o, pz, n, pr)
  | _ => st
  end.

End Vocabulary.

(** ** A cleartext instance of the collaborators

    Handles carry their plaintext: handle [p + 1] stands for the 32-bit
    value [p], handle [0] is the uninitialized one, and [FHE.add] adds the
    plaintexts as [euint32] does, modulo 2^32.  It is used to run the
    contract on concrete transactions. *)

Module Cleartext.

Definition dec (h : euint32) : N := (h - 1) mod UINT32_MOD.
Definition enc (p : N) : euint32 := p mod UINT32_MOD + 1.

Definition fhevm : FHEVM :=
  {| FHE_add := fun a b => enc (dec a + dec b);
     FHE_isInitialized := fun h => negb (h =? 0);
     FHE_checkSignatures := fun _ _ proof => negb (length proof =? 0)%nat;
     keccak256_encode := fun cts a => fold_left (fun acc c => acc * 31 + c + 1) cts (a + 1);
     this := 4096 |}.

(** 32-byte big-endian encoding of a small number. *)
Definition word (n : N) : bytes :=
  replicate 31 x00 ++ [default x00 (Byte.of_N n)].

Definition deployer : address := 1.
Definition alice : address := 2.
Definition bob : address := 3.

Definition at_ (sender : address) (now : uint256) : Env :=
  {| msg_sender := sender; block_timestamp := now; oracle_requestId := 0 |}.
Definition oracle (sender : address) (now rid : uint256) : Env :=
  {| msg_sender := sender; block_timestamp := now; oracle_requestId := rid |}.

Definition genesis : State := constructor (at_ deployer 1000).

(** open batch 1, two tips (5 and 3), close, request decryption *)
Definition scenario : list (Env * Call) :=
  [ (at_ deployer 1100, OpenBatch);
    (at_ alice 1200, SubmitTip (enc 5) (enc 7) (enc 9));
    (at_ bob 1300, SubmitTip (enc 3) (enc 1) (enc 1));
    (at_ deployer 1400, CloseBatch);
    (oracle deployer 1500 77, RequestBatchTotalDecryption 1) ].

(** the storage after [scenario]: batch 1 closed, request 77 pending *)
Definition requested_state : State := run (fhe := fhevm) scenario genesis.

(** the oracle answers request 77 with the total 8 and a proof *)
Definition answer : Env * Call := (at_ 9 2000, MyCallback 77 (word 8) [x01]).
Definition completed_state : State := run (fhe := fhevm) [answer] requested_state.

(** later transactions, under other request ids *)
Definition aftermath : list (Env * Call) :=
  [ (at_ deployer 3000, OpenBatch);
    (at_ alice 3100, SubmitTip (enc 4) (enc 1) (enc 1));
    (at_ deployer 3200, CloseBatch);
    (oracle deployer 3300 78, RequestBatchTotalDecryption 2);
    (at_ bob 3400, MyCallback 78 (word 4) [x01]) ].

(** the running total of batch 1 replaced behind the pending request *)
Definition drifted_state : State :=
  set_batchTotalEncryptedAmount
    (<[1 := enc 100]> (batchTotalEncryptedAmount requested_state)) requested_state.

(** the running total of batch 1 cleared behind the pending request *)
Definition cleared_state : State :=
  set_batchTotalEncryptedAmount
    (<[1 := 0]> (batchTotalEncryptedAmount requested_state)) requested_state.

(** two tips of 2^31 each into batch 1 *)
Definition wrapping : list (Env * Call) :=
  [ (at_ deployer 1100, OpenBatch);
    (at_ alice 1200, SubmitTip (enc (2 ^ 31)) (enc 1) (enc 1));
    (at_ bob 1300, SubmitTip (enc (2 ^ 31)) (enc 1) (enc 1));
    (at_ deployer 1400, CloseBatch) ].

(** alice tips, then the owner sets the largest cooldown *)
Definition long_cooldown : list (Env * Call) :=
  [ (at_ deployer 1100, OpenBatch);
    (at_ alice 1200, SubmitTip (enc 5) (enc 1) (enc 1));
    (at_ deployer 1250, SetCooldownSeconds UINT256_MAX) ].

(** the storage before the request of [scenario], and the request *)
Definition closed_state : State :=
  run (fhe := fhevm) (take 4 scenario) genesis.
Definition request77 : Env := oracle deployer 1500 77.

(** what happens before the oracle answers request 77 *)
Definition interlude : list (Env * Call) :=
  [ (at_ deployer 3000, OpenBatch);
    (at_ alice 3100, SubmitTip (enc 4) (enc 1) (enc 1));
    (at_ deployer 3150, Pause);
    (at_ deployer 3160, Unpause);
    (at_ deployer 3200, CloseBatch);
    (oracle deployer 3300 78, RequestBatchTotalDecryption 2);
    (at_ bob 3400, MyCallback 78 (word 4) [x01]);
    (at_ deployer 3500, TransferOwnership alice) ].

(** batch 1 just opened *)
Definition opened_state : State :=
  run (fhe := fhevm) [(at_ deployer 1100, OpenBatch)] genesis.

End Cleartext.

(** ** Symbolic execution of the monad *)

Ltac unfold_contract :=
  unfold transact, dispatch,
    transferOwnership, addProvider, removeProvider, pause, unpause,
    setCooldownSeconds, openBatch, closeBatch, submitTip,
    requestBatchTotalDecryption, myCallback,
    onlyOwner, onlyProvider, whenNotPaused,
    checkSubmissionCooldown, checkDecryptionCooldown,
    _initIfNeeded, _hashCiphertexts, last_index, batch_at, update_batch,
    abi_decode_uint32 in *.

Ltac unfold_monad :=
  unfold emit, checked_add, revert_if, bind, ret, revert, get, modify in *.

(** Split on the first test the computation in hypothesis [H] branches on. *)
Ltac split_test H :=
  match type of H with
  | context [match (if ?c then _ else _) with _ => _ end] => destruct c eqn:?
  | context [if ?c then _ else _] => destruct c eqn:?
  | context [match ?o with Some _ => _ | None => _ end] => destruct o eqn:?
  | context [match ?n with O => _ | S _ => _ end] => destruct n eqn:?
  end; simpl in H; try discriminate H.

Ltac run_tx H :=
  unfold_contract; unfold_monad; simpl in H;
  repeat split_test H;
  try (injection H as <-).

Section Reachability.
Context `{fhe : FHEVM}.

Lemma run_snoc tr ec s : run (tr ++ [ec]) s = step (run tr s) ec.
Proof. unfold run. by rewrite fold_left_app. Qed.

(** Induction over deployments: a property of the constructor's storage
    that every committed transaction preserves holds of all reachable
    storage. *)
Lemma reachable_ind (P : State -> Prop) :
  (forall e0, P (constructor e0)) ->
  (forall s e c s', P s -> transact e c s = inr s' -> P s') ->
  forall s, reachable s -> P s.
Proof.
  intros Hinit Hstep s (e0 & tr & ->).
  induction tr as [|[e c] tr IH] using rev_ind; [apply Hinit|].
  rewrite run_snoc. unfold step. simpl.
  destruct (transact e c (run tr (constructor e0))) eqn:Htx; [exact IH|].
  eapply Hstep; eauto.
Qed.

Lemma reachable_constructor e0 : reachable (constructor e0).
Proof. by exists e0, []. Qed.

Lemma reachable_step s ec : reachable s -> reachable (step s ec).
Proof.
  intros (e0 & tr & ->). exists e0, (tr ++ [ec]). by rewrite run_snoc.
Qed.

Lemma reachable_run tr s : reachable s -> reachable (run tr s).
Proof.
  revert s. induction tr as [|ec tr IH]; intros s Hs; [done|].
  simpl. apply IH. by apply reachable_step.
Qed.

End Reachability.

(** ** Reading mappings *)

Lemma rd_insert_eq (m : gmap N N) k v : rd (<[k := v]> m) k = v.
Proof. unfold rd. by rewrite lookup_insert_eq. Qed.

Lemma rd_insert_ne (m : gmap N N) k k' v : k <> k' -> rd (<[k := v]> m) k' = rd m k'.
Proof. intros Hne. unfold rd. by rewrite lookup_insert_ne. Qed.

Lemma rdb_insert_eq (m : gmap N bool) k v : rdb (<[k := v]> m) k = v.
Proof. unfold rdb. by rewrite lookup_insert_eq. Qed.

Lemma rdb_insert_ne (m : gmap N bool) k k' v : k <> k' -> rdb (<[k := v]> m) k' = rdb m k'.
Proof. intros Hne. unfold rdb. by rewrite lookup_insert_ne. Qed.

Lemma rdctx_insert_eq (m : gmap N DecryptionContext) k v : rdctx (<[k := v]> m) k = v.
Proof. unfold rdctx. by rewrite lookup_insert_eq. Qed.

Lemma rdctx_insert_ne (m : gmap N DecryptionContext) k k' v :
  k <> k' -> rdctx (<[k := v]> m) k' = rdctx m k'.
Proof. intros Hne. unfold rdctx. by rewrite lookup_insert_ne. Qed.

(** ** The batch registry *)

Section BatchManager.
Context `{fhe : FHEVM}.

Lemma batches_wf_constructor e0 : batches_wf (constructor e0).
Proof.
  split; simpl.
  - eexists. split; reflexivity.
  - intros [|[|i]] b Hb; simpl in Hb; try discriminate. by injection Hb as <-.
  - intros [|[|i]] b Hb; simpl in Hb; try discriminate. by injection Hb as <-.
  - reflexivity.
  - reflexivity.
Qed.

(** An open latest batch is never the sentinel. *)
Lemma open_batch_id_nonzero s n b :
  batches_wf s -> batches s !! n = Some b -> isOpen b = true -> id b <> 0.
Proof.
  intros [(b0 & Hb0 & Hclosed) Hids _ _ _] Hb Hopen.
  rewrite (Hids _ _ Hb). destruct n; [|lia].
  rewrite Hb in Hb0. injection Hb0 as ->. congruence.
Qed.

Lemma batches_wf_open s now :
  batches_wf s ->
  (forall b, last (batches s) = Some b -> isOpen b = false) ->
  batches_wf (set_batches
    (batches s ++ [ {| id := N.of_nat (length (batches s)); isOpen := true;
                       startTime := now; closeTime := 0 |} ]) s).
Proof.
  intros [(b0 & Hb0 & Hclosed) Hids Hlast Hc0 Ht0] Hlc.
  split; simpl; try assumption.
  - exists b0. split; [|done]. rewrite lookup_app_l; [done|].
    by apply lookup_lt_Some in Hb0.
  - intros i b Hb. apply lookup_app_Some in Hb as [Hb|[Hge Hb]]; [by apply Hids|].
    apply list_lookup_singleton_Some in Hb as [Hi <-]. simpl. f_equal. lia.
  - intros i b Hb Hopen. rewrite length_app. simpl.
    apply lookup_app_Some in Hb as [Hb|[Hge Hb]].
    + pose proof (Hlast _ _ Hb Hopen) as Hi.
      assert (last (batches s) = Some b) as Hl.
      { rewrite last_lookup. rewrite <- Hi. exact Hb. }
      rewrite (Hlc _ Hl) in Hopen. discriminate.
    + apply list_lookup_singleton_Some in Hb as [Hi _]. lia.
Qed.

Lemma batches_wf_alter s i f :
  batches_wf s ->
  (forall b, id (f b) = id b) ->
  (forall b, isOpen (f b) = true -> isOpen b = true) ->
  batches_wf (set_batches (alter f i (batches s)) s).
Proof.
  intros [(b0 & Hb0 & Hclosed) Hids Hlast Hc0 Ht0] Hid Hop.
  split; simpl; try assumption.
  - destruct (decide (i = 0%nat)) as [->|Hne].
    + exists (f b0). rewrite list_lookup_alter_eq, Hb0. split; [done|].
      destruct (isOpen (f b0)) eqn:Hf; [|done]. apply Hop in Hf. congruence.
    + exists b0. by rewrite list_lookup_alter_ne.
  - intros j b Hb. destruct (decide (i = j)) as [->|Hne].
    + rewrite list_lookup_alter_eq in Hb.
      destruct (batches s !! j) as [b'|] eqn:Hb'; [|done].
      injection Hb as <-. rewrite Hid. by apply Hids.
    + rewrite list_lookup_alter_ne in Hb by done. by apply Hids.
  - intros j b Hb Hopen. rewrite length_alter.
    destruct (decide (i = j)) as [->|Hne].
    + rewrite list_lookup_alter_eq in Hb.
      destruct (batches s !! j) as [b'|] eqn:Hb'; [|done].
      injection Hb as <-. apply Hop in Hopen. by eapply Hlast.
    + rewrite list_lookup_alter_ne in Hb by done. by eapply Hlast.
Qed.

Lemma batches_wf_events s evs : batches_wf s -> batches_wf (set_events evs s).
Proof. intros []. by split. Qed.

Lemma batches_wf_step s e c s' :
  batches_wf s -> transact e c s = inr s' -> batches_wf s'.
Proof.
  intros Hwf Htx.
  destruct c; run_tx Htx.
  all: try (destruct Hwf; split; simpl; assumption).
  - (* openBatch *)
    apply batches_wf_events, batches_wf_open; [done|].
    intros b' Hl. rewrite last_lookup, Heqn in Hl. simpl in Hl. congruence.
  - (* closeBatch *)
    apply batches_wf_events.
    match goal with |- batches_wf (set_batches (alter ?f _ _) ?s1) =>
      apply (batches_wf_alter s1 n f)
    end; [|done|done].
    apply batches_wf_alter; [done|done|]. simpl. discriminate.
  - (* submitTip, first contribution of the batch *)
    assert (id b <> 0) as Hid.
    { eapply open_batch_id_nonzero; eauto. by destruct (isOpen b). }
    destruct Hwf as [Hsent Hids Hlast Hc0 Ht0].
    split; simpl; try assumption.
    + by rewrite rd_insert_ne.
    + intros b'. destruct (decide (id b = b')) as [<-|Hne].
      * rewrite rd_insert_eq. lia.
      * rewrite !rd_insert_ne by done. apply Ht0.
  - (* submitTip, later contributions *)
    assert (id b <> 0) as Hid.
    { eapply open_batch_id_nonzero; eauto. by destruct (isOpen b). }
    destruct Hwf as [Hsent Hids Hlast Hc0 Ht0].
    split; simpl; try assumption.
    + by rewrite rd_insert_ne.
    + intros b'. destruct (decide (id b = b')) as [<-|Hne].
      * rewrite rd_insert_eq. lia.
      * rewrite !rd_insert_ne by done. apply Ht0.
Qed.

Lemma reachable_wf s : reachable s -> batches_wf s.
Proof.
  apply reachable_ind; [apply batches_wf_constructor|].
  intros. by eapply batches_wf_step.
Qed.

End BatchManager.

(** ** Single open batch *)

Section SingleOpenBatch.
Context `{fhe : FHEVM}.

(** The latest batch decides: some batch is open exactly when the last
    one is. *)
Lemma some_batch_open_last s :
  batches_wf s ->
  some_batch_open s <-> exists b, last (batches s) = Some b /\ isOpen b = true.
Proof.
  intros Hwf. split.
  - intros (i & b & Hb & Hopen). exists b. split; [|done].
    rewrite last_lookup. rewrite <- (wf_last_open s Hwf i b Hb Hopen). exact Hb.
  - intros (b & Hl & Hopen). rewrite last_lookup in Hl. by eexists _, b.
Qed.

Lemma last_batch_exists s :
  batches_wf s -> exists n b, length (batches s) = S n /\ batches s !! n = Some b.
Proof.
  intros Hwf. destruct (wf_sentinel s Hwf) as (b0 & Hb0 & _).
  apply lookup_lt_Some in Hb0.
  destruct (length (batches s)) as [|n] eqn:Hlen; [lia|].
  destruct (lookup_lt_is_Some_2 (batches s) n) as [b Hb]; [lia|].
  by exists n, b.
Qed.

(** C4. In storage reached by any sequence of transactions from a
    deployment (in particular by any sequence of openBatch and closeBatch
    calls), at most one batch is open, an open batch carries the highest
    id, and for a provider calling while the contract is not paused
    openBatch reverts with BatchOpen exactly when a batch is open and
    closeBatch reverts with BatchNotOpen exactly when none is. *)
Theorem single_open_batch (s : State) :
  reachable s ->
  (forall i j bi bj,
      batches s !! i = Some bi -> batches s !! j = Some bj ->
      isOpen bi = true -> isOpen bj = true -> i = j) /\
  (forall i b, batches s !! i = Some b -> isOpen b = true ->
      forall j b', batches s !! j = Some b' -> id b' <= id b) /\
  (forall e, rdb (isProvider s) (msg_sender e) = true -> paused s = false ->
      (transact e OpenBatch s = inl BatchOpen <-> some_batch_open s) /\
      (transact e CloseBatch s = inl BatchNotOpen <-> ~ some_batch_open s)).
Proof.
  intros Hs. pose proof (reachable_wf s Hs) as Hwf.
  split; [|split].
  - intros i j bi bj Hi Hj Hoi Hoj.
    pose proof (wf_last_open s Hwf i bi Hi Hoi).
    pose proof (wf_last_open s Hwf j bj Hj Hoj). lia.
  - intros i b Hb Hopen j b' Hb'.
    rewrite (wf_ids s Hwf _ _ Hb), (wf_ids s Hwf _ _ Hb').
    pose proof (wf_last_open s Hwf i b Hb Hopen).
    apply lookup_lt_Some in Hb'. lia.
  - intros e Hprov Hunp.
    destruct (last_batch_exists s Hwf) as (n & b & Hlen & Hb).
    assert (last (batches s) = Some b) as Hl.
    { rewrite last_lookup, Hlen. exact Hb. }
    rewrite (some_batch_open_last s Hwf), Hl.
    unfold_contract; unfold_monad; simpl.
    rewrite Hprov; simpl. rewrite Hunp; simpl. rewrite Hlen, Hb; simpl.
    destruct (isOpen b) eqn:Hopen; simpl;
      rewrite ?list_lookup_alter_eq, ?Hb; simpl.
    + split; split; try done.
      * intros _. by exists b.
      * intros Hno. exfalso. apply Hno. by exists b.
    + split; split; try done.
      * intros (b' & Hb' & Hopen'). congruence.
      * intros _ (b' & Hb' & Hopen'). congruence.
Qed.

End SingleOpenBatch.

(** ** Access control *)

Section AccessControl.
Context `{fhe : FHEVM}.

Lemma addProvider_noop s e p :
  rdb (isProvider s) p = true -> step s (e, AddProvider p) = s.
Proof.
  intros Hp. unfold step. simpl. unfold_contract; unfold_monad; simpl.
  destruct (msg_sender e =? owner s); simpl; [|done]. by rewrite Hp.
Qed.

Lemma removeProvider_noop s e p :
  rdb (isProvider s) p = false -> step s (e, RemoveProvider p) = s.
Proof.
  intros Hp. unfold step. simpl. unfold_contract; unfold_monad; simpl.
  destruct (msg_sender e =? owner s); simpl; [|done]. by rewrite Hp.
Qed.

Lemma addProvider_commits s e p s' :
  transact e (AddProvider p) s = inr s' -> rdb (isProvider s') p = true.
Proof.
  intros Htx. run_tx Htx; simpl.
  - apply rdb_insert_eq.
  - by destruct (rdb (isProvider s) p).
Qed.

Lemma removeProvider_commits s e p s' :
  transact e (RemoveProvider p) s = inr s' -> rdb (isProvider s') p = false.
Proof.
  intros Htx. run_tx Htx; simpl; [apply rdb_insert_eq | done].
Qed.

(** C8. addProvider on an address that is a provider, and removeProvider
    on one that is not, change nothing: storage and the event log stay as
    they are, for the owner the call even commits; a second call after a
    committed one is such a no-op, so twice is the same as once. *)
Theorem provider_updates_idempotent (s : State) (e e' : Env) (p : address) :
  (rdb (isProvider s) p = true ->
     step s (e, AddProvider p) = s /\
     (msg_sender e = owner s -> transact e (AddProvider p) s = inr s)) /\
  (rdb (isProvider s) p = false ->
     step s (e, RemoveProvider p) = s /\
     (msg_sender e = owner s -> transact e (RemoveProvider p) s = inr s)) /\
  (forall s1, transact e (AddProvider p) s = inr s1 ->
     step s1 (e', AddProvider p) = s1) /\
  (forall s1, transact e (RemoveProvider p) s = inr s1 ->
     step s1 (e', RemoveProvider p) = s1) /\
  step (step s (e, AddProvider p)) (e, AddProvider p) = step s (e, AddProvider p) /\
  step (step s (e, RemoveProvider p)) (e, RemoveProvider p) = step s (e, RemoveProvider p).
Proof.
  split; [|split; [|split; [|split; [|split]]]].
  - intros Hp. split; [by apply addProvider_noop|].
    intros Ho. unfold_contract; unfold_monad; simpl.
    rewrite Ho, N.eqb_refl. simpl. by rewrite Hp.
  - intros Hp. split; [by apply removeProvider_noop|].
    intros Ho. unfold_contract; unfold_monad; simpl.
    rewrite Ho, N.eqb_refl. simpl. by rewrite Hp.
  - intros s1 Htx. eapply addProvider_noop, addProvider_commits, Htx.
  - intros s1 Htx. eapply removeProvider_noop, removeProvider_commits, Htx.
  - unfold step at 2 3. simpl.
    destruct (transact e (AddProvider p) s) as [err|s1] eqn:Htx.
    + unfold step; simpl. by rewrite Htx.
    + eapply addProvider_noop, addProvider_commits, Htx.
  - unfold step at 2 3. simpl.
    destruct (transact e (RemoveProvider p) s) as [err|s1] eqn:Htx.
    + unfold step; simpl. by rewrite Htx.
    + eapply removeProvider_noop, removeProvider_commits, Htx.
Qed.

(** C10. A committed transferOwnership writes the owner and logs the
    transfer; every other storage field is as before.  After a deployment
    the deployer is still a provider and a different new owner is not. *)
Theorem transferOwnership_frame (s s' : State) (e : Env) (newOwner : address) :
  transact e (TransferOwnership newOwner) s = inr s' ->
  s' = set_events (events s ++ [OwnershipTransferred (owner s) newOwner])
         (set_owner newOwner s) /\
  owner s' = newOwner /\
  isProvider s' = isProvider s /\
  paused s' = paused s /\
  cooldownSeconds s' = cooldownSeconds s /\
  batches s' = batches s /\
  tips s' = tips s /\
  batchTipCount s' = batchTipCount s /\
  batchTotalEncryptedAmount s' = batchTotalEncryptedAmount s /\
  lastSubmissionTime s' = lastSubmissionTime s /\
  lastDecryptionRequestTime s' = lastDecryptionRequestTime s /\
  decryptionContexts s' = decryptionContexts s /\
  (forall e0, s = constructor e0 ->
     rdb (isProvider s') (msg_sender e0) = true /\
     (newOwner <> msg_sender e0 -> rdb (isProvider s') newOwner = false)).
Proof.
  intros Htx. run_tx Htx. simpl.
  repeat split; try reflexivity.
  - subst s. simpl. apply rdb_insert_eq.
  - subst s. simpl. intros Hne. by rewrite rdb_insert_ne.
Qed.

End AccessControl.

(** ** Cooldown guard *)

Section CooldownGuard.
Context `{fhe : FHEVM}.

(** C7 (as amended).  When the contract is not paused and the addition
    [lastSubmissionTime + cooldownSeconds] fits in a uint256, submitTip
    reverts with CooldownActive exactly when the block time is below that
    sum; the same holds of requestBatchTotalDecryption for a provider and
    the decryption timer.  Both guards read the one [cooldownSeconds]
    that the owner's setCooldownSeconds overwrites, leaving both timers
    untouched. *)
Theorem cooldown_guard (s : State) (e : Env) :
  paused s = false ->
  (forall a m1 m2,
      rd (lastSubmissionTime s) (msg_sender e) + cooldownSeconds s <= UINT256_MAX ->
      (transact e (SubmitTip a m1 m2) s = inl CooldownActive <->
       block_timestamp e < rd (lastSubmissionTime s) (msg_sender e) + cooldownSeconds s)) /\
  (forall b,
      rdb (isProvider s) (msg_sender e) = true ->
      rd (lastDecryptionRequestTime s) (msg_sender e) + cooldownSeconds s <= UINT256_MAX ->
      (transact e (RequestBatchTotalDecryption b) s = inl CooldownActive <->
       block_timestamp e < rd (lastDecryptionRequestTime s) (msg_sender e) + cooldownSeconds s)) /\
  (forall n,
      msg_sender e = owner s ->
      exists s', transact e (SetCooldownSeconds n) s = inr s' /\
                 cooldownSeconds s' = n /\
                 lastSubmissionTime s' = lastSubmissionTime s /\
                 lastDecryptionRequestTime s' = lastDecryptionRequestTime s /\
                 paused s' = paused s /\
                 isProvider s' = isProvider s).
Proof.
  intros Hunp. split; [|split].
  - intros a m1 m2 Hfit. split.
    + intros Htx. run_tx Htx. by apply N.ltb_lt.
    + intros Hlt. unfold_contract; unfold_monad; simpl.
      rewrite Hunp; simpl.
      apply N.ltb_ge in Hfit. rewrite Hfit; simpl.
      apply N.ltb_lt in Hlt. by rewrite Hlt.
  - intros b Hprov Hfit. split.
    + intros Htx. run_tx Htx. by apply N.ltb_lt.
    + intros Hlt. unfold_contract; unfold_monad; simpl.
      rewrite Hprov; simpl. rewrite Hunp; simpl.
      apply N.ltb_ge in Hfit. rewrite Hfit; simpl.
      apply N.ltb_lt in Hlt. by rewrite Hlt.
  - intros n Ho. eexists. unfold_contract; unfold_monad; simpl.
    rewrite Ho, N.eqb_refl. simpl. repeat split.
Qed.

End CooldownGuard.

(** ** Contributions *)

Section TipLedger.
Context `{fhe : FHEVM}.

Lemma submitTip_guards s e a m1 m2 :
  submission_allowed s e ->
  forall n b, length (batches s) = S n -> batches s !! n = Some b ->
  transact e (SubmitTip a m1 m2) s =
    if negb (isOpen b) then inl BatchNotOpen
    else if negb (FHE_isInitialized a) then inl NotInitialized
    else if negb (FHE_isInitialized m1) then inl NotInitialized
    else if negb (FHE_isInitialized m2) then inl NotInitialized
    else transact e (SubmitTip a m1 m2) s.
Proof.
  intros (Hunp & Hcd & Hnow) n b Hlen Hb.
  destruct (isOpen b) eqn:Hopen; simpl.
  - destruct (FHE_isInitialized a) eqn:Ha; simpl;
      [destruct (FHE_isInitialized m1) eqn:Hm1; simpl;
        [destruct (FHE_isInitialized m2) eqn:Hm2; simpl; [done|]|]|].
    all: unfold_contract; unfold_monad; simpl.
    all: rewrite Hunp; simpl.
    all: assert ((UINT256_MAX <? rd (lastSubmissionTime s) (msg_sender e) + cooldownSeconds s)
                 = false) as -> by (apply N.ltb_ge; lia); simpl.
    all: assert ((block_timestamp e <? rd (lastSubmissionTime s) (msg_sender e) + cooldownSeconds s)
                 = false) as -> by (apply N.ltb_ge; lia); simpl.
    all: rewrite Hlen, Hb; simpl; rewrite Hopen; simpl.
    all: rewrite ?Ha, ?Hm1, ?Hm2; simpl; try done.
    all: rewrite ?Ha, ?Hm1, ?Hm2; simpl; try done.
    all: rewrite ?Ha, ?Hm1, ?Hm2; simpl; done.
  - unfold_contract; unfold_monad; simpl.
    rewrite Hunp; simpl.
    assert ((UINT256_MAX <? rd (lastSubmissionTime s) (msg_sender e) + cooldownSeconds s)
            = false) as -> by (apply N.ltb_ge; lia); simpl.
    assert ((block_timestamp e <? rd (lastSubmissionTime s) (msg_sender e) + cooldownSeconds s)
            = false) as -> by (apply N.ltb_ge; lia); simpl.
    rewrite Hlen, Hb; simpl. by rewrite Hopen.
Qed.

(** What a committed submitTip did. *)
Lemma submitTip_commit s e a m1 m2 s' :
  transact e (SubmitTip a m1 m2) s = inr s' ->
  exists n b,
    length (batches s) = S n /\ batches s !! n = Some b /\ isOpen b = true /\
    FHE_isInitialized a = true /\ FHE_isInitialized m1 = true /\
    FHE_isInitialized m2 = true /\
    paused s = false /\
    s' = set_events
           (events s ++ [TipSubmitted (msg_sender e) (id b) (N.of_nat (length (tips s)))])
           (set_lastSubmissionTime
              (<[msg_sender e := block_timestamp e]> (lastSubmissionTime s))
              (set_batchTotalEncryptedAmount
                 (<[id b := if rd (batchTotalEncryptedAmount s) (id b) =? 0 then a
                            else FHE_add (rd (batchTotalEncryptedAmount s) (id b)) a]>
                    (batchTotalEncryptedAmount s))
                 (set_batchTipCount
                    (<[id b := rd (batchTipCount s) (id b) + 1]> (batchTipCount s))
                    (set_tips
                       (tips s ++ [ {| tipper := msg_sender e; encryptedAmount := a;
                                       encryptedMessagePart1 := m1;
                                       encryptedMessagePart2 := m2 |} ])
                       s)))).
Proof.
  intros Htx. run_tx Htx.
  all: eexists _, _; repeat (split; [first [eassumption | reflexivity | by eapply negb_false_iff]|]).
  all: rewrite length_app; simpl.
  all: replace (N.of_nat (length (tips s) + 1) - 1) with (N.of_nat (length (tips s))) by lia.
  all: match goal with H : (rd _ _ =? 0) = _ |- _ => rewrite H end; reflexivity.
Qed.

(** C5. In reachable storage: while the latest batch is closed (the
    sentinel alone included) submitTip never commits, and it reverts with
    BatchNotOpen once the pause and cooldown guards let it through; with
    the latest batch open and one of the three handles uninitialized it
    reverts with NotInitialized; and whatever the error, the storage after
    the call is the storage before it: no tip appended, count, running
    total, submission timer and event log unchanged. *)
Theorem submitTip_all_or_nothing (s : State) (e : Env) (a m1 m2 : euint32) :
  reachable s ->
  (latest_batch_open s = false ->
     (exists err, transact e (SubmitTip a m1 m2) s = inl err) /\
     (submission_allowed s e -> transact e (SubmitTip a m1 m2) s = inl BatchNotOpen)) /\
  (latest_batch_open s = true -> submission_allowed s e ->
     FHE_isInitialized a && FHE_isInitialized m1 && FHE_isInitialized m2 = false ->
     transact e (SubmitTip a m1 m2) s = inl NotInitialized) /\
  (forall err, transact e (SubmitTip a m1 m2) s = inl err ->
     let s' := step s (e, SubmitTip a m1 m2) in
     s' = s /\ tips s' = tips s /\
     batchTipCount s' = batchTipCount s /\
     batchTotalEncryptedAmount s' = batchTotalEncryptedAmount s /\
     lastSubmissionTime s' = lastSubmissionTime s /\
     events s' = events s).
Proof.
  intros Hs. pose proof (reachable_wf s Hs) as Hwf.
  destruct (last_batch_exists s Hwf) as (n & b & Hlen & Hb).
  assert (last (batches s) = Some b) as Hl.
  { rewrite last_lookup, Hlen. exact Hb. }
  unfold latest_batch_open. rewrite Hl.
  split; [|split].
  - intros Hopen. split.
    + destruct (transact e (SubmitTip a m1 m2) s) as [err|s'] eqn:Htx; [by exists err|].
      apply submitTip_commit in Htx as (n' & b' & Hlen' & Hb' & Hopen' & _).
      congruence.
    + intros Hok. rewrite (submitTip_guards s e a m1 m2 Hok n b Hlen Hb).
      by rewrite Hopen.
  - intros Hopen Hok Huninit.
    rewrite (submitTip_guards s e a m1 m2 Hok n b Hlen Hb), Hopen. simpl.
    destruct (FHE_isInitialized a); simpl; [|done].
    destruct (FHE_isInitialized m1); simpl; [|done].
    destruct (FHE_isInitialized m2); simpl; [discriminate|done].
  - intros err Htx. unfold step. simpl. by rewrite Htx.
Qed.

End TipLedger.

(** ** Decryption requests *)

Section DecryptionRequest.
Context `{fhe : FHEVM}.

(** What a committed request did. *)
Lemma request_commit s e b s' :
  transact e (RequestBatchTotalDecryption b) s = inr s' ->
  exists bt,
    b <> 0 /\ batches s !! N.to_nat b = Some bt /\ isOpen bt = false /\
    FHE_isInitialized (rd (batchTotalEncryptedAmount s) b) = true /\
    rdb (isProvider s) (msg_sender e) = true /\ paused s = false /\
    s' = set_events
           (events s ++ [DecryptionRequested (oracle_requestId e) b
                           (_hashCiphertexts [rd (batchTotalEncryptedAmount s) b])])
           (set_lastDecryptionRequestTime
              (<[msg_sender e := block_timestamp e]> (lastDecryptionRequestTime s))
              (set_decryptionContexts
                 (<[oracle_requestId e :=
                      {| batchId := b;
                         stateHash := _hashCiphertexts [rd (batchTotalEncryptedAmount s) b];
                         processed := false |}]> (decryptionContexts s))
                 s)).
Proof.
  intros Htx. run_tx Htx.
  match goal with Hor : (_ || _) = false |- _ =>
    apply orb_false_iff in Hor as [_ Hb0] end.
  apply N.eqb_neq in Hb0.
  eexists. repeat (split; [first [eassumption | reflexivity | by eapply negb_false_iff]|]).
  reflexivity.
Qed.

(** The body of requestBatchTotalDecryption once the guards are passed. *)
Lemma request_guards s e b :
  request_allowed s e ->
  transact e (RequestBatchTotalDecryption b) s =
    if (N.of_nat (length (batches s)) <=? b) || (b =? 0) then inl InvalidBatch
    else match batches s !! N.to_nat b with
         | None => inl (Panic 50)
         | Some bt =>
             if isOpen bt then inl BatchOpen
             else if negb (FHE_isInitialized (rd (batchTotalEncryptedAmount s) b))
                  then inl NotInitialized
                  else transact e (RequestBatchTotalDecryption b) s
         end.
Proof.
  intros (Hprov & Hunp & Hcd & Hnow).
  assert (forall r,
    transact e (RequestBatchTotalDecryption b) s = r ->
    transact e (RequestBatchTotalDecryption b) s =
    if (N.of_nat (length (batches s)) <=? b) || (b =? 0) then inl InvalidBatch
    else match batches s !! N.to_nat b with
         | None => inl (Panic 50)
         | Some bt =>
             if isOpen bt then inl BatchOpen
             else if negb (FHE_isInitialized (rd (batchTotalEncryptedAmount s) b))
                  then inl NotInitialized
                  else r
         end) as Hgen; [|by apply Hgen].
  intros r <-.
  unfold_contract; unfold_monad; simpl.
  rewrite Hprov; simpl. rewrite Hunp; simpl.
  assert ((UINT256_MAX <? rd (lastDecryptionRequestTime s) (msg_sender e) + cooldownSeconds s)
          = false) as -> by (apply N.ltb_ge; lia); simpl.
  assert ((block_timestamp e <? rd (lastDecryptionRequestTime s) (msg_sender e) + cooldownSeconds s)
          = false) as -> by (apply N.ltb_ge; lia); simpl.
  destruct ((N.of_nat (length (batches s)) <=? b) || (b =? 0)); simpl; [done|].
  destruct (batches s !! N.to_nat b) as [bt|]; simpl; [|done].
  destruct (isOpen bt); simpl; [done|].
  destruct (FHE_isInitialized (rd (batchTotalEncryptedAmount s) b)); simpl; done.
Qed.

(** Past the guards, a closed batch with an initialized total is accepted. *)
Lemma request_commits s e b bt :
  request_allowed s e ->
  b <> 0 -> batches s !! N.to_nat b = Some bt -> isOpen bt = false ->
  FHE_isInitialized (rd (batchTotalEncryptedAmount s) b) = true ->
  exists s', transact e (RequestBatchTotalDecryption b) s = inr s'.
Proof.
  intros (Hprov & Hunp & Hcd & Hnow) Hb0 Hbt Hclosed Hinit.
  unfold_contract; unfold_monad; simpl.
  rewrite Hprov; simpl. rewrite Hunp; simpl.
  assert ((UINT256_MAX <? rd (lastDecryptionRequestTime s) (msg_sender e) + cooldownSeconds s)
          = false) as -> by (apply N.ltb_ge; lia); simpl.
  assert ((block_timestamp e <? rd (lastDecryptionRequestTime s) (msg_sender e) + cooldownSeconds s)
          = false) as -> by (apply N.ltb_ge; lia); simpl.
  assert ((N.of_nat (length (batches s)) <=? b) || (b =? 0) = false) as ->.
  { apply orb_false_iff. split; [|by apply N.eqb_neq].
    apply N.leb_gt. apply lookup_lt_Some in Hbt. lia. }
  simpl. rewrite Hbt; simpl. rewrite Hclosed; simpl. rewrite Hinit; simpl.
  by eexists.
Qed.

(** C6. In reachable storage requestBatchTotalDecryption never commits
    for batch 0, for an id beyond the registry, for an open batch, or for
    a batch without contributions; past the provider, pause and cooldown
    guards the errors are InvalidBatch, BatchOpen and NotInitialized
    respectively.  Past the guards a closed batch with an initialized
    total is accepted, and a committed request stored
    [{batchId, stateHash, processed := false}] under the oracle's request
    id, set the caller's decryption timer to the block time, and logged
    DecryptionRequested. *)
Theorem request_decryption_contract (s : State) (e : Env) (b : uint256) :
  reachable s ->
  zero_handle_uninitialized ->
  ((b = 0 \/ N.of_nat (length (batches s)) <= b) ->
     (exists err, transact e (RequestBatchTotalDecryption b) s = inl err) /\
     (request_allowed s e ->
        transact e (RequestBatchTotalDecryption b) s = inl InvalidBatch)) /\
  (forall bt, b <> 0 -> batches s !! N.to_nat b = Some bt -> isOpen bt = true ->
     (exists err, transact e (RequestBatchTotalDecryption b) s = inl err) /\
     (request_allowed s e ->
        transact e (RequestBatchTotalDecryption b) s = inl BatchOpen)) /\
  (forall bt, b <> 0 -> batches s !! N.to_nat b = Some bt -> isOpen bt = false ->
     rd (batchTipCount s) b = 0 ->
     FHE_isInitialized (rd (batchTotalEncryptedAmount s) b) = false /\
     (exists err, transact e (RequestBatchTotalDecryption b) s = inl err) /\
     (request_allowed s e ->
        transact e (RequestBatchTotalDecryption b) s = inl NotInitialized)) /\
  (forall bt, b <> 0 -> batches s !! N.to_nat b = Some bt -> isOpen bt = false ->
     FHE_isInitialized (rd (batchTotalEncryptedAmount s) b) = true ->
     request_allowed s e ->
     exists s', transact e (RequestBatchTotalDecryption b) s = inr s') /\
  (forall s', transact e (RequestBatchTotalDecryption b) s = inr s' ->
     decryptionContexts s' =
       <[oracle_requestId e :=
           {| batchId := b;
              stateHash := _hashCiphertexts [rd (batchTotalEncryptedAmount s) b];
              processed := false |}]> (decryptionContexts s) /\
     lastDecryptionRequestTime s' =
       <[msg_sender e := block_timestamp e]> (lastDecryptionRequestTime s) /\
     events s' = events s ++
       [DecryptionRequested (oracle_requestId e) b
          (_hashCiphertexts [rd (batchTotalEncryptedAmount s) b])] /\
     batches s' = batches s /\ tips s' = tips s /\
     batchTipCount s' = batchTipCount s /\
     batchTotalEncryptedAmount s' = batchTotalEncryptedAmount s).
Proof.
  intros Hs Hzero. pose proof (reachable_wf s Hs) as Hwf.
  split; [|split; [|split; [|split]]].
  - intros Hbad. split.
    + destruct (transact e (RequestBatchTotalDecryption b) s) as [err|s'] eqn:Htx;
        [by exists err|].
      apply request_commit in Htx as (bt & Hb0 & Hbt & _).
      apply lookup_lt_Some in Hbt. lia.
    + intros Hok. rewrite (request_guards s e b Hok).
      assert ((N.of_nat (length (batches s)) <=? b) || (b =? 0) = true) as ->; [|done].
      apply orb_true_iff. destruct Hbad as [->|Hge]; [by right|].
      left. by apply N.leb_le.
  - intros bt Hb0 Hbt Hopen. split.
    + destruct (transact e (RequestBatchTotalDecryption b) s) as [err|s'] eqn:Htx;
        [by exists err|].
      apply request_commit in Htx as (bt' & _ & Hbt' & Hclosed & _). congruence.
    + intros Hok. rewrite (request_guards s e b Hok).
      assert ((N.of_nat (length (batches s)) <=? b) || (b =? 0) = false) as ->.
      { apply orb_false_iff. split; [|by apply N.eqb_neq].
        apply N.leb_gt. apply lookup_lt_Some in Hbt. lia. }
      by rewrite Hbt, Hopen.
  - intros bt Hb0 Hbt Hclosed Hcount.
    assert (FHE_isInitialized (rd (batchTotalEncryptedAmount s) b) = false) as Huninit.
    { rewrite (wf_total0 s Hwf b Hcount). exact Hzero. }
    split; [done|]. split.
    + destruct (transact e (RequestBatchTotalDecryption b) s) as [err|s'] eqn:Htx;
        [by exists err|].
      apply request_commit in Htx as (bt' & _ & _ & _ & Hinit & _). congruence.
    + intros Hok. rewrite (request_guards s e b Hok).
      assert ((N.of_nat (length (batches s)) <=? b) || (b =? 0) = false) as ->.
      { apply orb_false_iff. split; [|by apply N.eqb_neq].
        apply N.leb_gt. apply lookup_lt_Some in Hbt. lia. }
      by rewrite Hbt, Hclosed, Huninit.
  - intros bt Hb0 Hbt Hclosed Hinit Hok. by eapply request_commits.
  - intros s' Htx.
    apply request_commit in Htx as (bt & _ & _ & _ & _ & _ & _ & ->).
    simpl. repeat split.
Qed.

End DecryptionRequest.

(** ** Decryption callback *)

Section DecryptionCallback.
Context `{fhe : FHEVM}.

Lemma callback_replay s e rid ct pf :
  processed (rdctx (decryptionContexts s) rid) = true ->
  transact e (MyCallback rid ct pf) s = inl ReplayAttempt.
Proof.
  intros Hp. unfold_contract; unfold_monad; simpl. by rewrite Hp.
Qed.

(** What a committed callback found and did. *)
Lemma callback_commit s e rid ct pf s' :
  transact e (MyCallback rid ct pf) s = inr s' ->
  let ctx := rdctx (decryptionContexts s) rid in
  exists bt total,
    processed ctx = false /\
    batches s !! N.to_nat (batchId ctx) = Some bt /\
    FHE_isInitialized (rd (batchTotalEncryptedAmount s) (batchId ctx)) = true /\
    _hashCiphertexts [rd (batchTotalEncryptedAmount s) (batchId ctx)] = stateHash ctx /\
    FHE_checkSignatures rid ct pf = true /\
    s' = set_events (events s ++ [DecryptionCompleted rid (batchId ctx) total])
           (set_decryptionContexts
              (<[rid := {| batchId := batchId ctx; stateHash := stateHash ctx;
                           processed := true |}]> (decryptionContexts s)) s).
Proof.
  intros Htx ctx. run_tx Htx. subst ctx.
  eexists _, _. repeat (split; [first [eassumption | by eapply negb_false_iff]|]).
  split; [|split; [by eapply negb_false_iff|reflexivity]].
  match goal with Hh : negb (_ =? _) = false |- _ =>
    apply negb_false_iff, N.eqb_eq in Hh; exact Hh end.
Qed.

Lemma completions_snoc rid evs ev :
  completions rid (evs ++ [ev]) =
  (completions rid evs + if is_completion rid ev then 1 else 0)%nat.
Proof.
  unfold completions. rewrite filter_app, length_app. f_equal.
  rewrite filter_cons, filter_nil. by destruct (is_completion rid ev).
Qed.

(** A transaction that is neither a request under [rid] nor a callback for
    [rid] leaves the context of [rid] and its completions alone. *)
Lemma context_frame s e c s' rid :
  transact e c s = inr s' ->
  reissues rid (e, c) = false ->
  (forall ct pf, c <> MyCallback rid ct pf) ->
  rdctx (decryptionContexts s') rid = rdctx (decryptionContexts s) rid /\
  completions rid (events s') = completions rid (events s).
Proof.
  intros Htx Hfresh Hcb. destruct c.
  1-9: run_tx Htx; (split; [reflexivity|]); simpl;
    rewrite ?completions_snoc; simpl; lia.
  - apply request_commit in Htx as (bt & _ & _ & _ & _ & _ & _ & ->).
    unfold reissues in Hfresh. simpl in Hfresh. apply N.eqb_neq in Hfresh.
    split; [simpl; by rewrite rdctx_insert_ne|].
    simpl. rewrite completions_snoc. simpl. lia.
  - destruct (decide (requestId = rid)) as [->|Hne]; [by destruct (Hcb cleartexts proof)|].
    apply callback_commit in Htx as (bt & total & _ & _ & _ & _ & _ & ->).
    split; [simpl; by rewrite rdctx_insert_ne|].
    simpl. rewrite completions_snoc. simpl.
    apply N.eqb_neq in Hne. rewrite Hne. lia.
Qed.

Lemma classic_callback (c : Call) (rid : uint256) :
  (exists ct pf, c = MyCallback rid ct pf) \/ (forall ct pf, c <> MyCallback rid ct pf).
Proof.
  destruct c; try (right; discriminate).
  destruct (decide (requestId = rid)) as [->|Hne]; [left; eauto|].
  right. congruence.
Qed.

(** One step of a trace in which the oracle does not hand out [rid] again:
    a fulfilled context stays fulfilled and gains no completion; a pending
    one gains at most one, and then it is fulfilled. *)
Lemma completion_step s ec rid :
  reissues rid ec = false ->
  let s' := step s ec in
  (processed (rdctx (decryptionContexts s) rid) = true ->
     processed (rdctx (decryptionContexts s') rid) = true /\
     completions rid (events s') = completions rid (events s)) /\
  (processed (rdctx (decryptionContexts s) rid) = false ->
     (processed (rdctx (decryptionContexts s') rid) = false /\
      completions rid (events s') = completions rid (events s)) \/
     (processed (rdctx (decryptionContexts s') rid) = true /\
      completions rid (events s') = S (completions rid (events s)))).
Proof.
  destruct ec as [e c]. intros Hfresh. unfold step. simpl.
  destruct (transact e c s) as [err|s'] eqn:Htx; [split; [done|by left]|].
  destruct (classic_callback c rid) as [(ct & pf & ->)|Hother].
  - apply callback_commit in Htx as (bt & total & Hpending & _ & _ & _ & _ & ->).
    split; [congruence|]. intros _. right. split.
    + simpl. by rewrite rdctx_insert_eq.
    + simpl. rewrite completions_snoc. simpl. rewrite N.eqb_refl. lia.
  - destruct (context_frame s e c s' rid Htx Hfresh Hother) as [-> ->].
    split; [done|by left].
Qed.

Lemma fulfilled_run s rid tr :
  forallb (fun ec => negb (reissues rid ec)) tr = true ->
  processed (rdctx (decryptionContexts s) rid) = true ->
  processed (rdctx (decryptionContexts (run tr s)) rid) = true /\
  completions rid (events (run tr s)) = completions rid (events s).
Proof.
  revert s. induction tr as [|ec tr IH]; intros s Hfresh Hp; [done|].
  simpl in Hfresh. apply andb_true_iff in Hfresh as [Hec Htr].
  apply negb_true_iff in Hec.
  destruct (completion_step s ec rid Hec) as [Hstay _].
  destruct (Hstay Hp) as [Hp' Hc'].
  simpl. destruct (IH (step s ec) Htr Hp') as [Hp'' Hc''].
  split; [done|congruence].
Qed.

Lemma pending_run s rid tr :
  forallb (fun ec => negb (reissues rid ec)) tr = true ->
  (completions rid (events (run tr s)) <= S (completions rid (events s)))%nat.
Proof.
  revert s. induction tr as [|ec tr IH]; intros s Hfresh; [simpl; lia|].
  simpl in Hfresh. apply andb_true_iff in Hfresh as [Hec Htr].
  apply negb_true_iff in Hec.
  destruct (completion_step s ec rid Hec) as [Hstay Hpend]. simpl.
  destruct (processed (rdctx (decryptionContexts s) rid)) eqn:Hp.
  - destruct (Hstay eq_refl) as [Hp' Hc'].
    destruct (fulfilled_run (step s ec) rid tr Htr Hp') as [_ Hc'']. lia.
  - destruct (Hpend eq_refl) as [[Hp' Hc']|[Hp' Hc']].
    + specialize (IH (step s ec) Htr). lia.
    + destruct (fulfilled_run (step s ec) rid tr Htr Hp') as [_ Hc'']. lia.
Qed.

(** C2. Once the context of [rid] is processed, every later callback for
    [rid] reverts with ReplayAttempt whatever cleartext and proof it
    brings, after any transactions in which the oracle hands out other
    request ids; the context stays processed, the log gains no further
    DecryptionCompleted for [rid], and from any storage a trace adds at
    most one such event. *)
Theorem exactly_once_decryption (s : State) (rid : uint256) (tr : list (Env * Call)) :
  forallb (fun ec => negb (reissues rid ec)) tr = true ->
  (processed (rdctx (decryptionContexts s) rid) = true ->
     processed (rdctx (decryptionContexts (run tr s)) rid) = true /\
     completions rid (events (run tr s)) = completions rid (events s) /\
     (forall e ct pf, transact e (MyCallback rid ct pf) (run tr s) = inl ReplayAttempt)) /\
  (completions rid (events (run tr s)) <= S (completions rid (events s)))%nat.
Proof.
  intros Hfresh. split.
  - intros Hp. destruct (fulfilled_run s rid tr Hfresh Hp) as [Hp' Hc'].
    repeat split; try done.
    intros e ct pf. by apply callback_replay.
  - by apply pending_run.
Qed.

(** C3 (as amended).  For a pending context whose batch exists, a
    fingerprint of the current running total that differs from the stored
    one makes the callback revert, whatever the cleartext and the proof and
    whether or not the proof would verify: with StateMismatch when the
    current running total is an initialized handle, with NotInitialized
    when it is not. *)
Theorem fingerprint_binding (s : State) (e : Env) (rid : uint256) (ct pf : bytes) (bt : Batch) :
  let ctx := rdctx (decryptionContexts s) rid in
  let total := rd (batchTotalEncryptedAmount s) (batchId ctx) in
  processed ctx = false ->
  batches s !! N.to_nat (batchId ctx) = Some bt ->
  _hashCiphertexts [total] <> stateHash ctx ->
  transact e (MyCallback rid ct pf) s =
    inl (if FHE_isInitialized total then StateMismatch else NotInitialized).
Proof.
  intros ctx total Hpending Hbt Hdiff. subst ctx total.
  unfold_contract; unfold_monad; simpl.
  rewrite Hpending; simpl. rewrite Hbt; simpl.
  destruct (FHE_isInitialized _); simpl; [|done].
  apply N.eqb_neq in Hdiff. unfold _hashCiphertexts in Hdiff. by rewrite Hdiff.
Qed.

End DecryptionCallback.

(** ** Callbacks for request ids the contract never issued *)

Section UnissuedRequests.
Context `{fhe : FHEVM}.

Lemma requested_snoc rid evs ev : requested rid evs -> requested rid (evs ++ [ev]).
Proof. intros (b & h & Hin). exists b, h. apply elem_of_app. by left. Qed.

Lemma contexts_wf_snoc s ev :
  contexts_wf s ->
  (forall rid b t, ev <> DecryptionCompleted rid b t) ->
  forall s', decryptionContexts s' = decryptionContexts s ->
             events s' = events s ++ [ev] ->
             contexts_wf s'.
Proof.
  intros [Hst Hco] Hev s' Hctx Hevs. split; rewrite Hevs.
  - intros rid Hsome. rewrite Hctx in Hsome. by apply requested_snoc, Hst.
  - intros rid b t Hin. apply elem_of_app in Hin as [Hin|Hin].
    + by eapply requested_snoc, Hco.
    + apply list_elem_of_singleton in Hin. by destruct (Hev rid b t).
Qed.

(** With the sentinel's running total never written, a callback for a
    request id without a stored context stops at the initialization
    check. *)
Lemma callback_default_context s e rid ct pf :
  batches_wf s -> zero_handle_uninitialized ->
  decryptionContexts s !! rid = None ->
  transact e (MyCallback rid ct pf) s = inl NotInitialized.
Proof.
  intros Hwf Hzero Hnone.
  destruct (wf_sentinel s Hwf) as (b0 & Hb0 & _).
  unfold_contract; unfold_monad; simpl.
  unfold rdctx. rewrite Hnone. simpl.
  change (batches s !! N.to_nat 0 = Some b0) in Hb0. rewrite Hb0. simpl.
  rewrite (wf_total0 s Hwf 0 (wf_count0 s Hwf)). by rewrite Hzero.
Qed.

Lemma contexts_wf_constructor e0 : contexts_wf (constructor e0).
Proof.
  split; simpl.
  - intros rid [x Hx]. by rewrite lookup_empty in Hx.
  - intros rid b t Hin. by apply elem_of_nil in Hin.
Qed.

Lemma contexts_wf_step s e c s' :
  zero_handle_uninitialized ->
  batches_wf s -> contexts_wf s -> transact e c s = inr s' -> contexts_wf s'.
Proof.
  intros Hzero Hwf Hcw Htx. destruct c.
  1-9: run_tx Htx; try exact Hcw;
    (eapply contexts_wf_snoc; [exact Hcw | | reflexivity | reflexivity];
     intros ? ? ?; discriminate).
  - apply request_commit in Htx as (bt & _ & _ & _ & _ & _ & _ & ->).
    destruct Hcw as [Hst Hco]. split; simpl.
    + intros rid Hsome. destruct (decide (oracle_requestId e = rid)) as [<-|Hne].
      * eexists _, _. apply elem_of_app. right. apply list_elem_of_singleton. reflexivity.
      * rewrite lookup_insert_ne in Hsome by done. by apply requested_snoc, Hst.
    + intros rid b t Hin. apply elem_of_app in Hin as [Hin|Hin].
      * by eapply requested_snoc, Hco.
      * apply list_elem_of_singleton in Hin. discriminate.
  - destruct (decryptionContexts s !! requestId) as [ctx|] eqn:Hctx.
    + assert (requested requestId (events s)) as Hreq.
      { apply (cw_stored s Hcw). by rewrite Hctx. }
      apply callback_commit in Htx as (bt & total & _ & _ & _ & _ & _ & ->).
      destruct Hcw as [Hst Hco]. split; simpl.
      * intros rid Hsome. apply requested_snoc.
        destruct (decide (requestId = rid)) as [<-|Hne]; [done|].
        rewrite lookup_insert_ne in Hsome by done. by apply Hst.
      * intros rid b t Hin. apply requested_snoc.
        apply elem_of_app in Hin as [Hin|Hin]; [by eapply Hco|].
        apply list_elem_of_singleton in Hin. by injection Hin as <- _ _.
    + rewrite (callback_default_context s e requestId cleartexts proof Hwf Hzero Hctx) in Htx.
      discriminate.
Qed.

Lemma reachable_contexts_wf s :
  zero_handle_uninitialized -> reachable s -> contexts_wf s.
Proof.
  intros Hzero Hs.
  assert (batches_wf s /\ contexts_wf s) as [_ Hcw]; [|exact Hcw].
  revert s Hs. apply reachable_ind.
  - intros e0. split; [apply batches_wf_constructor | apply contexts_wf_constructor].
  - intros s e c s' [Hwf Hcw] Htx. split.
    + by eapply batches_wf_step.
    + by eapply contexts_wf_step.
Qed.

(** C9. In reachable storage, a request id under which no decryption
    request was ever logged has no stored context; a callback for it
    reverts with NotInitialized whatever it carries, because the default
    context names the sentinel batch, whose running total was never
    written; and the log holds no DecryptionCompleted for it. *)
Theorem unissued_callback_reverts (s : State) (rid : uint256) :
  reachable s ->
  zero_handle_uninitialized ->
  (forall b h, DecryptionRequested rid b h ∉ events s) ->
  decryptionContexts s !! rid = None /\
  rdctx (decryptionContexts s) rid = ctx_default /\
  rd (batchTotalEncryptedAmount s) 0 = 0 /\
  (forall e ct pf, transact e (MyCallback rid ct pf) s = inl NotInitialized) /\
  (forall e ct pf, step s (e, MyCallback rid ct pf) = s) /\
  (forall b t, DecryptionCompleted rid b t ∉ events s) /\
  completions rid (events s) = 0%nat.
Proof.
  intros Hs Hzero Hnever.
  pose proof (reachable_wf s Hs) as Hwf.
  pose proof (reachable_contexts_wf s Hzero Hs) as Hcw.
  assert (decryptionContexts s !! rid = None) as Hnone.
  { destruct (decryptionContexts s !! rid) as [ctx|] eqn:Hctx; [|done].
    destruct (cw_stored s Hcw rid) as (b & h & Hin); [by rewrite Hctx|].
    by destruct (Hnever b h). }
  assert (forall b t, DecryptionCompleted rid b t ∉ events s) as Hnc.
  { intros b t Hin. destruct (cw_completed s Hcw rid b t Hin) as (b' & h & Hin').
    by destruct (Hnever b' h). }
  repeat split; try done.
  - unfold rdctx. by rewrite Hnone.
  - apply (wf_total0 s Hwf 0 (wf_count0 s Hwf)).
  - intros e ct pf. by apply callback_default_context.
  - intros e ct pf. unfold step. simpl.
    by rewrite (callback_default_context s e rid ct pf Hwf Hzero Hnone).
  - unfold completions. apply length_zero_iff_nil.
    destruct (filter _ (events s)) as [|ev evs] eqn:Hf; [done|].
    assert (ev ∈ filter (fun ev => is_completion rid ev = true) (events s)) as Hin.
    { rewrite Hf. apply list_elem_of_here. }
    apply list_elem_of_filter in Hin as [Hc Hin].
    destruct ev; simpl in Hc; try discriminate.
    apply N.eqb_eq in Hc as ->. by destruct (Hnc batchId0 totalAmount).
Qed.

End UnissuedRequests.

(** ** The running total of a batch *)

Section HomomorphicAccumulator.
Context `{fhe : FHEVM}.

Lemma hfold_snoc l a : l <> [] -> hfold (l ++ [a]) = FHE_add (hfold l) a.
Proof.
  destruct l as [|x l]; [done|]. intros _. simpl. by rewrite fold_left_app.
Qed.

Lemma hfold_initialized l :
  add_initialized ->
  Forall (fun h => FHE_isInitialized h = true) l -> l <> [] ->
  FHE_isInitialized (hfold l) = true.
Proof.
  intros Hadd. induction l as [|a l IH] using rev_ind; [done|].
  intros Hall _. apply Forall_app in Hall as [Hl Ha].
  rewrite Forall_singleton in Ha.
  destruct l as [|x l]; [exact Ha|].
  rewrite hfold_snoc by done. apply Hadd; [|done]. by apply IH.
Qed.

Lemma plain_sum_snoc dec l a : plain_sum dec (l ++ [a]) = plain_sum dec l + dec a.
Proof.
  unfold plain_sum. induction l as [|x l IH]; simpl; [lia|]. rewrite IH. lia.
Qed.

Lemma plain_sum_perm dec l1 l2 : l1 ≡ₚ l2 -> plain_sum dec l1 = plain_sum dec l2.
Proof.
  unfold plain_sum. induction 1; simpl; lia.
Qed.

(** Decrypting the fold gives the plaintext sum, as a 32-bit number. *)
Lemma dec_hfold dec l :
  add_initialized -> decrypts dec ->
  Forall (fun h => FHE_isInitialized h = true) l -> l <> [] ->
  dec (hfold l) = plain_sum dec l mod UINT32_MOD.
Proof.
  intros Hadd [Hrange Hdec]. induction l as [|a l IH] using rev_ind; [done|].
  intros Hall _. apply Forall_app in Hall as [Hl Ha].
  pose proof Ha as Ha'. rewrite Forall_singleton in Ha'.
  destruct l as [|x l].
  - simpl. unfold plain_sum. simpl. rewrite N.add_0_r.
    symmetry. apply N.mod_small, Hrange.
  - rewrite hfold_snoc by done. rewrite plain_sum_snoc.
    rewrite Hdec; [|by apply hfold_initialized|done].
    rewrite IH by done. by rewrite N.Div0.add_mod_idemp_l.
Qed.

Lemma amounts_snoc tps evs ev b :
  flat_map (contribution tps b) (evs ++ [ev]) =
  flat_map (contribution tps b) evs ++ contribution tps b ev.
Proof. rewrite flat_map_app. simpl. by rewrite app_nil_r. Qed.

(** Appending a tip does not disturb the amounts of logged events. *)
Lemma amounts_push tps t evs b :
  (forall tp b' i, TipSubmitted tp b' i ∈ evs -> (N.to_nat i < length tps)%nat) ->
  flat_map (contribution (tps ++ [t]) b) evs = flat_map (contribution tps b) evs.
Proof.
  induction evs as [|ev evs IH]; intros Hidx; [done|].
  simpl. rewrite IH.
  - f_equal. destruct ev; try done. simpl.
    destruct (batchId0 =? b); [|done].
    rewrite lookup_app_l; [done|]. eapply Hidx. apply list_elem_of_here.
  - intros tp b' i Hin. eapply Hidx. apply list_elem_of_further, Hin.
Qed.

Lemma logged_push tps t evs :
  (forall tp b' i, TipSubmitted tp b' i ∈ evs -> (N.to_nat i < length tps)%nat) ->
  flat_map (logged_tip (tps ++ [t])) evs = flat_map (logged_tip tps) evs.
Proof.
  induction evs as [|ev evs IH]; intros Hidx; [done|].
  simpl. rewrite IH.
  - f_equal. destruct ev; try done. simpl.
    rewrite lookup_app_l; [done|]. eapply Hidx. apply list_elem_of_here.
  - intros tp b' i Hin. eapply Hidx. apply list_elem_of_further, Hin.
Qed.

Lemma logged_no_tips tps evs :
  Forall (fun ev => forall t b i, ev <> TipSubmitted t b i) evs ->
  flat_map (logged_tip tps) evs = [].
Proof.
  induction 1 as [|ev evs Hev _ IH]; [done|].
  simpl. rewrite IH, app_nil_r. destruct ev; simpl; try done.
  by destruct (Hev tipper0 batchId0 tipIndex).
Qed.

Lemma amounts_no_tips tps b evs :
  Forall (fun ev => forall t b i, ev <> TipSubmitted t b i) evs ->
  flat_map (contribution tps b) evs = [].
Proof.
  induction 1 as [|ev evs Hev _ IH]; [done|].
  simpl. rewrite IH, app_nil_r. destruct ev; simpl; try done.
  by destruct (Hev tipper0 batchId0 tipIndex).
Qed.

Lemma ledger_wf_constructor e0 : ledger_wf (constructor e0).
Proof.
  split; simpl; try done.
  intros t b i Hin. by apply elem_of_nil in Hin.
Qed.

(** Transactions that touch neither the ledger nor the aggregates and log
    no tip. *)
Lemma ledger_wf_frame s s' evs :
  ledger_wf s ->
  tips s' = tips s ->
  batchTotalEncryptedAmount s' = batchTotalEncryptedAmount s ->
  batchTipCount s' = batchTipCount s ->
  events s' = events s ++ evs ->
  Forall (fun ev => forall t b i, ev <> TipSubmitted t b i) evs ->
  ledger_wf s'.
Proof.
  intros [Hidx Hled Hinit Htot Hcnt] Htips Htotal Hcount Hevs Hnotip.
  assert (forall b, amounts_of_batch s' b = amounts_of_batch s b) as Hsame.
  { intros b. unfold amounts_of_batch. rewrite Htips, Hevs, flat_map_app.
    by rewrite (amounts_no_tips _ _ evs Hnotip), app_nil_r. }
  split.
  - intros t b i Hin. rewrite Htips. rewrite Hevs in Hin.
    apply elem_of_app in Hin as [Hin|Hin]; [by eapply Hidx|].
    rewrite Forall_forall in Hnotip. by destruct (Hnotip _ Hin t b i).
  - rewrite Htips, Hevs, flat_map_app.
    by rewrite (logged_no_tips _ evs Hnotip), app_nil_r.
  - intros b. rewrite Hsame. apply Hinit.
  - intros b. rewrite Hsame, Htotal. apply Htot.
  - intros b. rewrite Hsame, Hcount. apply Hcnt.
Qed.

Lemma ledger_wf_step s e c s' :
  zero_handle_uninitialized -> add_initialized ->
  ledger_wf s -> transact e c s = inr s' -> ledger_wf s'.
Proof.
  intros Hzero Hadd Hlw Htx. destruct c.
  1-8: run_tx Htx; try exact Hlw;
    (eapply ledger_wf_frame; [exact Hlw | reflexivity.. | ];
     apply Forall_singleton; intros ? ? ?; discriminate).
  - (* submitTip *)
    apply submitTip_commit in Htx
      as (n & bt & Hlen & Hbt & Hopen & Ha & Hm1 & Hm2 & _ & ->).
    destruct Hlw as [Hidx Hled Hinit Htot Hcnt].
    set (t := {| tipper := msg_sender e; encryptedAmount := encryptedAmount0;
                 encryptedMessagePart1 := encryptedMessagePart3;
                 encryptedMessagePart2 := encryptedMessagePart4 |}).
    assert (forall b, amounts_of_batch
              (set_events (events s ++ [TipSubmitted (msg_sender e) (id bt)
                                          (N.of_nat (length (tips s)))])
                 (set_tips (tips s ++ [t]) s)) b =
            amounts_of_batch s b ++ (if id bt =? b then [encryptedAmount0] else []))
      as Hamounts.
    { intros b. unfold amounts_of_batch. simpl.
      rewrite amounts_snoc, amounts_push by exact Hidx. f_equal.
      simpl. destruct (id bt =? b); [|done].
      rewrite Nat2N.id, lookup_app_r by lia.
      by rewrite Nat.sub_diag. }
    split.
    + simpl. intros tp b i Hin. rewrite length_app. simpl.
      apply elem_of_app in Hin as [Hin|Hin].
      * specialize (Hidx _ _ _ Hin). lia.
      * apply list_elem_of_singleton in Hin. injection Hin as _ _ ->.
        rewrite Nat2N.id. lia.
    + simpl. rewrite flat_map_app, logged_push by exact Hidx. rewrite Hled.
      f_equal. simpl. rewrite Nat2N.id, lookup_app_r by lia.
      by rewrite Nat.sub_diag.
    + intros b. unfold amounts_of_batch in *. simpl. simpl in Hamounts.
      rewrite Hamounts. apply Forall_app. split; [apply Hinit|].
      destruct (id bt =? b); [|done]. by apply Forall_singleton.
    + intros b. unfold amounts_of_batch in *. simpl. simpl in Hamounts.
      rewrite Hamounts.
      destruct (N.eqb_spec (id bt) b) as [<-|Hne].
      * rewrite rd_insert_eq. rewrite Htot.
        destruct (flat_map (contribution (tips s) (id bt)) (events s)) as [|x l] eqn:Hl.
        { reflexivity. }
        assert (FHE_isInitialized (hfold (x :: l)) = true) as Hx.
        { apply hfold_initialized; [done| |done]. rewrite <- Hl. apply Hinit. }
        assert ((hfold (x :: l) =? 0) = false) as ->.
        { apply N.eqb_neq. intros H0. rewrite H0 in Hx.
          unfold zero_handle_uninitialized in Hzero. congruence. }
        by rewrite hfold_snoc.
      * rewrite rd_insert_ne by done. rewrite app_nil_r. apply Htot.
    + intros b. unfold amounts_of_batch in *. simpl. simpl in Hamounts.
      rewrite Hamounts, length_app.
      destruct (N.eqb_spec (id bt) b) as [<-|Hne].
      * rewrite rd_insert_eq, Hcnt. simpl. lia.
      * rewrite rd_insert_ne by done. rewrite Hcnt. simpl. lia.
  - apply request_commit in Htx as (bt & _ & _ & _ & _ & _ & _ & ->).
    eapply ledger_wf_frame; [exact Hlw | reflexivity.. | ].
    apply Forall_singleton. intros ? ? ?. discriminate.
  - apply callback_commit in Htx as (bt & total & _ & _ & _ & _ & _ & ->).
    eapply ledger_wf_frame; [exact Hlw | reflexivity.. | ].
    apply Forall_singleton. intros ? ? ?. discriminate.
Qed.

Lemma reachable_ledger_wf s :
  zero_handle_uninitialized -> add_initialized -> reachable s -> ledger_wf s.
Proof.
  intros Hzero Hadd. apply reachable_ind; [apply ledger_wf_constructor|].
  intros. by eapply ledger_wf_step.
Qed.

End HomomorphicAccumulator.

Section HomomorphicCorrectness.
Context `{fhe : FHEVM}.

(** C1 (as amended).  In reachable storage the TipSubmitted events list
    the ledger record by record, each with its batch, and the running
    total of every batch, closed ones included, is the homomorphic fold of
    the encrypted amounts submitted to it: zero before the first, the first
    as seed, each later one merged by [FHE.add]; the count is their number.  With
    initialized handles closed under [FHE.add] and [dec] decrypting as
    [euint32] arithmetic does, the decrypted total of a batch with
    contributions is a1 + ... + an modulo 2^32, hence the exact sum
    whenever that fits in 32 bits, and it is the same for every order of
    submission.  The contract itself is defined without [dec]. *)
Theorem running_total_homomorphic (s : State) (b : uint256) (dec : euint32 -> N) :
  reachable s ->
  zero_handle_uninitialized ->
  add_initialized ->
  decrypts dec ->
  let amounts := amounts_of_batch s b in
  let total := rd (batchTotalEncryptedAmount s) b in
  flat_map (logged_tip (tips s)) (events s) = tips s /\
  total = hfold amounts /\
  rd (batchTipCount s) b = N.of_nat (length amounts) /\
  (amounts <> [] ->
     dec total = plain_sum dec amounts mod UINT32_MOD /\
     (plain_sum dec amounts < UINT32_MOD -> dec total = plain_sum dec amounts) /\
     (forall s2 b2, reachable s2 -> amounts_of_batch s2 b2 ≡ₚ amounts ->
        dec (rd (batchTotalEncryptedAmount s2) b2) = dec total)).
Proof.
  intros Hs Hzero Hadd Hdec amounts total.
  pose proof (reachable_ledger_wf s Hzero Hadd Hs) as Hlw.
  assert (total = hfold amounts) as Htotal by apply (lw_total s Hlw).
  split; [apply (lw_ledger s Hlw)|].
  split; [exact Htotal|]. split; [apply (lw_count s Hlw)|].
  intros Hne.
  assert (dec total = plain_sum dec amounts mod UINT32_MOD) as Hsum.
  { rewrite Htotal. apply dec_hfold; try done. apply (lw_initialized s Hlw). }
  split; [exact Hsum|]. split.
  - intros Hfits. rewrite Hsum. by apply N.mod_small.
  - intros s2 b2 Hs2 Hperm.
    pose proof (reachable_ledger_wf s2 Hzero Hadd Hs2) as Hlw2.
    rewrite (lw_total s2 Hlw2), Hsum.
    rewrite dec_hfold; try done.
    + by rewrite (plain_sum_perm dec _ _ Hperm).
    + apply (lw_initialized s2 Hlw2).
    + intros Hnil. rewrite Hnil in Hperm. symmetry in Hperm.
      by apply Permutation_nil_r in Hperm.
Qed.

End HomomorphicCorrectness.

(** ** The properties on concrete transactions *)

Lemma cleartext_zero_handle : zero_handle_uninitialized (fhe := Cleartext.fhevm).
Proof. reflexivity. Qed.

Lemma cleartext_add_initialized : add_initialized (fhe := Cleartext.fhevm).
Proof.
  intros x y _ _. simpl. unfold Cleartext.enc.
  apply negb_true_iff, N.eqb_neq.
  generalize ((Cleartext.dec x + Cleartext.dec y) mod UINT32_MOD). lia.
Qed.

Lemma cleartext_decrypts : decrypts (fhe := Cleartext.fhevm) Cleartext.dec.
Proof.
  split.
  - intros h. unfold Cleartext.dec. apply N.mod_lt. discriminate.
  - intros x y _ _. simpl. unfold Cleartext.enc.
    generalize (Cleartext.dec x + Cleartext.dec y). intros z.
    unfold Cleartext.dec at 1.
    rewrite N.add_sub.
    apply N.Div0.mod_mod.
Qed.

Lemma cleartext_reachable tr :
  reachable (fhe := Cleartext.fhevm) (run (fhe := Cleartext.fhevm) tr Cleartext.genesis).
Proof. by exists (Cleartext.at_ Cleartext.deployer 1000), tr. Qed.

(** C1: the scenario's total decrypts to 5 + 3. *)
Lemma running_total_witness :
  Cleartext.dec (rd (batchTotalEncryptedAmount Cleartext.requested_state) 1) = 8.
Proof.
  destruct (running_total_homomorphic (fhe := Cleartext.fhevm)
              Cleartext.requested_state 1 Cleartext.dec
              (cleartext_reachable Cleartext.scenario)
              cleartext_zero_handle cleartext_add_initialized cleartext_decrypts)
    as (_ & _ & _ & Hdec).
  destruct Hdec as (_ & Hexact & _); [vm_compute; discriminate|].
  rewrite Hexact; [vm_compute; reflexivity|]. vm_compute. reflexivity.
Defined.

(** C1 as stated fails: two contributions of 2^31 sum to 2^32, and the
    closed batch's total decrypts to 0. *)
Lemma running_total_wraps :
  let s := run (fhe := Cleartext.fhevm) Cleartext.wrapping Cleartext.genesis in
  (isOpen <$> batches s !! 1%nat) = Some false /\
  amounts_of_batch s 1 = [Cleartext.enc (2 ^ 31); Cleartext.enc (2 ^ 31)] /\
  rd (batchTotalEncryptedAmount s) 1 =
    hfold (fhe := Cleartext.fhevm) (amounts_of_batch s 1) /\
  plain_sum Cleartext.dec (amounts_of_batch s 1) = 2 ^ 32 /\
  Cleartext.dec (rd (batchTotalEncryptedAmount s) 1) = 0 /\
  Cleartext.dec (rd (batchTotalEncryptedAmount s) 1)
    <> plain_sum Cleartext.dec (amounts_of_batch s 1).
Proof. vm_compute. repeat split; discriminate. Qed.

(** C2: after the answer to request 77 and five more transactions, a
    callback for 77 is a replay. *)
Lemma exactly_once_witness :
  transact (fhe := Cleartext.fhevm) (Cleartext.at_ 9 4000)
    (MyCallback 77 (Cleartext.word 8) [x01])
    (run (fhe := Cleartext.fhevm) Cleartext.aftermath Cleartext.completed_state)
  = inl ReplayAttempt.
Proof.
  destruct (exactly_once_decryption (fhe := Cleartext.fhevm)
              Cleartext.completed_state 77 Cleartext.aftermath) as [Hreplay _].
  - vm_compute. reflexivity.
  - destruct Hreplay as (_ & _ & Hcb); [vm_compute; reflexivity|]. apply Hcb.
Defined.

(** C3: with the total of batch 1 replaced by another initialized handle
    the answer to request 77 is a StateMismatch. *)
Lemma fingerprint_binding_witness :
  transact (fhe := Cleartext.fhevm) (Cleartext.at_ 9 2000)
    (MyCallback 77 (Cleartext.word 8) [x01]) Cleartext.drifted_state
  = inl StateMismatch.
Proof.
  apply (fingerprint_binding (fhe := Cleartext.fhevm) Cleartext.drifted_state
           (Cleartext.at_ 9 2000) 77 (Cleartext.word 8) [x01]
           {| id := 1; isOpen := false; startTime := 1100; closeTime := 1400 |}).
  - vm_compute. reflexivity.
  - vm_compute. reflexivity.
  - vm_compute. discriminate.
Defined.

(** C3 as stated fails: request 77 is pending and the fingerprint of the
    current total differs from the stored one, yet the callback, with a
    proof that verifies, reverts with NotInitialized; so does a callback
    for a request id that was never issued. *)
Lemma fingerprint_after_initialization_check :
  let s := Cleartext.cleared_state in
  let ctx := rdctx (decryptionContexts s) 77 in
  processed ctx = false /\
  _hashCiphertexts (fhe := Cleartext.fhevm)
    [rd (batchTotalEncryptedAmount s) (batchId ctx)] <> stateHash ctx /\
  FHE_checkSignatures (FHEVM := Cleartext.fhevm) 77 (Cleartext.word 8) [x01] = true /\
  transact (fhe := Cleartext.fhevm) (Cleartext.at_ 9 2000)
    (MyCallback 77 (Cleartext.word 8) [x01]) s = inl NotInitialized /\
  transact (fhe := Cleartext.fhevm) (Cleartext.at_ 9 2000)
    (MyCallback 77 (Cleartext.word 8) [x01]) s <> inl StateMismatch /\
  let ctx0 := rdctx (decryptionContexts Cleartext.genesis) 5 in
  processed ctx0 = false /\
  _hashCiphertexts (fhe := Cleartext.fhevm)
    [rd (batchTotalEncryptedAmount Cleartext.genesis) (batchId ctx0)] <> stateHash ctx0 /\
  transact (fhe := Cleartext.fhevm) (Cleartext.at_ 9 2000)
    (MyCallback 5 (Cleartext.word 8) [x01]) Cleartext.genesis = inl NotInitialized.
Proof. vm_compute. repeat split; discriminate. Qed.

(** C4: in the scenario's storage no batch is open, and closeBatch by the
    deployer reverts with BatchNotOpen. *)
Lemma single_open_batch_witness :
  transact (fhe := Cleartext.fhevm) (Cleartext.at_ Cleartext.deployer 5000) CloseBatch
    Cleartext.requested_state = inl BatchNotOpen.
Proof.
  destruct (single_open_batch (fhe := Cleartext.fhevm) Cleartext.requested_state
              (cleartext_reachable Cleartext.scenario)) as (_ & _ & Hcalls).
  destruct (Hcalls (Cleartext.at_ Cleartext.deployer 5000)) as [_ [_ Hclose]].
  - vm_compute. reflexivity.
  - vm_compute. reflexivity.
  - apply Hclose. intros (i & b & Hb & Hopen).
    destruct i as [|[|i]]; vm_compute in Hb; try discriminate;
      injection Hb as <-; discriminate.
Defined.

(** C5: a tip into the scenario's closed batch reverts with BatchNotOpen. *)
Lemma submitTip_witness :
  transact (fhe := Cleartext.fhevm) (Cleartext.at_ Cleartext.alice 5000)
    (SubmitTip (Cleartext.enc 1) (Cleartext.enc 1) (Cleartext.enc 1))
    Cleartext.requested_state = inl BatchNotOpen.
Proof.
  destruct (submitTip_all_or_nothing (fhe := Cleartext.fhevm) Cleartext.requested_state
              (Cleartext.at_ Cleartext.alice 5000)
              (Cleartext.enc 1) (Cleartext.enc 1) (Cleartext.enc 1)
              (cleartext_reachable Cleartext.scenario)) as (Hclosed & _ & _).
  destruct Hclosed as [_ Herr].
  - vm_compute. reflexivity.
  - apply Herr. repeat split; vm_compute; congruence.
Defined.

(** C6: the sentinel cannot be decrypted. *)
Lemma request_decryption_witness :
  transact (fhe := Cleartext.fhevm) (Cleartext.oracle Cleartext.deployer 5000 80)
    (RequestBatchTotalDecryption 0) Cleartext.requested_state = inl InvalidBatch.
Proof.
  destruct (request_decryption_contract (fhe := Cleartext.fhevm) Cleartext.requested_state
              (Cleartext.oracle Cleartext.deployer 5000 80) 0
              (cleartext_reachable Cleartext.scenario) cleartext_zero_handle)
    as (Hinvalid & _).
  destruct Hinvalid as [_ Herr]; [by left|].
  apply Herr. repeat split; vm_compute; congruence.
Defined.

(** C7: with the default cooldown of 60 and no earlier tip, a tip at block
    time 30 is refused. *)
Lemma cooldown_guard_witness :
  transact (fhe := Cleartext.fhevm) (Cleartext.at_ Cleartext.alice 30)
    (SubmitTip (Cleartext.enc 1) (Cleartext.enc 1) (Cleartext.enc 1))
    Cleartext.genesis = inl CooldownActive.
Proof.
  destruct (cooldown_guard (fhe := Cleartext.fhevm) Cleartext.genesis
              (Cleartext.at_ Cleartext.alice 30)) as (Hsubmit & _).
  - reflexivity.
  - apply Hsubmit; vm_compute; [discriminate|reflexivity].
Defined.

(** C7 as stated fails: with the largest cooldown and alice's timer at
    1200 the block time 1300 lies below their sum, but the sum overflows
    and submitTip reverts with Panic(0x11). *)
Lemma cooldown_overflow_panics :
  let s := run (fhe := Cleartext.fhevm) Cleartext.long_cooldown Cleartext.genesis in
  let e := Cleartext.at_ Cleartext.alice 1300 in
  paused s = false /\
  cooldownSeconds s = UINT256_MAX /\
  rd (lastSubmissionTime s) (msg_sender e) = 1200 /\
  block_timestamp e < rd (lastSubmissionTime s) (msg_sender e) + cooldownSeconds s /\
  transact (fhe := Cleartext.fhevm) e
    (SubmitTip (Cleartext.enc 1) (Cleartext.enc 1) (Cleartext.enc 1)) s = inl (Panic 17) /\
  transact (fhe := Cleartext.fhevm) e
    (SubmitTip (Cleartext.enc 1) (Cleartext.enc 1) (Cleartext.enc 1)) s <> inl CooldownActive.
Proof. vm_compute. repeat split; discriminate. Qed.

(** C8: the deployer is a provider from the start; adding it again
    commits and changes nothing. *)
Lemma provider_updates_witness :
  transact (fhe := Cleartext.fhevm) (Cleartext.at_ Cleartext.deployer 1100)
    (AddProvider Cleartext.deployer) Cleartext.genesis = inr Cleartext.genesis.
Proof.
  destruct (provider_updates_idempotent (fhe := Cleartext.fhevm) Cleartext.genesis
              (Cleartext.at_ Cleartext.deployer 1100) (Cleartext.at_ Cleartext.deployer 1100)
              Cleartext.deployer) as (Hadd & _).
  destruct Hadd as [_ Hcommit]; [reflexivity|]. by apply Hcommit.
Defined.

(** C9: request id 78 was never issued in the scenario; a callback for it
    reverts with NotInitialized. *)
Lemma unissued_callback_witness :
  transact (fhe := Cleartext.fhevm) (Cleartext.at_ Cleartext.bob 5000)
    (MyCallback 78 (Cleartext.word 8) [x01]) Cleartext.requested_state = inl NotInitialized.
Proof.
  destruct (unissued_callback_reverts (fhe := Cleartext.fhevm) Cleartext.requested_state 78
              (cleartext_reachable Cleartext.scenario) cleartext_zero_handle)
    as (_ & _ & _ & Hcb & _).
  - intros b h Hin.
    assert (events Cleartext.requested_state =
            [BatchOpened 1 1100; TipSubmitted 2 1 0; TipSubmitted 3 1 1;
             BatchClosed 1 1400 2; DecryptionRequested 77 1 127017]) as Hlog
      by (vm_compute; reflexivity).
    rewrite Hlog in Hin.
    repeat (apply elem_of_cons in Hin as [Hin|Hin]; [discriminate|]).
    by apply elem_of_nil in Hin.
  - apply Hcb.
Defined.

(** C10: the deployer hands the contract to alice, stays a provider, and
    alice is none. *)
Lemma transferOwnership_witness :
  let s' := step (fhe := Cleartext.fhevm) Cleartext.genesis
              (Cleartext.at_ Cleartext.deployer 1100, TransferOwnership Cleartext.alice) in
  owner s' = Cleartext.alice /\
  rdb (isProvider s') Cleartext.deployer = true /\
  rdb (isProvider s') Cleartext.alice = false.
Proof.
  destruct (transferOwnership_frame (fhe := Cleartext.fhevm) Cleartext.genesis
              (step (fhe := Cleartext.fhevm) Cleartext.genesis
                 (Cleartext.at_ Cleartext.deployer 1100, TransferOwnership Cleartext.alice))
              (Cleartext.at_ Cleartext.deployer 1100) Cleartext.alice)
    as (_ & Howner & _ & _ & _ & _ & _ & _ & _ & _ & _ & _ & Hprov).
  - vm_compute. reflexivity.
  - destruct (Hprov (Cleartext.at_ Cleartext.deployer 1000) eq_refl) as [Hold Hnew].
    cbv zeta. split; [exact Howner|]. split; [exact Hold|]. apply Hnew. discriminate.
Defined.

(** ** Modifiers: who may call what, and when *)

Section Modifiers.
Context `{fhe : FHEVM}.

Lemma not_owner_reverts s e c :
  owner_only c = true -> msg_sender e <> owner s -> transact e c s = inl NotOwner.
Proof.
  intros Hc Hne. apply N.eqb_neq in Hne.
  destruct c; try discriminate Hc;
    unfold_contract; unfold_monad; simpl; by rewrite Hne.
Qed.

(** X1. A call reverts with NotOwner exactly when it is one of the six
    owner-only entry points and the caller is not the owner, and with
    NotProvider exactly when it is one of the three provider-only entry
    points and the caller is not a provider: the role check comes first,
    whatever the pause flag, the arguments and the rest of the storage. *)
Theorem role_gates (s : State) (e : Env) (c : Call) :
  (transact e c s = inl NotOwner <->
     owner_only c = true /\ msg_sender e <> owner s) /\
  (transact e c s = inl NotProvider <->
     provider_only c = true /\ rdb (isProvider s) (msg_sender e) = false).
Proof.
  split; split.
  - intros Htx. destruct c; run_tx Htx; (split; [reflexivity|]);
      match goal with Hn : negb (_ =? _) = true |- _ =>
        apply negb_true_iff, N.eqb_neq in Hn; exact Hn end.
  - intros [Hc Hne]. by apply not_owner_reverts.
  - intros Htx. destruct c; run_tx Htx; (split; [reflexivity|]);
      match goal with Hn : negb (rdb _ _) = true |- _ =>
        apply negb_true_iff in Hn; exact Hn end.
  - intros [Hc Hp].
    destruct c; try discriminate Hc;
      unfold_contract; unfold_monad; simpl; by rewrite Hp.
Qed.

(** X2. A call reverts with PausedState exactly when the contract is
    paused, the entry point is one of the five behind whenNotPaused
    (pause, openBatch, closeBatch, submitTip,
    requestBatchTotalDecryption) and the caller passes its role check;
    while paused none of these five commits. *)
Theorem pause_gate (s : State) (e : Env) (c : Call) :
  (transact e c s = inl PausedState <->
     paused s = true /\ pausable c = true /\ role_passes s e c = true) /\
  (paused s = true -> pausable c = true ->
     exists err, transact e c s = inl err).
Proof.
  assert (transact e c s = inl PausedState <->
          paused s = true /\ pausable c = true /\ role_passes s e c = true) as Hiff.
  { split.
    - intros Htx. destruct c; run_tx Htx; unfold role_passes; simpl;
        repeat split; try done;
        match goal with Hn : negb _ = false |- _ =>
          apply negb_false_iff in Hn; exact Hn end.
    - intros (Hp & Hc & Hr). unfold role_passes in Hr.
      destruct c; try discriminate Hc; simpl in Hr;
        unfold_contract; unfold_monad; simpl; rewrite ?Hr; simpl; by rewrite Hp. }
  split; [exact Hiff|].
  intros Hp Hc.
  destruct (role_passes s e c) eqn:Hr.
  - exists PausedState. by apply Hiff.
  - unfold role_passes in Hr.
    destruct c; try discriminate Hc; simpl in Hr; try discriminate Hr;
      unfold_contract; unfold_monad; simpl; rewrite Hr; simpl; by eexists.
Qed.

End Modifiers.

(** ** Pausing *)

Section Pausing.
Context `{fhe : FHEVM}.

(** X3. The pause flag is read by the five guarded entry points only:
    transferOwnership, addProvider, removeProvider, setCooldownSeconds and
    the oracle callback give the same error, or commit the same changes,
    whether or not the contract is paused, and unpause ends in the same
    storage from either. *)
Theorem pause_blind_calls (s : State) (e : Env) (c : Call) (p : bool) :
  pausable c = false ->
  transact e c (set_paused p s) =
    match transact e c s with
    | inl err => inl err
    | inr s' => inr (match c with Unpause => s' | _ => set_paused p s' end)
    end.
Proof.
  intros Hc. destruct c; try discriminate Hc;
    unfold_contract; unfold_monad; simpl;
    repeat match goal with
      | |- context [if ?b then _ else _] => destruct b eqn:?; simpl
      | |- context [match ?o with Some _ => _ | None => _ end] => destruct o eqn:?; simpl
      end; reflexivity.
Qed.

(** X4. For the owner of an unpaused contract pause commits and sets the
    flag, a second pause reverts with PausedState, and unpause commits
    from any storage, clearing the flag and logging Unpaused each time;
    pause followed by unpause restores every storage field, the log
    having gained the two events. *)
Theorem pause_unpause_roundtrip (s : State) (e e' : Env) :
  msg_sender e = owner s ->
  msg_sender e' = owner s ->
  transact e' Unpause s =
    inr (set_events (events s ++ [Unpaused (msg_sender e')]) (set_paused false s)) /\
  (paused s = false ->
     exists s1,
       transact e Pause s = inr s1 /\
       s1 = set_events (events s ++ [Paused (msg_sender e)]) (set_paused true s) /\
       transact e Pause s1 = inl PausedState /\
       transact e' Unpause s1 =
         inr (set_events (events s ++ [Paused (msg_sender e); Unpaused (msg_sender e')]) s)).
Proof.
  intros Ho Ho'. split.
  - unfold_contract; unfold_monad; simpl. by rewrite Ho', N.eqb_refl.
  - intros Hunp. eexists. split; [|split; [reflexivity|split]].
    + unfold_contract; unfold_monad; simpl. rewrite Ho, N.eqb_refl. simpl.
      by rewrite Hunp.
    + unfold_contract; unfold_monad; simpl. by rewrite Ho, N.eqb_refl.
    + unfold_contract; unfold_monad; simpl. rewrite Ho', N.eqb_refl. simpl.
      rewrite <- app_assoc. simpl. destruct s. simpl in *. by rewrite Hunp.
Qed.

End Pausing.

(** ** Ownership *)

Section Ownership.
Context `{fhe : FHEVM}.

(** X5. transferOwnership by the owner commits for every address (the
    zero address and the owner itself included).  From then on every
    owner-only call from any other address, the previous owner among them,
    reverts with NotOwner, while the new owner's calls pass; handing the
    contract back restores every storage field. *)
Theorem ownership_handover (s : State) (e : Env) (newOwner : address) :
  msg_sender e = owner s ->
  exists s',
    transact e (TransferOwnership newOwner) s = inr s' /\
    owner s' = newOwner /\
    (forall e' c, owner_only c = true -> msg_sender e' <> newOwner ->
       transact e' c s' = inl NotOwner) /\
    (forall e' k, msg_sender e' = newOwner ->
       exists s'', transact e' (SetCooldownSeconds k) s' = inr s'' /\
                   cooldownSeconds s'' = k) /\
    (forall e', msg_sender e' = newOwner ->
       transact e' (TransferOwnership (owner s)) s' =
         inr (set_events (events s ++ [OwnershipTransferred (owner s) newOwner;
                                       OwnershipTransferred newOwner (owner s)]) s)).
Proof.
  intros Ho.
  exists (set_events (events s ++ [OwnershipTransferred (owner s) newOwner])
            (set_owner newOwner s)).
  split; [|split; [reflexivity|split; [|split]]].
  - unfold_contract; unfold_monad; simpl. by rewrite Ho, N.eqb_refl.
  - intros e' c Hc Hne. by apply not_owner_reverts.
  - intros e' k He'. eexists.
    split; [unfold_contract; unfold_monad; simpl; by rewrite He', N.eqb_refl
           | reflexivity].
  - intros e' He'. unfold_contract; unfold_monad; simpl.
    rewrite He', N.eqb_refl. simpl. rewrite <- app_assoc. simpl. by destruct s.
Qed.

End Ownership.

(** ** Batch lifecycle *)

Section BatchLifecycle.
Context `{fhe : FHEVM}.

(** What a committed openBatch did. *)
Lemma openBatch_commit s e s' :
  transact e OpenBatch s = inr s' ->
  exists n b,
    length (batches s) = S n /\ batches s !! n = Some b /\ isOpen b = false /\
    rdb (isProvider s) (msg_sender e) = true /\ paused s = false /\
    s' = set_events
           (events s ++ [BatchOpened (N.of_nat (length (batches s))) (block_timestamp e)])
           (set_batches
              (batches s ++ [ {| id := N.of_nat (length (batches s)); isOpen := true;
                                 startTime := block_timestamp e; closeTime := 0 |} ]) s).
Proof.
  intros Htx. run_tx Htx.
  eexists _, _.
  repeat (split; [first [eassumption | reflexivity | by eapply negb_false_iff]|]).
  by rewrite Heqn.
Qed.

(** Closing writes the two fields of the latest batch. *)
Lemma close_alter (l : list Batch) n b now :
  l !! n = Some b ->
  alter (fun b => {| id := id b; isOpen := isOpen b;
                     startTime := startTime b; closeTime := now |}) n
    (alter (fun b => {| id := id b; isOpen := false;
                        startTime := startTime b; closeTime := closeTime b |}) n l)
  = <[n := {| id := id b; isOpen := false; startTime := startTime b; closeTime := now |}]> l.
Proof.
  intros Hb. apply list_eq. intros j.
  destruct (decide (n = j)) as [<-|Hne].
  - rewrite list_lookup_insert_eq by (by eapply lookup_lt_Some).
    by rewrite !list_lookup_alter_eq, Hb.
  - by rewrite list_lookup_insert_ne, !list_lookup_alter_ne.
Qed.

(** What a committed closeBatch did. *)
Lemma closeBatch_commit s e s' :
  transact e CloseBatch s = inr s' ->
  exists n b,
    length (batches s) = S n /\ batches s !! n = Some b /\ isOpen b = true /\
    rdb (isProvider s) (msg_sender e) = true /\ paused s = false /\
    s' = set_events
           (events s ++ [BatchClosed (id b) (block_timestamp e)
                           (rd (batchTipCount s) (id b))])
           (set_batches
              (<[n := {| id := id b; isOpen := false; startTime := startTime b;
                         closeTime := block_timestamp e |}]> (batches s)) s).
Proof.
  intros Htx. unfold_contract; unfold_monad; simpl in Htx.
  destruct (negb (rdb (isProvider s) (msg_sender e))) eqn:Hprov; [discriminate|].
  simpl in Htx. destruct (paused s) eqn:Hunp; [discriminate|]. simpl in Htx.
  destruct (length (batches s)) as [|n] eqn:Hlen; [discriminate|]. simpl in Htx.
  destruct (batches s !! n) as [b|] eqn:Hb; [|discriminate]. simpl in Htx.
  destruct (negb (isOpen b)) eqn:Hopen; [discriminate|]. simpl in Htx.
  rewrite (close_alter _ _ _ _ Hb) in Htx.
  rewrite list_lookup_insert_eq in Htx by (by eapply lookup_lt_Some).
  simpl in Htx. injection Htx as <-.
  exists n, b. repeat (split; [first [eassumption | reflexivity | by eapply negb_false_iff]|]).
  reflexivity.
Qed.

(** How a committed transaction changes the registry: not at all, by
    appending an open batch behind a closed one, or by closing the latest. *)
Lemma batches_effect s e c s' :
  transact e c s = inr s' ->
  batches s' = batches s \/
  (exists n b, length (batches s) = S n /\ batches s !! n = Some b /\
     ((isOpen b = false /\
       batches s' = batches s ++ [ {| id := N.of_nat (length (batches s)); isOpen := true;
                                      startTime := block_timestamp e; closeTime := 0 |} ]) \/
      (isOpen b = true /\
       batches s' = <[n := {| id := id b; isOpen := false; startTime := startTime b;
                              closeTime := block_timestamp e |}]> (batches s)))).
Proof.
  intros Htx. destruct c.
  1-6: run_tx Htx; by left.
  - apply openBatch_commit in Htx as (n & b & Hlen & Hb & Hopen & _ & _ & ->).
    right. exists n, b. repeat split; try done. by left.
  - apply closeBatch_commit in Htx as (n & b & Hlen & Hb & Hopen & _ & _ & ->).
    right. exists n, b. repeat split; try done. by right.
  - apply submitTip_commit in Htx as (n & b & _ & _ & _ & _ & _ & _ & _ & ->). by left.
  - apply request_commit in Htx as (bt & _ & _ & _ & _ & _ & _ & ->). by left.
  - apply callback_commit in Htx as (bt & total & _ & _ & _ & _ & _ & ->). by left.
Qed.

(** How a committed transaction changes the aggregates: not at all, or,
    for submitTip, at the id of the open latest batch. *)
Lemma aggregates_effect s e c s' :
  transact e c s = inr s' ->
  (batchTotalEncryptedAmount s' = batchTotalEncryptedAmount s /\
   batchTipCount s' = batchTipCount s) \/
  (exists n b, length (batches s) = S n /\ batches s !! n = Some b /\ isOpen b = true /\
     (forall k, k <> id b ->
        rd (batchTotalEncryptedAmount s') k = rd (batchTotalEncryptedAmount s) k /\
        rd (batchTipCount s') k = rd (batchTipCount s) k) /\
     rd (batchTipCount s') (id b) = rd (batchTipCount s) (id b) + 1).
Proof.
  intros Htx. destruct c.
  1-6: run_tx Htx; by left.
  - apply openBatch_commit in Htx as (n & b & _ & _ & _ & _ & _ & ->). by left.
  - apply closeBatch_commit in Htx as (n & b & _ & _ & _ & _ & _ & ->). by left.
  - apply submitTip_commit in Htx as (n & b & Hlen & Hb & Hopen & _ & _ & _ & _ & ->).
    right. exists n, b. repeat split; try done; simpl.
    + by rewrite rd_insert_ne.
    + by rewrite rd_insert_ne.
    + by rewrite rd_insert_eq.
  - apply request_commit in Htx as (bt & _ & _ & _ & _ & _ & _ & ->). by left.
  - apply callback_commit in Htx as (bt & total & _ & _ & _ & _ & _ & ->). by left.
Qed.

(** One transaction leaves a batch record as it is or closes it. *)
Lemma batch_record_step s ec i b :
  batches s !! i = Some b ->
  exists b', batches (step s ec) !! i = Some b' /\
             id b' = id b /\ startTime b' = startTime b /\
             (isOpen b = false -> b' = b) /\
             (isOpen b' = true -> b' = b).
Proof.
  destruct ec as [e c]. intros Hb. unfold step. simpl.
  destruct (transact e c s) as [err|s'] eqn:Htx; [by exists b|].
  destruct (batches_effect s e c s' Htx)
    as [->|(n & bn & Hlen & Hbn & [[Hopen ->]|[Hopen ->]])].
  - by exists b.
  - exists b. rewrite lookup_app_l by (by eapply lookup_lt_Some). done.
  - destruct (decide (n = i)) as [->|Hne].
    + assert (bn = b) as -> by congruence.
      eexists. rewrite list_lookup_insert_eq by (by eapply lookup_lt_Some).
      split; [reflexivity|]. simpl. repeat split; try done. congruence.
    + exists b. by rewrite list_lookup_insert_ne.
Qed.

Lemma batches_length_step s ec :
  (length (batches s) <= length (batches (step s ec)))%nat.
Proof.
  destruct ec as [e c]. unfold step. simpl.
  destruct (transact e c s) as [err|s'] eqn:Htx; [done|].
  destruct (batches_effect s e c s' Htx)
    as [->|(n & bn & Hlen & Hbn & [[Hopen ->]|[Hopen ->]])].
  - done.
  - rewrite length_app. lia.
  - by rewrite length_insert.
Qed.

(** X6. The registry is append-only and closing is one-way: over any
    sequence of transactions, from any storage, the registry never
    shrinks, every batch keeps its index, id and startTime, a closed batch
    record stays exactly as it is, and a batch that is open afterwards is
    the record it was before. *)
Theorem registry_append_only (s : State) (tr : list (Env * Call)) :
  (length (batches s) <= length (batches (run tr s)))%nat /\
  (forall i b, batches s !! i = Some b ->
     exists b', batches (run tr s) !! i = Some b' /\
                id b' = id b /\ startTime b' = startTime b /\
                (isOpen b = false -> b' = b) /\
                (isOpen b' = true -> b' = b)).
Proof.
  revert s. induction tr as [|ec tr IH]; intros s.
  - split; [done|]. intros i b Hb. by exists b.
  - simpl. destruct (IH (step s ec)) as [Hlen Hrec]. split.
    + pose proof (batches_length_step s ec). lia.
    + intros i b Hb.
      destruct (batch_record_step s ec i b Hb) as (b1 & Hb1 & Hid1 & Hst1 & Hcl1 & Hop1).
      destruct (Hrec i b1 Hb1) as (b2 & Hb2 & Hid2 & Hst2 & Hcl2 & Hop2).
      exists b2. repeat split; try congruence.
      * intros Hclosed. rewrite <- (Hcl1 Hclosed). apply Hcl2.
        by rewrite (Hcl1 Hclosed).
      * intros Hopen. rewrite (Hop2 Hopen). apply Hop1. by rewrite <- (Hop2 Hopen).
Qed.

(** A closed batch's aggregates survive one transaction. *)
Lemma closed_aggregates_step s ec i b :
  batches_wf s ->
  batches s !! i = Some b -> isOpen b = false ->
  rd (batchTotalEncryptedAmount (step s ec)) (N.of_nat i)
    = rd (batchTotalEncryptedAmount s) (N.of_nat i) /\
  rd (batchTipCount (step s ec)) (N.of_nat i) = rd (batchTipCount s) (N.of_nat i).
Proof.
  destruct ec as [e c]. intros Hwf Hb Hclosed. unfold step. simpl.
  destruct (transact e c s) as [err|s'] eqn:Htx; [done|].
  destruct (aggregates_effect s e c s' Htx)
    as [[-> ->]|(n & bn & Hlen & Hbn & Hopen & Hother & _)]; [done|].
  apply Hother. rewrite (wf_ids s Hwf n bn Hbn).
  intros Heq. apply Nat2N.inj in Heq. subst i. congruence.
Qed.

Lemma closed_aggregates_run s tr i b :
  reachable s ->
  batches s !! i = Some b ->
  isOpen b = false ->
  batches (run tr s) !! i = Some b /\
  rd (batchTotalEncryptedAmount (run tr s)) (N.of_nat i)
    = rd (batchTotalEncryptedAmount s) (N.of_nat i) /\
  rd (batchTipCount (run tr s)) (N.of_nat i) = rd (batchTipCount s) (N.of_nat i).
Proof.
  revert s. induction tr as [|ec tr IH]; intros s Hs Hb Hclosed; [done|].
  simpl.
  destruct (closed_aggregates_step s ec i b (reachable_wf s Hs) Hb Hclosed) as [Ht Hc].
  destruct (batch_record_step s ec i b Hb) as (b1 & Hb1 & _ & _ & Hsame & _).
  rewrite (Hsame Hclosed) in Hb1.
  destruct (IH (step s ec) (reachable_step s ec Hs) Hb1 Hclosed) as (Hb' & Ht' & Hc').
  repeat split; congruence.
Qed.

(** X7. Once a batch is closed its running total and its count are
    frozen: no sequence of transactions on reachable storage changes
    them, nor its record, nor the fingerprint of its total, so a
    decryption requested for a closed batch is answered for the very
    total that was fingerprinted. *)
Theorem closed_aggregates_frozen (s : State) (tr : list (Env * Call)) (i : nat) (b : Batch) :
  reachable s ->
  batches s !! i = Some b ->
  isOpen b = false ->
  batches (run tr s) !! i = Some b /\
  rd (batchTotalEncryptedAmount (run tr s)) (N.of_nat i)
    = rd (batchTotalEncryptedAmount s) (N.of_nat i) /\
  rd (batchTipCount (run tr s)) (N.of_nat i) = rd (batchTipCount s) (N.of_nat i) /\
  _hashCiphertexts [rd (batchTotalEncryptedAmount (run tr s)) (N.of_nat i)]
    = _hashCiphertexts [rd (batchTotalEncryptedAmount s) (N.of_nat i)].
Proof.
  intros Hs Hb Hclosed.
  destruct (closed_aggregates_run s tr i b Hs Hb Hclosed) as (Hrec & Htot & Hcnt).
  repeat split; try done. by rewrite Htot.
Qed.

Lemma latest_batch_open_spec s n b :
  length (batches s) = S n -> batches s !! n = Some b ->
  latest_batch_open s = isOpen b.
Proof.
  intros Hlen Hb. unfold latest_batch_open. rewrite last_lookup, Hlen. simpl.
  by rewrite Hb.
Qed.

(** X8. In reachable storage openBatch commits exactly for a provider of
    an unpaused contract whose latest batch is closed, and closeBatch
    exactly for one whose latest batch is open.  A committed openBatch
    appends one open batch whose id is the previous registry length and
    whose startTime is the block time; a committed closeBatch leaves the
    registry length alone and stamps the latest batch closed at the block
    time.  So the two alternate. *)
Theorem batch_lifecycle_commits (s : State) (e : Env) :
  reachable s ->
  ((exists s', transact e OpenBatch s = inr s') <->
     rdb (isProvider s) (msg_sender e) = true /\ paused s = false /\
     latest_batch_open s = false) /\
  ((exists s', transact e CloseBatch s = inr s') <->
     rdb (isProvider s) (msg_sender e) = true /\ paused s = false /\
     latest_batch_open s = true) /\
  (forall s', transact e OpenBatch s = inr s' ->
     latest_batch_open s' = true /\
     batches s' = batches s ++
       [ {| id := N.of_nat (length (batches s)); isOpen := true;
            startTime := block_timestamp e; closeTime := 0 |} ]) /\
  (forall s', transact e CloseBatch s = inr s' ->
     latest_batch_open s' = false /\
     length (batches s') = length (batches s) /\
     exists b, last (batches s') = Some b /\ closeTime b = block_timestamp e /\
               id b = N.of_nat (length (batches s) - 1)).
Proof.
  intros Hs. pose proof (reachable_wf s Hs) as Hwf.
  destruct (last_batch_exists s Hwf) as (n & b & Hlen & Hb).
  rewrite (latest_batch_open_spec s n b Hlen Hb).
  split; [|split; [|split]].
  - split.
    + intros [s' Htx].
      apply openBatch_commit in Htx as (n' & b' & Hlen' & Hb' & Hopen & Hp & Hu & _).
      repeat split; try done. congruence.
    + intros (Hp & Hu & Hopen). unfold_contract; unfold_monad; simpl.
      rewrite Hp; simpl. rewrite Hu; simpl. rewrite Hlen, Hb; simpl.
      rewrite Hopen; simpl. by eexists.
  - split.
    + intros [s' Htx].
      apply closeBatch_commit in Htx as (n' & b' & Hlen' & Hb' & Hopen & Hp & Hu & _).
      repeat split; try done. congruence.
    + intros (Hp & Hu & Hopen). unfold_contract; unfold_monad; simpl.
      rewrite Hp; simpl. rewrite Hu; simpl. rewrite Hlen, Hb; simpl.
      rewrite Hopen; simpl. rewrite (close_alter _ _ _ _ Hb).
      rewrite list_lookup_insert_eq by (by eapply lookup_lt_Some). by eexists.
  - intros s' Htx.
    apply openBatch_commit in Htx as (n' & b' & _ & _ & _ & _ & _ & ->).
    split; [|done]. unfold latest_batch_open. simpl. by rewrite last_snoc.
  - intros s' Htx.
    apply closeBatch_commit in Htx as (n' & b' & Hlen' & Hb' & _ & _ & _ & ->).
    assert (n' = n) as -> by lia. assert (b' = b) as -> by congruence.
    unfold latest_batch_open. simpl.
    rewrite last_lookup, length_insert, Hlen. simpl.
    rewrite list_lookup_insert_eq by (by eapply lookup_lt_Some).
    repeat split. eexists. split; [reflexivity|]. simpl. split; [done|].
    rewrite (wf_ids s Hwf n b Hb). f_equal. lia.
Qed.

Lemma count_events_snoc p evs ev :
  count_events p (evs ++ [ev]) = (count_events p evs + if p ev then 1 else 0)%nat.
Proof.
  unfold count_events. rewrite filter_app, length_app. f_equal.
  rewrite filter_cons, filter_nil. by destruct (p ev).
Qed.

(** The batch events of one committed transaction match its effect on the
    registry. *)
Lemma registry_log_step s e c s' :
  batches_wf s ->
  transact e c s = inr s' ->
  (length (batches s') - length (batches s)
   = count_events is_opened (events s') - count_events is_opened (events s))%nat /\
  (count_events is_opened (events s) <= count_events is_opened (events s'))%nat /\
  (count_events is_closed (events s') + (if latest_batch_open s' then 1 else 0)
   + count_events is_opened (events s)
   = count_events is_closed (events s) + (if latest_batch_open s then 1 else 0)
     + count_events is_opened (events s'))%nat.
Proof.
  intros Hwf Htx.
  destruct (last_batch_exists s Hwf) as (n & b & Hlen & Hb).
  destruct c.
  1-6: run_tx Htx; unfold latest_batch_open; simpl;
    rewrite ?count_events_snoc; simpl; lia.
  - apply openBatch_commit in Htx as (n' & b' & Hlen' & Hb' & Hopen & _ & _ & ->).
    assert (n' = n) as -> by lia. assert (b' = b) as -> by congruence.
    rewrite (latest_batch_open_spec s n b Hlen Hb), Hopen.
    unfold latest_batch_open. simpl. rewrite last_snoc, length_app. simpl.
    rewrite !count_events_snoc. simpl. lia.
  - apply closeBatch_commit in Htx as (n' & b' & Hlen' & Hb' & Hopen & _ & _ & ->).
    assert (n' = n) as -> by lia. assert (b' = b) as -> by congruence.
    rewrite (latest_batch_open_spec s n b Hlen Hb), Hopen.
    unfold latest_batch_open. simpl.
    rewrite last_lookup, length_insert, Hlen. simpl.
    rewrite list_lookup_insert_eq by (by eapply lookup_lt_Some). simpl.
    rewrite !count_events_snoc. simpl. lia.
  - apply submitTip_commit in Htx as (n' & b' & _ & _ & _ & _ & _ & _ & _ & ->).
    unfold latest_batch_open. simpl. rewrite !count_events_snoc. simpl. lia.
  - apply request_commit in Htx as (bt & _ & _ & _ & _ & _ & _ & ->).
    unfold latest_batch_open. simpl. rewrite !count_events_snoc. simpl. lia.
  - apply callback_commit in Htx as (bt & total & _ & _ & _ & _ & _ & ->).
    unfold latest_batch_open. simpl. rewrite !count_events_snoc. simpl. lia.
Qed.

(** X9. The log accounts for the registry: in reachable storage the
    number of batches is one more than the number of BatchOpened events
    (the sentinel was never opened), and the BatchOpened events exceed the
    BatchClosed events by one while a batch is open and by none
    otherwise. *)
Theorem registry_log (s : State) :
  reachable s ->
  length (batches s) = S (count_events is_opened (events s)) /\
  count_events is_opened (events s)
    = (count_events is_closed (events s) + if latest_batch_open s then 1 else 0)%nat.
Proof.
  intros Hs.
  assert (batches_wf s /\
          length (batches s) = S (count_events is_opened (events s)) /\
          count_events is_opened (events s)
            = (count_events is_closed (events s) + if latest_batch_open s then 1 else 0)%nat)
    as (_ & Hres); [|exact Hres].
  revert s Hs. apply reachable_ind.
  - intros e0. split; [apply batches_wf_constructor|]. by split.
  - intros s e c s' (Hwf & Hlen & Hcnt) Htx.
    split; [by eapply batches_wf_step|].
    destruct (registry_log_step s e c s' Hwf Htx) as (H1 & H2 & H3).
    pose proof (batches_length_step s (e, c)) as Hmono.
    unfold step in Hmono. simpl in Hmono. rewrite Htx in Hmono.
    destruct (latest_batch_open s), (latest_batch_open s'); lia.
Qed.

(** Transactions that leave the registry alone and log no batch event. *)
Lemma batch_log_frame s s' evs :
  batch_log s ->
  batches s' = batches s ->
  events s' = events s ++ evs ->
  Forall (fun ev => is_opened ev = false /\ is_closed ev = false) evs ->
  (forall i bt, batches s !! i = Some bt -> isOpen bt = false ->
     rd (batchTipCount s') (N.of_nat i) = rd (batchTipCount s) (N.of_nat i)) ->
  batch_log s'.
Proof.
  intros [Hop Hcl] Hb Hev Hkinds Hcount. rewrite Forall_forall in Hkinds.
  split.
  - intros i t. rewrite Hev, Hb, elem_of_app, Hop. split; [|by left].
    intros [Hold|Hnew]; [done|]. by destruct (Hkinds _ Hnew).
  - intros i t c. rewrite Hev, Hb, elem_of_app, Hcl. split.
    + intros [(Hi & bt & Hbt & Hclosed & Ht & Hc)|Hnew].
      * split; [done|]. exists bt. repeat split; try done.
        by rewrite (Hcount i bt Hbt Hclosed).
      * by destruct (Hkinds _ Hnew).
    + intros (Hi & bt & Hbt & Hclosed & Ht & Hc). left.
      split; [done|]. exists bt. repeat split; try done.
      by rewrite <- (Hcount i bt Hbt Hclosed).
Qed.

Lemma batch_log_open s now n b :
  batches_wf s -> batch_log s ->
  length (batches s) = S n -> batches s !! n = Some b -> isOpen b = false ->
  batch_log (set_events
    (events s ++ [BatchOpened (N.of_nat (length (batches s))) now])
    (set_batches
       (batches s ++ [ {| id := N.of_nat (length (batches s)); isOpen := true;
                          startTime := now; closeTime := 0 |} ]) s)).
Proof.
  intros Hwf [Hop Hcl] Hlen Hb Hclosed. split; simpl.
  - intros i t. rewrite elem_of_app, Hop, list_elem_of_singleton. split.
    + intros [(Hi & bt & Hbt & Ht)|Hnew].
      * split; [done|]. exists bt. split; [|done].
        rewrite lookup_app_l; [done|]. by eapply lookup_lt_Some.
      * injection Hnew as Hi ->. apply Nat2N.inj in Hi. subst i.
        split; [lia|]. eexists.
        split; [rewrite lookup_app_r by lia; by rewrite Nat.sub_diag | reflexivity].
    + intros (Hi & bt & Hbt & Ht).
      apply lookup_app_Some in Hbt as [Hbt|[Hge Hbt]].
      * left. split; [done|]. by exists bt.
      * right. apply list_lookup_singleton_Some in Hbt as [Hz <-].
        simpl in Ht. subst t. f_equal. f_equal. lia.
  - intros i t c. rewrite elem_of_app, Hcl, list_elem_of_singleton. split.
    + intros [(Hi & bt & Hbt & Hc & Ht & Hcnt)|Hnew]; [|discriminate].
      split; [done|]. exists bt. repeat split; try done.
      rewrite lookup_app_l; [done|]. by eapply lookup_lt_Some.
    + intros (Hi & bt & Hbt & Hc & Ht & Hcnt). left.
      apply lookup_app_Some in Hbt as [Hbt|[Hge Hbt]].
      * split; [done|]. by exists bt.
      * apply list_lookup_singleton_Some in Hbt as [_ <-]. discriminate.
Qed.

Lemma batch_log_close s now n b :
  batches_wf s -> batch_log s ->
  length (batches s) = S n -> batches s !! n = Some b -> isOpen b = true ->
  batch_log (set_events
    (events s ++ [BatchClosed (id b) now (rd (batchTipCount s) (id b))])
    (set_batches
       (<[n := {| id := id b; isOpen := false; startTime := startTime b;
                  closeTime := now |}]> (batches s)) s)).
Proof.
  intros Hwf [Hop Hcl] Hlen Hb Hopen.
  pose proof (wf_ids s Hwf n b Hb) as Hid.
  assert (n <> 0%nat) as Hn0.
  { intros ->. by apply (open_batch_id_nonzero s 0 b Hwf Hb Hopen). }
  assert (n < length (batches s))%nat as Hlt by (by eapply lookup_lt_Some).
  split; simpl.
  - intros i t. rewrite elem_of_app, Hop, list_elem_of_singleton. split.
    + intros [(Hi & bt & Hbt & Ht)|Hnew]; [|discriminate].
      split; [done|]. destruct (decide (n = i)) as [<-|Hne].
      * eexists. rewrite list_lookup_insert_eq by done.
        split; [reflexivity | simpl; congruence].
      * exists bt. by rewrite list_lookup_insert_ne.
    + intros (Hi & bt & Hbt & Ht). left. split; [done|].
      destruct (decide (n = i)) as [<-|Hne].
      * rewrite list_lookup_insert_eq in Hbt by done. injection Hbt as <-.
        by exists b.
      * rewrite list_lookup_insert_ne in Hbt by done. by exists bt.
  - intros i t c. rewrite elem_of_app, Hcl, list_elem_of_singleton. split.
    + intros [(Hi & bt & Hbt & Hc & Ht & Hcnt)|Hnew].
      * split; [done|]. exists bt. repeat split; try done.
        rewrite list_lookup_insert_ne; [done|]. intros ->. congruence.
      * injection Hnew as Hi -> ->. rewrite Hid in Hi. apply Nat2N.inj in Hi. subst i.
        split; [done|]. eexists. rewrite list_lookup_insert_eq by done.
        split; [reflexivity | simpl; by rewrite Hid].
    + intros (Hi & bt & Hbt & Hc & Ht & Hcnt).
      destruct (decide (n = i)) as [<-|Hne].
      * right. rewrite list_lookup_insert_eq in Hbt by done. injection Hbt as <-.
        simpl in Ht. subst t c. by rewrite Hid.
      * left. rewrite list_lookup_insert_ne in Hbt by done.
        split; [done|]. by exists bt.
Qed.

Lemma batch_log_step s e c s' :
  batches_wf s -> batch_log s -> transact e c s = inr s' -> batch_log s'.
Proof.
  intros Hwf Hbl Htx. destruct c.
  1-6: run_tx Htx; try exact Hbl;
    (eapply (batch_log_frame s); [exact Hbl | reflexivity | reflexivity | | done];
     by apply Forall_singleton).
  - apply openBatch_commit in Htx as (n & b & Hlen & Hb & Hopen & _ & _ & ->).
    by eapply batch_log_open.
  - apply closeBatch_commit in Htx as (n & b & Hlen & Hb & Hopen & _ & _ & ->).
    by eapply batch_log_close.
  - apply submitTip_commit in Htx as (n & b & Hlen & Hb & Hopen & _ & _ & _ & _ & ->).
    eapply (batch_log_frame s); [exact Hbl | reflexivity | reflexivity | | ].
    + by apply Forall_singleton.
    + intros i bt Hbt Hclosed. simpl. rewrite rd_insert_ne; [done|].
      rewrite (wf_ids s Hwf n b Hb). intros Heq. apply Nat2N.inj in Heq.
      subst i. congruence.
  - apply request_commit in Htx as (bt & _ & _ & _ & _ & _ & _ & ->).
    eapply (batch_log_frame s); [exact Hbl | reflexivity | reflexivity | | done].
    by apply Forall_singleton.
  - apply callback_commit in Htx as (bt & total & _ & _ & _ & _ & _ & ->).
    eapply (batch_log_frame s); [exact Hbl | reflexivity | reflexivity | | done].
    by apply Forall_singleton.
Qed.

(** X10. The batch events tell the registry: in reachable storage a
    BatchOpened with id i and time t is in the log exactly when batch i
    exists, is not the sentinel and has startTime t; a BatchClosed with id
    i, time t and tipCount c is in the log exactly when batch i exists, is
    not the sentinel, is closed with closeTime t and has count c.  The
    count announced at closing is therefore the batch's final count. *)
Theorem batch_events_reflect_registry (s : State) :
  reachable s -> batch_log s.
Proof.
  intros Hs.
  assert (batches_wf s /\ batch_log s) as [_ Hres]; [|exact Hres].
  revert s Hs. apply reachable_ind.
  - intros e0. split; [apply batches_wf_constructor|]. split; simpl.
    + intros i t. split; [intros Hin; by apply elem_of_nil in Hin|].
      intros (Hi & bt & Hbt & _). destruct i as [|[|i]]; done.
    + intros i t c. split; [intros Hin; by apply elem_of_nil in Hin|].
      intros (Hi & bt & Hbt & _). destruct i as [|[|i]]; done.
  - intros s e c s' [Hwf Hbl] Htx. split.
    + by eapply batches_wf_step.
    + by eapply batch_log_step.
Qed.

End BatchLifecycle.

(** ** The ledger and its events *)

Section LedgerLog.
Context `{fhe : FHEVM}.

Lemma tip_log_snoc evs ev :
  tip_log (evs ++ [ev]) =
  tip_log evs ++ match ev with TipSubmitted t _ i => [(t, i)] | _ => [] end.
Proof. unfold tip_log. rewrite flat_map_app. simpl. by rewrite app_nil_r. Qed.

Lemma tip_ledger_snoc tps t :
  tip_ledger (tps ++ [t]) = tip_ledger tps ++ [(tipper t, N.of_nat (length tps))].
Proof.
  unfold tip_ledger. rewrite imap_app. simpl. by rewrite Nat.add_0_r.
Qed.

Lemma tip_log_length evs : length (tip_log evs) = count_events is_tip evs.
Proof.
  induction evs as [|ev evs IH] using rev_ind; [done|].
  rewrite tip_log_snoc, count_events_snoc, length_app, IH. by destruct ev.
Qed.

Lemma tips_logged_frame s s' evs :
  tips_logged s ->
  tips s' = tips s ->
  batchTipCount s' = batchTipCount s ->
  (length (batches s) <= length (batches s'))%nat ->
  events s' = events s ++ evs ->
  Forall (fun ev => is_tip ev = false) evs ->
  tips_logged s'.
Proof.
  intros (Hlog & Hcnt & Hids) Htips Hcount Hlen Hev Hkinds.
  assert (tip_log evs = []) as Hnil.
  { clear Hev. induction Hkinds as [|ev evs' Hk _ IH]; [done|].
    unfold tip_log in *. simpl. rewrite IH. by destruct ev. }
  assert (forall b, count_events (is_tip_of b) evs = 0%nat) as Hzero.
  { intros b. clear Hev Hnil. induction Hkinds as [|ev evs' Hk _ IH]; [done|].
    unfold count_events in *. rewrite filter_cons.
    destruct ev; simpl in *; try done. }
  split; [|split].
  - rewrite Hev, Htips. unfold tip_log in *. by rewrite flat_map_app, Hnil, app_nil_r.
  - intros b. rewrite Hcount, Hev, Hcnt. f_equal.
    unfold count_events in *. rewrite filter_app, length_app.
    specialize (Hzero b). lia.
  - intros t b i Hin. rewrite Hev in Hin. apply elem_of_app in Hin as [Hin|Hin].
    + destruct (Hids t b i Hin). split; [done|lia].
    + rewrite Forall_forall in Hkinds. by specialize (Hkinds _ Hin).
Qed.

Lemma tips_logged_step s e c s' :
  batches_wf s -> tips_logged s -> transact e c s = inr s' -> tips_logged s'.
Proof.
  intros Hwf Htl Htx. destruct c.
  1-6: run_tx Htx; try exact Htl;
    (eapply (tips_logged_frame s); [exact Htl | reflexivity | reflexivity | done
                                    | reflexivity | by apply Forall_singleton]).
  - apply openBatch_commit in Htx as (n & b & _ & _ & _ & _ & _ & ->).
    eapply (tips_logged_frame s); [exact Htl | reflexivity | reflexivity |
                                   | reflexivity | by apply Forall_singleton].
    simpl. rewrite length_app. lia.
  - apply closeBatch_commit in Htx as (n & b & _ & _ & _ & _ & _ & ->).
    eapply (tips_logged_frame s); [exact Htl | reflexivity | reflexivity |
                                   | reflexivity | by apply Forall_singleton].
    simpl. by rewrite length_insert.
  - apply submitTip_commit in Htx as (n & b & Hlen & Hb & Hopen & _ & _ & _ & _ & ->).
    destruct Htl as (Hlog & Hcnt & Hids). split; [|split]; simpl.
    + by rewrite tip_log_snoc, tip_ledger_snoc, Hlog.
    + intros k. rewrite count_events_snoc. simpl.
      destruct (N.eqb_spec (id b) k) as [<-|Hne].
      * rewrite rd_insert_eq, Hcnt. lia.
      * rewrite rd_insert_ne by done. rewrite Hcnt. f_equal. lia.
    + intros t k i Hin. apply elem_of_app in Hin as [Hin|Hin]; [by apply (Hids t k i)|].
      apply list_elem_of_singleton in Hin. injection Hin as _ -> _.
      split; [by eapply open_batch_id_nonzero|].
      rewrite (wf_ids s Hwf n b Hb), Nat2N.id. lia.
  - apply request_commit in Htx as (bt & _ & _ & _ & _ & _ & _ & ->).
    eapply (tips_logged_frame s); [exact Htl | reflexivity | reflexivity | done
                                   | reflexivity | by apply Forall_singleton].
  - apply callback_commit in Htx as (bt & total & _ & _ & _ & _ & _ & ->).
    eapply (tips_logged_frame s); [exact Htl | reflexivity | reflexivity | done
                                   | reflexivity | by apply Forall_singleton].
Qed.

(** X11. The tip events tell the ledger: in reachable storage the k-th
    TipSubmitted event of the log carries the tipper of the k-th ledger
    record and the index k, so the ledger has as many records as the log
    has TipSubmitted events; the count of every batch is the number of
    TipSubmitted events carrying its id; and such an event never carries
    the sentinel's id or the id of a batch that does not exist. *)
Theorem tip_events_reflect_ledger (s : State) :
  reachable s ->
  tip_log (events s) = tip_ledger (tips s) /\
  length (tips s) = count_events is_tip (events s) /\
  (forall b, rd (batchTipCount s) b = N.of_nat (count_events (is_tip_of b) (events s))) /\
  (forall t b i, TipSubmitted t b i ∈ events s ->
     b <> 0 /\ (N.to_nat b < length (batches s))%nat).
Proof.
  intros Hs.
  assert (batches_wf s /\ tips_logged s) as [_ (Hlog & Hcnt & Hids)].
  { revert s Hs. apply reachable_ind.
    - intros e0. split; [apply batches_wf_constructor|].
      split; [done|]. split; [done|].
      intros t b i Hin. by apply elem_of_nil in Hin.
    - intros s e c s' [Hwf Htl] Htx. split.
      + by eapply batches_wf_step.
      + by eapply tips_logged_step. }
  split; [exact Hlog|]. split; [|by split].
  rewrite <- tip_log_length, Hlog. unfold tip_ledger. by rewrite length_imap.
Qed.

End LedgerLog.

(** ** Issued decryption requests *)

Section IssuedRequests.
Context `{fhe : FHEVM}.

Lemma step_commit s e c s' : transact e c s = inr s' -> step s (e, c) = s'.
Proof. intros Htx. unfold step. simpl. by rewrite Htx. Qed.

(** A context that names a closed batch with a matching fingerprint still
    does so after any transaction. *)
Lemma context_ok_step s ec ctx :
  batches_wf s -> context_ok s ctx -> context_ok (step s ec) ctx.
Proof.
  intros Hwf (Hb0 & bt & Hbt & Hclosed & Hinit & Hhash).
  destruct (batch_record_step s ec _ bt Hbt) as (b' & Hb' & _ & _ & Hsame & _).
  rewrite (Hsame Hclosed) in Hb'.
  destruct (closed_aggregates_step s ec _ bt Hwf Hbt Hclosed) as [Htot _].
  rewrite N2Nat.id in Htot.
  split; [done|]. exists bt. by rewrite Htot.
Qed.

(** The callback past the replay check, on a context that names an
    existing batch with an initialized total and a matching fingerprint. *)
Lemma callback_outcome s e rid ct pf bt :
  let ctx := rdctx (decryptionContexts s) rid in
  processed ctx = false ->
  batches s !! N.to_nat (batchId ctx) = Some bt ->
  FHE_isInitialized (rd (batchTotalEncryptedAmount s) (batchId ctx)) = true ->
  stateHash ctx = _hashCiphertexts [rd (batchTotalEncryptedAmount s) (batchId ctx)] ->
  transact e (MyCallback rid ct pf) s =
    if negb (FHE_checkSignatures rid ct pf) then inl InvalidProof
    else match decoded_uint32 ct with
         | None => inl DecodeFailure
         | Some v =>
             inr (set_events (events s ++ [DecryptionCompleted rid (batchId ctx) v])
                    (set_decryptionContexts
                       (<[rid := {| batchId := batchId ctx; stateHash := stateHash ctx;
                                    processed := true |}]> (decryptionContexts s)) s))
         end.
Proof.
  intros ctx Hpending Hbt Hinit Hhash. subst ctx.
  unfold_contract; unfold_monad; unfold decoded_uint32; simpl.
  rewrite Hpending; simpl. rewrite Hbt; simpl. rewrite Hinit; simpl.
  unfold _hashCiphertexts in Hhash. rewrite <- Hhash, N.eqb_refl. simpl.
  destruct (FHE_checkSignatures rid ct pf); simpl; [|done].
  destruct (length ct <? 32)%nat; simpl; [done|].
  destruct (UINT32_MOD <=? be_value (take 32 ct)); simpl; done.
Qed.

Lemma decoded_uint32_range data v : decoded_uint32 data = Some v -> v < UINT32_MOD.
Proof.
  unfold decoded_uint32. destruct (length data <? 32)%nat; [done|].
  destruct (UINT32_MOD <=? be_value (take 32 data)) eqn:Hle; [done|].
  intros [= <-]. by apply N.leb_gt.
Qed.

(** What a committed callback decoded. *)
Lemma callback_commit_decoded s e rid ct pf s' :
  transact e (MyCallback rid ct pf) s = inr s' ->
  let ctx := rdctx (decryptionContexts s) rid in
  exists v, decoded_uint32 ct = Some v /\
    s' = set_events (events s ++ [DecryptionCompleted rid (batchId ctx) v])
           (set_decryptionContexts
              (<[rid := {| batchId := batchId ctx; stateHash := stateHash ctx;
                           processed := true |}]> (decryptionContexts s)) s).
Proof.
  intros Htx ctx. pose proof Htx as Htx'.
  apply callback_commit in Htx' as (bt & total & Hpending & Hbt & Hinit & Hhash & Hsig & _).
  rewrite (callback_outcome s e rid ct pf bt Hpending Hbt Hinit (eq_sym Hhash)) in Htx.
  rewrite Hsig in Htx. simpl in Htx.
  destruct (decoded_uint32 ct) as [v|]; [|discriminate].
  injection Htx as <-. by exists v.
Qed.

Lemma contexts_valid_step s e c s' :
  zero_handle_uninitialized ->
  batches_wf s -> contexts_valid s -> transact e c s = inr s' -> contexts_valid s'.
Proof.
  intros Hzero Hwf Hcv Htx.
  assert (forall ctx, context_ok s ctx -> context_ok s' ctx) as Hkeep.
  { intros ctx Hok. rewrite <- (step_commit s e c s' Htx). by apply context_ok_step. }
  destruct c.
  1-9: assert (decryptionContexts s' = decryptionContexts s) as Hsame;
    [ first [ by (run_tx Htx)
            | by (apply openBatch_commit in Htx as (? & ? & _ & _ & _ & _ & _ & ->))
            | by (apply closeBatch_commit in Htx as (? & ? & _ & _ & _ & _ & _ & ->))
            | by (apply submitTip_commit in Htx as (? & ? & _ & _ & _ & _ & _ & _ & _ & ->)) ]
    | intros rid ctx Hctx; rewrite Hsame in Hctx; by apply Hkeep, (Hcv rid) ].
  - pose proof Htx as Htx'.
    apply request_commit in Htx' as (bt & Hb0 & Hbt & Hclosed & Hinit & _ & _ & Hs').
    intros rid ctx Hctx. rewrite Hs' in Hctx. simpl in Hctx.
    destruct (decide (oracle_requestId e = rid)) as [<-|Hne].
    + rewrite lookup_insert_eq in Hctx. injection Hctx as <-.
      apply Hkeep. split; [done|]. by exists bt.
    + rewrite lookup_insert_ne in Hctx by done. by apply Hkeep, (Hcv rid).
  - destruct (decryptionContexts s !! requestId) as [ctx0|] eqn:Hctx0.
    + pose proof Htx as Htx'.
      apply callback_commit in Htx' as (bt & total & _ & _ & _ & _ & _ & Hs').
      intros rid ctx Hctx. rewrite Hs' in Hctx. simpl in Hctx.
      destruct (decide (requestId = rid)) as [<-|Hne].
      * rewrite lookup_insert_eq in Hctx. injection Hctx as <-.
        apply Hkeep. unfold rdctx. rewrite Hctx0. simpl.
        destruct (Hcv requestId ctx0 Hctx0) as (Hb0 & bt0 & Hok).
        split; [done|]. by exists bt0.
      * rewrite lookup_insert_ne in Hctx by done. by apply Hkeep, (Hcv rid).
    + by rewrite (callback_default_context s e requestId cleartexts proof Hwf Hzero Hctx0)
        in Htx.
Qed.

Lemma reachable_contexts_valid s :
  zero_handle_uninitialized -> reachable s -> contexts_valid s.
Proof.
  intros Hzero Hs.
  assert (batches_wf s /\ contexts_valid s) as [_ Hcv]; [|exact Hcv].
  revert s Hs. apply reachable_ind.
  - intros e0. split; [apply batches_wf_constructor|].
    intros rid ctx Hctx. simpl in Hctx. by rewrite lookup_empty in Hctx.
  - intros s e c s' [Hwf Hcv] Htx. split.
    + by eapply batches_wf_step.
    + by eapply contexts_valid_step.
Qed.

(** X12. In reachable storage every stored decryption context names an
    existing closed batch other than the sentinel whose current running
    total is initialized and hashes to the stored fingerprint.  So a
    callback for a pending issued request never reverts with
    StateMismatch, NotInitialized or a Panic: it reverts with InvalidProof
    when the proof check fails, with a bare revert when the cleartext is
    shorter than 32 bytes or its first word is not a uint32, and
    otherwise commits, marking the context processed and logging the
    decoded total for the context's batch. *)
Theorem issued_callback_outcome (s : State) (e : Env) (rid : uint256)
    (ctx : DecryptionContext) (ct pf : bytes) :
  reachable s ->
  zero_handle_uninitialized ->
  decryptionContexts s !! rid = Some ctx ->
  context_ok s ctx /\
  (processed ctx = false ->
     transact e (MyCallback rid ct pf) s =
       if negb (FHE_checkSignatures rid ct pf) then inl InvalidProof
       else match decoded_uint32 ct with
            | None => inl DecodeFailure
            | Some v =>
                inr (set_events (events s ++ [DecryptionCompleted rid (batchId ctx) v])
                       (set_decryptionContexts
                          (<[rid := {| batchId := batchId ctx; stateHash := stateHash ctx;
                                       processed := true |}]> (decryptionContexts s)) s))
            end).
Proof.
  intros Hs Hzero Hctx.
  pose proof (reachable_contexts_valid s Hzero Hs rid ctx Hctx) as Hok.
  split; [exact Hok|]. intros Hpending.
  destruct Hok as (_ & bt & Hbt & _ & Hinit & Hhash).
  assert (rdctx (decryptionContexts s) rid = ctx) as Hrd.
  { unfold rdctx. by rewrite Hctx. }
  pose proof (callback_outcome s e rid ct pf bt) as Hout. simpl in Hout.
  rewrite Hrd in Hout. by apply Hout.
Qed.

Lemma decryptable_step s ec b :
  batches_wf s -> decryptable s b -> decryptable (step s ec) b.
Proof.
  intros Hwf (Hb0 & bt & Hbt & Hclosed & Hinit).
  destruct (batch_record_step s ec _ bt Hbt) as (b' & Hb' & _ & _ & Hsame & _).
  rewrite (Hsame Hclosed) in Hb'.
  destruct (closed_aggregates_step s ec _ bt Hwf Hbt Hclosed) as [Htot _].
  rewrite N2Nat.id in Htot.
  split; [done|]. exists bt. by rewrite Htot.
Qed.

Lemma completions_valid_snoc s s' ev :
  completions_valid s ->
  (forall b, decryptable s b -> decryptable s' b) ->
  events s' = events s ++ [ev] ->
  (forall r b t, ev = DecryptionCompleted r b t -> t < UINT32_MOD /\ decryptable s' b) ->
  completions_valid s'.
Proof.
  intros Hcv Hkeep Hev Hnew r b t Hin. rewrite Hev in Hin.
  apply elem_of_app in Hin as [Hin|Hin].
  - destruct (Hcv r b t Hin). split; [done|]. by apply Hkeep.
  - apply list_elem_of_singleton in Hin. by apply (Hnew r).
Qed.

Lemma completions_valid_step s e c s' :
  zero_handle_uninitialized ->
  batches_wf s -> contexts_valid s ->
  completions_valid s -> transact e c s = inr s' -> completions_valid s'.
Proof.
  intros Hzero Hwf Hctx Hcv Htx.
  assert (forall b, decryptable s b -> decryptable s' b) as Hkeep.
  { intros b Hok. rewrite <- (step_commit s e c s' Htx). by apply decryptable_step. }
  destruct c.
  11: { destruct (decryptionContexts s !! requestId) as [ctx|] eqn:Hc;
          [|by rewrite (callback_default_context s e requestId cleartexts proof
                          Hwf Hzero Hc) in Htx].
        pose proof Htx as Htx'.
        apply callback_commit_decoded in Htx' as (v & Hv & Hs').
        eapply completions_valid_snoc; [exact Hcv | exact Hkeep | by rewrite Hs' |].
        intros r b t [= <- <- <-]. split; [by eapply decoded_uint32_range|].
        apply Hkeep. unfold rdctx. rewrite Hc. simpl.
        destruct (Hctx requestId ctx Hc) as (Hb0 & bt & Hbt & Hclosed & Hinit & _).
        split; [done|]. by exists bt. }
  1-6: run_tx Htx;
    first [ by (intros r b t Hin; destruct (Hcv r b t Hin); split; [done|by apply Hkeep])
          | (eapply (completions_valid_snoc s); [exact Hcv | exact Hkeep | reflexivity |];
             intros ? ? ?; discriminate) ].
  - pose proof Htx as Htx'.
    apply openBatch_commit in Htx' as (? & ? & _ & _ & _ & _ & _ & Hs').
    eapply completions_valid_snoc; [exact Hcv | exact Hkeep | by rewrite Hs' |].
    intros ? ? ?; discriminate.
  - pose proof Htx as Htx'.
    apply closeBatch_commit in Htx' as (? & ? & _ & _ & _ & _ & _ & Hs').
    eapply completions_valid_snoc; [exact Hcv | exact Hkeep | by rewrite Hs' |].
    intros ? ? ?; discriminate.
  - pose proof Htx as Htx'.
    apply submitTip_commit in Htx' as (? & ? & _ & _ & _ & _ & _ & _ & _ & Hs').
    eapply completions_valid_snoc; [exact Hcv | exact Hkeep | by rewrite Hs' |].
    intros ? ? ?; discriminate.
  - pose proof Htx as Htx'.
    apply request_commit in Htx' as (? & _ & _ & _ & _ & _ & _ & Hs').
    eapply completions_valid_snoc; [exact Hcv | exact Hkeep | by rewrite Hs' |].
    intros ? ? ?; discriminate.
Qed.

Lemma reachable_completions_valid s :
  zero_handle_uninitialized -> reachable s -> completions_valid s.
Proof.
  intros Hzero Hs.
  assert (batches_wf s /\ contexts_valid s /\ completions_valid s) as (_ & _ & Hcv);
    [|exact Hcv].
  revert s Hs. apply reachable_ind.
  - intros e0. split; [apply batches_wf_constructor|]. split.
    + intros rid ctx Hctx. simpl in Hctx. by rewrite lookup_empty in Hctx.
    + intros r b t Hin. by apply elem_of_nil in Hin.
  - intros s e c s' (Hwf & Hctx & Hcv) Htx. split; [|split].
    + by eapply batches_wf_step.
    + by eapply contexts_valid_step.
    + by eapply completions_valid_step.
Qed.

(** X13. Every DecryptionCompleted event in a reachable log carries a
    total below 2^32 and the id of a batch that exists, is not the
    sentinel, is closed and has an initialized running total; and
    completion does not retire a batch: a provider past the pause and
    cooldown guards can request its decryption again. *)
Theorem completions_are_of_closed_batches (s : State) (r b t : uint256) :
  reachable s ->
  zero_handle_uninitialized ->
  DecryptionCompleted r b t ∈ events s ->
  t < UINT32_MOD /\
  decryptable s b /\
  (forall e, request_allowed s e ->
     exists s', transact e (RequestBatchTotalDecryption b) s = inr s').
Proof.
  intros Hs Hzero Hin.
  destruct (reachable_completions_valid s Hzero Hs r b t Hin) as [Ht Hok].
  split; [done|]. split; [done|].
  intros e Hallowed. destruct Hok as (Hb0 & bt & Hbt & Hclosed & Hinit).
  by eapply request_commits.
Qed.

(** A stored context keeps its batch and fingerprint, and stays processed
    once it is, as long as the oracle does not hand out its id again. *)
Lemma context_persists_step s ec rid ctx :
  decryptionContexts s !! rid = Some ctx ->
  reissues rid ec = false ->
  exists ctx', decryptionContexts (step s ec) !! rid = Some ctx' /\
               batchId ctx' = batchId ctx /\ stateHash ctx' = stateHash ctx /\
               (processed ctx = true -> processed ctx' = true).
Proof.
  destruct ec as [e c]. intros Hctx Hfresh. unfold step. simpl.
  destruct (transact e c s) as [err|s'] eqn:Htx; [by exists ctx|].
  destruct c.
  1-9: exists ctx; split; [|done];
    first [ by (run_tx Htx)
          | by (apply openBatch_commit in Htx as (? & ? & _ & _ & _ & _ & _ & ->))
          | by (apply closeBatch_commit in Htx as (? & ? & _ & _ & _ & _ & _ & ->))
          | by (apply submitTip_commit in Htx as (? & ? & _ & _ & _ & _ & _ & _ & _ & ->)) ].
  - apply request_commit in Htx as (bt & _ & _ & _ & _ & _ & _ & ->).
    unfold reissues in Hfresh. simpl in Hfresh. apply N.eqb_neq in Hfresh.
    exists ctx. simpl. by rewrite lookup_insert_ne.
  - apply callback_commit in Htx as (bt & total & _ & _ & _ & _ & _ & ->). simpl.
    destruct (decide (requestId = rid)) as [->|Hne].
    + eexists. rewrite lookup_insert_eq. split; [reflexivity|].
      unfold rdctx. rewrite Hctx. by simpl.
    + exists ctx. by rewrite lookup_insert_ne.
Qed.

Lemma context_persists_run s tr rid ctx :
  decryptionContexts s !! rid = Some ctx ->
  forallb (fun ec => negb (reissues rid ec)) tr = true ->
  exists ctx', decryptionContexts (run tr s) !! rid = Some ctx' /\
               batchId ctx' = batchId ctx /\ stateHash ctx' = stateHash ctx.
Proof.
  revert s ctx. induction tr as [|ec tr IH]; intros s ctx Hctx Hfresh; [by exists ctx|].
  simpl in Hfresh. apply andb_true_iff in Hfresh as [Hec Htr].
  apply negb_true_iff in Hec.
  destruct (context_persists_step s ec rid ctx Hctx Hec) as (ctx1 & Hctx1 & Hb1 & Hh1 & _).
  destruct (IH (step s ec) ctx1 Hctx1 Htr) as (ctx2 & Hctx2 & Hb2 & Hh2).
  exists ctx2. simpl. repeat split; congruence.
Qed.

(** X14. A committed decryption request can be answered whenever the
    oracle gets to it: after any transactions in which the oracle issues
    other request ids (new batches, tips, other requests and callbacks,
    pausing, changes of owner and providers), the context is still stored
    with the requested batch and the fingerprint of the total as it was,
    the batch's running total is unchanged, and, while the context is
    pending, a callback with a verifying proof and a well-formed cleartext
    commits from any caller, logs the decoded total for the batch and
    marks the context processed. *)
Theorem request_answered_later (s s1 : State) (e e' : Env) (b : uint256)
    (tr : list (Env * Call)) (ct pf : bytes) (v : N) :
  reachable s ->
  zero_handle_uninitialized ->
  transact e (RequestBatchTotalDecryption b) s = inr s1 ->
  forallb (fun ec => negb (reissues (oracle_requestId e) ec)) tr = true ->
  let rid := oracle_requestId e in
  let s2 := run tr s1 in
  exists ctx,
    decryptionContexts s2 !! rid = Some ctx /\
    batchId ctx = b /\
    stateHash ctx = _hashCiphertexts [rd (batchTotalEncryptedAmount s) b] /\
    rd (batchTotalEncryptedAmount s2) b = rd (batchTotalEncryptedAmount s) b /\
    (processed ctx = false ->
     FHE_checkSignatures rid ct pf = true ->
     decoded_uint32 ct = Some v ->
     exists s3, transact e' (MyCallback rid ct pf) s2 = inr s3 /\
                events s3 = events s2 ++ [DecryptionCompleted rid b v] /\
                processed (rdctx (decryptionContexts s3) rid) = true).
Proof.
  intros Hs Hzero Htx Hfresh rid s2.
  assert (reachable s1) as Hs1.
  { rewrite <- (step_commit s e _ s1 Htx). by apply reachable_step. }
  assert (reachable s2) as Hs2 by (by apply reachable_run).
  pose proof Htx as Htx'.
  apply request_commit in Htx' as (bt & Hb0 & Hbt & Hclosed & Hinit & _ & _ & Hs1eq).
  assert (decryptionContexts s1 !! rid =
          Some {| batchId := b;
                  stateHash := _hashCiphertexts [rd (batchTotalEncryptedAmount s) b];
                  processed := false |}) as Hctx1.
  { rewrite Hs1eq. simpl. by rewrite lookup_insert_eq. }
  destruct (context_persists_run s1 tr rid _ Hctx1 Hfresh) as (ctx & Hctx & Hbid & Hhash).
  simpl in Hbid, Hhash.
  assert (rd (batchTotalEncryptedAmount s2) b = rd (batchTotalEncryptedAmount s) b) as Hfrozen.
  { assert (batches s1 !! N.to_nat b = Some bt) as Hbt1 by (by rewrite Hs1eq).
    destruct (closed_aggregates_run s1 tr _ bt Hs1 Hbt1 Hclosed) as (_ & Htot & _).
    rewrite N2Nat.id in Htot. unfold s2. rewrite Htot. by rewrite Hs1eq. }
  exists ctx. repeat split; try done.
  intros Hpending Hsig Hdec.
  destruct (reachable_contexts_valid s2 Hzero Hs2 rid ctx Hctx)
    as (_ & bt2 & Hbt2 & _ & Hinit2 & Hhash2).
  assert (rdctx (decryptionContexts s2) rid = ctx) as Hrd.
  { unfold rdctx, s2. by rewrite Hctx. }
  pose proof (callback_outcome s2 e' rid ct pf bt2) as Hout. simpl in Hout.
  rewrite Hrd in Hout. rewrite (Hout Hpending Hbt2 Hinit2 Hhash2), Hsig, Hdec. simpl.
  eexists. split; [reflexivity|]. simpl. rewrite Hbid. split; [done|].
  by rewrite rdctx_insert_eq.
Qed.

End IssuedRequests.

(** ** Submission timers *)

Section SubmissionTimers.
Context `{fhe : FHEVM}.

(** X15. A committed submitTip sets the caller's submission timer to the
    block time and touches no other timer nor the cooldown.  While the
    timer plus the cooldown fits in a uint256, the caller's next submitTip
    reverts with CooldownActive exactly when its block time is below the
    earlier block time plus cooldownSeconds, whatever handles it brings. *)
Theorem cooldown_after_tip (s s1 : State) (e1 : Env) (a m1 m2 : euint32) :
  transact e1 (SubmitTip a m1 m2) s = inr s1 ->
  rd (lastSubmissionTime s1) (msg_sender e1) = block_timestamp e1 /\
  (forall q, q <> msg_sender e1 ->
     rd (lastSubmissionTime s1) q = rd (lastSubmissionTime s) q) /\
  lastDecryptionRequestTime s1 = lastDecryptionRequestTime s /\
  cooldownSeconds s1 = cooldownSeconds s /\
  (forall e2 a' m1' m2',
     msg_sender e2 = msg_sender e1 ->
     block_timestamp e1 + cooldownSeconds s <= UINT256_MAX ->
     (transact e2 (SubmitTip a' m1' m2') s1 = inl CooldownActive <->
      block_timestamp e2 < block_timestamp e1 + cooldownSeconds s)).
Proof.
  intros Htx.
  apply submitTip_commit in Htx as (n & b & _ & _ & _ & _ & _ & _ & Hunp & ->).
  simpl. split; [apply rd_insert_eq|]. split; [intros q Hq; by rewrite rd_insert_ne|].
  split; [done|]. split; [done|].
  intros e2 a' m1' m2' Hsame Hfit. split.
  - intros Htx2. run_tx Htx2.
    match goal with Hlt : (_ <? _) = true |- _ => apply N.ltb_lt in Hlt; revert Hlt end.
    by rewrite Hsame, rd_insert_eq.
  - intros Hlt. unfold_contract; unfold_monad; simpl.
    rewrite Hunp; simpl. rewrite Hsame, rd_insert_eq.
    apply N.ltb_ge in Hfit. rewrite Hfit; simpl.
    apply N.ltb_lt in Hlt. by rewrite Hlt.
Qed.

(** The checks a committed submitTip passed. *)
Lemma submitTip_commit_guards s e a m1 m2 s' :
  transact e (SubmitTip a m1 m2) s = inr s' ->
  rd (lastSubmissionTime s) (msg_sender e) + cooldownSeconds s <= UINT256_MAX /\
  rd (lastSubmissionTime s) (msg_sender e) + cooldownSeconds s <= block_timestamp e /\
  exists n b, length (batches s) = S n /\ batches s !! n = Some b /\
              rd (batchTipCount s) (id b) + 1 <= UINT256_MAX.
Proof.
  intros Htx. run_tx Htx.
  all: repeat match goal with
         | Hl : (_ <? _) = false |- _ => apply N.ltb_ge in Hl
         end.
  all: repeat split; try done.
  all: by eexists _, _.
Qed.

(** X16. In reachable storage submitTip commits exactly when the contract
    is not paused, the caller's timer plus the cooldown neither overflows
    nor exceeds the block time, the latest batch is open, the three
    handles are initialized and the batch's count is below the largest
    uint256.  It then appends one ledger record with the caller as tipper
    and the three handles, and adds one to the count of the latest
    batch. *)
Theorem submitTip_commits (s : State) (e : Env) (a m1 m2 : euint32) :
  reachable s ->
  let latest := N.of_nat (length (batches s) - 1) in
  ((exists s', transact e (SubmitTip a m1 m2) s = inr s') <->
     paused s = false /\
     rd (lastSubmissionTime s) (msg_sender e) + cooldownSeconds s <= UINT256_MAX /\
     rd (lastSubmissionTime s) (msg_sender e) + cooldownSeconds s <= block_timestamp e /\
     latest_batch_open s = true /\
     FHE_isInitialized a && FHE_isInitialized m1 && FHE_isInitialized m2 = true /\
     rd (batchTipCount s) latest < UINT256_MAX) /\
  (forall s', transact e (SubmitTip a m1 m2) s = inr s' ->
     tips s' = tips s ++ [ {| tipper := msg_sender e; encryptedAmount := a;
                              encryptedMessagePart1 := m1;
                              encryptedMessagePart2 := m2 |} ] /\
     rd (batchTipCount s') latest = rd (batchTipCount s) latest + 1 /\
     events s' = events s ++
       [TipSubmitted (msg_sender e) latest (N.of_nat (length (tips s)))] /\
     batches s' = batches s /\
     decryptionContexts s' = decryptionContexts s).
Proof.
  intros Hs latest. pose proof (reachable_wf s Hs) as Hwf.
  destruct (last_batch_exists s Hwf) as (n & b & Hlen & Hb).
  assert (latest = id b) as Hlatest.
  { unfold latest. rewrite (wf_ids s Hwf n b Hb), Hlen. f_equal. lia. }
  rewrite (latest_batch_open_spec s n b Hlen Hb), Hlatest.
  split.
  - split.
    + intros [s' Htx].
      destruct (submitTip_commit_guards s e a m1 m2 s' Htx)
        as (Hfit & Hcd & n1 & b1 & Hlen1 & Hb1 & Hcnt).
      apply submitTip_commit in Htx
        as (n2 & b2 & Hlen2 & Hb2 & Hopen & Ha & Hm1 & Hm2 & Hunp & _).
      assert (n1 = n) as -> by lia. assert (b1 = b) as -> by congruence.
      assert (n2 = n) as -> by lia. assert (b2 = b) as -> by congruence.
      repeat split; try done; [|lia].
      by rewrite Ha, Hm1, Hm2.
    + intros (Hunp & Hfit & Hcd & Hopen & Hinit & Hcnt).
      apply andb_true_iff in Hinit as [Hinit Hm2].
      apply andb_true_iff in Hinit as [Ha Hm1].
      unfold_contract; unfold_monad; simpl.
      rewrite Hunp; simpl.
      apply N.ltb_ge in Hfit. rewrite Hfit; simpl.
      apply N.ltb_ge in Hcd. rewrite Hcd; simpl.
      rewrite Hlen, Hb; simpl. rewrite Hopen; simpl.
      rewrite Ha; simpl. rewrite Hm1; simpl. rewrite Hm2; simpl.
      assert ((UINT256_MAX <? rd (batchTipCount s) (id b) + 1) = false) as ->
        by (apply N.ltb_ge; lia).
      simpl. destruct (rd (batchTotalEncryptedAmount s) (id b) =? 0); simpl; by eexists.
  - intros s' Htx.
    apply submitTip_commit in Htx as (n' & b' & Hlen' & Hb' & _ & _ & _ & _ & _ & ->).
    assert (n' = n) as -> by lia. assert (b' = b) as -> by congruence.
    simpl. repeat split. by rewrite rd_insert_eq.
Qed.

End SubmissionTimers.

(** ** Providers *)

Section Providers.
Context `{fhe : FHEVM}.

(** X17. The owner's addProvider and removeProvider always commit; they
    set the status of the one address and of no other, and leave the
    owner alone.  Removal bites at once: the removed address, were it the
    owner itself, gets NotProvider from openBatch, closeBatch and
    requestBatchTotalDecryption.  Adding then removing logs ProviderAdded
    only if the address was no provider, then ProviderRemoved. *)
Theorem provider_add_remove (s : State) (e : Env) (p : address) :
  msg_sender e = owner s ->
  exists s1 s2,
    transact e (AddProvider p) s = inr s1 /\
    transact e (RemoveProvider p) s1 = inr s2 /\
    rdb (isProvider s1) p = true /\
    rdb (isProvider s2) p = false /\
    (forall q, q <> p ->
       rdb (isProvider s1) q = rdb (isProvider s) q /\
       rdb (isProvider s2) q = rdb (isProvider s) q) /\
    owner s1 = owner s /\ owner s2 = owner s /\
    events s2 = events s ++ (if rdb (isProvider s) p then [] else [ProviderAdded p])
                         ++ [ProviderRemoved p] /\
    (forall e' c, msg_sender e' = p -> provider_only c = true ->
       transact e' c s2 = inl NotProvider).
Proof.
  intros Ho.
  destruct (rdb (isProvider s) p) eqn:Hp.
  - exists s, (set_events (events s ++ [ProviderRemoved p])
                 (set_isProvider (<[p := false]> (isProvider s)) s)).
    split; [|split; [|split; [|split; [|split; [|split; [|split; [|split]]]]]]].
    + unfold_contract; unfold_monad; simpl. rewrite Ho, N.eqb_refl. simpl. by rewrite Hp.
    + unfold_contract; unfold_monad; simpl. rewrite Ho, N.eqb_refl. simpl. by rewrite Hp.
    + done.
    + simpl. apply rdb_insert_eq.
    + intros q Hq. split; [done|]. simpl. by rewrite rdb_insert_ne.
    + done.
    + done.
    + done.
    + intros e' c He' Hc.
      destruct c; try discriminate Hc;
        unfold_contract; unfold_monad; simpl; by rewrite He', rdb_insert_eq.
  - exists (set_events (events s ++ [ProviderAdded p])
              (set_isProvider (<[p := true]> (isProvider s)) s)),
           (set_events (events s ++ [ProviderAdded p; ProviderRemoved p])
              (set_isProvider (<[p := false]> (isProvider s)) s)).
    split; [|split; [|split; [|split; [|split; [|split; [|split; [|split]]]]]]].
    + unfold_contract; unfold_monad; simpl. rewrite Ho, N.eqb_refl. simpl. by rewrite Hp.
    + unfold_contract; unfold_monad; simpl. rewrite Ho, N.eqb_refl. simpl.
      rewrite rdb_insert_eq. simpl. rewrite <- app_assoc. simpl.
      by rewrite insert_insert_eq.
    + simpl. apply rdb_insert_eq.
    + simpl. apply rdb_insert_eq.
    + intros q Hq. simpl. by rewrite !rdb_insert_ne.
    + done.
    + done.
    + done.
    + intros e' c He' Hc.
      destruct c; try discriminate Hc;
        unfold_contract; unfold_monad; simpl; by rewrite He', rdb_insert_eq.
Qed.

End Providers.

(** ** The event log *)

Section EventLog.
Context `{fhe : FHEVM}.

Lemma log_step s e c s' :
  transact e c s = inr s' ->
  (redundant s c = true /\ s' = s) \/
  (redundant s c = false /\
   exists ev, events s' = events s ++ [ev] /\ emitted_by c ev = true).
Proof.
  intros Htx. destruct c.
  1-6: run_tx Htx; simpl;
    first [ by (left; split; [first [assumption | by apply negb_false_iff
                                     | by apply negb_true_iff] | reflexivity])
          | (right; split; [first [reflexivity | by apply negb_true_iff | assumption|
                                   by apply negb_false_iff]|];
             eexists; split; [simpl; reflexivity | reflexivity]) ].
  - apply openBatch_commit in Htx as (? & ? & _ & _ & _ & _ & _ & ->).
    right. split; [done|]. eexists. split; [simpl; reflexivity|done].
  - apply closeBatch_commit in Htx as (? & ? & _ & _ & _ & _ & _ & ->).
    right. split; [done|]. eexists. split; [simpl; reflexivity|done].
  - apply submitTip_commit in Htx as (? & ? & _ & _ & _ & _ & _ & _ & _ & ->).
    right. split; [done|]. eexists. split; [simpl; reflexivity|done].
  - apply request_commit in Htx as (? & _ & _ & _ & _ & _ & _ & ->).
    right. split; [done|]. eexists. split; [simpl; reflexivity|done].
  - apply callback_commit in Htx as (? & ? & _ & _ & _ & _ & _ & ->).
    right. split; [done|]. eexists. split; [simpl; reflexivity|done].
Qed.

Lemma log_prefix_run s tr : events s `prefix_of` events (run tr s).
Proof.
  revert s. induction tr as [|[e c] tr IH]; intros s; [done|].
  simpl. etrans; [|apply IH]. unfold step. simpl.
  destruct (transact e c s) as [err|s'] eqn:Htx; [done|].
  destruct (log_step s e c s' Htx) as [[_ ->]|(_ & ev & -> & _)]; [done|].
  by apply prefix_app_r.
Qed.

(** X18. Every committed transaction logs exactly one event, the one of
    its entry point, except addProvider of an address that is a provider
    and removeProvider of one that is not, which log nothing and change
    nothing.  The log is append-only: over any sequence of transactions
    the earlier log is a prefix of the later one. *)
Theorem log_append_only (s : State) (tr : list (Env * Call)) :
  events s `prefix_of` events (run tr s) /\
  (forall e c s', transact e c s = inr s' ->
     (redundant s c = true /\ s' = s) \/
     (redundant s c = false /\
      exists ev, events s' = events s ++ [ev] /\ emitted_by c ev = true)).
Proof.
  split; [apply log_prefix_run|]. intros e c s'. apply log_step.
Qed.

End EventLog.

(** ** The ledger is append-only *)

Section LedgerAppendOnly.
Context `{fhe : FHEVM}.

Lemma tips_step s ec :
  tips (step s ec) = tips s \/
  exists a m1 m2, ec.2 = SubmitTip a m1 m2 /\
    tips (step s ec) = tips s ++ [ {| tipper := msg_sender ec.1; encryptedAmount := a;
                                      encryptedMessagePart1 := m1;
                                      encryptedMessagePart2 := m2 |} ].
Proof.
  destruct ec as [e c]. unfold step. simpl.
  destruct (transact e c s) as [err|s'] eqn:Htx; [by left|].
  destruct c.
  1-6: left; by run_tx Htx.
  - left. by apply openBatch_commit in Htx as (? & ? & _ & _ & _ & _ & _ & ->).
  - left. by apply closeBatch_commit in Htx as (? & ? & _ & _ & _ & _ & _ & ->).
  - right. apply submitTip_commit in Htx as (? & ? & _ & _ & _ & _ & _ & _ & _ & ->).
    by eexists _, _, _.
  - left. by apply request_commit in Htx as (? & _ & _ & _ & _ & _ & _ & ->).
  - left. by apply callback_commit in Htx as (? & ? & _ & _ & _ & _ & _ & ->).
Qed.

(** X19. The ledger is append-only: over any sequence of transactions,
    from any storage, the earlier ledger is a prefix of the later one, so
    a record keeps its index, its tipper and its three handles for good,
    and only a committed submitTip makes the ledger grow, by the one
    record of its caller. *)
Theorem ledger_append_only (s : State) (tr : list (Env * Call)) :
  tips s `prefix_of` tips (run tr s) /\
  (forall i t, tips s !! i = Some t -> tips (run tr s) !! i = Some t) /\
  (forall ec, tips (step s ec) = tips s \/
     exists a m1 m2, ec.2 = SubmitTip a m1 m2 /\
       tips (step s ec) = tips s ++ [ {| tipper := msg_sender ec.1; encryptedAmount := a;
                                         encryptedMessagePart1 := m1;
                                         encryptedMessagePart2 := m2 |} ]).
Proof.
  assert (forall tr s, tips s `prefix_of` tips (run tr s)) as Hprefix.
  { clear. intros tr. induction tr as [|ec tr IH]; intros s; [done|].
    simpl. etrans; [|apply IH].
    destruct (tips_step s ec) as [->|(a & m1 & m2 & _ & ->)]; [done|].
    by apply prefix_app_r. }
  split; [apply Hprefix|]. split; [|apply tips_step].
  intros i t Hi. destruct (Hprefix tr s) as [k ->]. by apply lookup_app_l_Some.
Qed.

End LedgerAppendOnly.

(** ** Contexts and their events *)

Section ContextLog.
Context `{fhe : FHEVM}.

Lemma contexts_logged_step s e c s' :
  zero_handle_uninitialized -> batches_wf s ->
  contexts_logged s -> transact e c s = inr s' -> contexts_logged s'.
Proof.
  intros Hzero Hwf [Hreq Hdone] Htx.
  assert (forall evs,
    decryptionContexts s' = decryptionContexts s ->
    events s' = events s ++ evs -> contexts_logged s') as Hframe.
  { intros evs Hc He. split; rewrite Hc, He.
    - intros rid ctx Hctx. apply elem_of_app. left. by apply Hreq.
    - intros rid ctx Hctx Hp. destruct (Hdone rid ctx Hctx Hp) as [t Ht].
      exists t. apply elem_of_app. by left. }
  destruct c.
  1-6: run_tx Htx; first [ by (apply (Hframe []); [|rewrite app_nil_r])
                         | by eapply Hframe ].
  - apply openBatch_commit in Htx as (? & ? & _ & _ & _ & _ & _ & ->). by eapply Hframe.
  - apply closeBatch_commit in Htx as (? & ? & _ & _ & _ & _ & _ & ->). by eapply Hframe.
  - apply submitTip_commit in Htx as (? & ? & _ & _ & _ & _ & _ & _ & _ & ->).
    by eapply Hframe.
  - apply request_commit in Htx as (bt & _ & _ & _ & _ & _ & _ & ->). split; simpl.
    + intros rid ctx Hctx. apply elem_of_app.
      destruct (decide (oracle_requestId e = rid)) as [<-|Hne].
      * rewrite lookup_insert_eq in Hctx. injection Hctx as <-. right.
        by apply list_elem_of_singleton.
      * rewrite lookup_insert_ne in Hctx by done. left. by apply Hreq.
    + intros rid ctx Hctx Hp.
      destruct (decide (oracle_requestId e = rid)) as [<-|Hne].
      * rewrite lookup_insert_eq in Hctx. by injection Hctx as <-.
      * rewrite lookup_insert_ne in Hctx by done.
        destruct (Hdone rid ctx Hctx Hp) as [t Ht]. exists t. apply elem_of_app. by left.
  - destruct (decryptionContexts s !! requestId) as [ctx0|] eqn:Hctx0;
      [|by rewrite (callback_default_context s e requestId cleartexts proof
                      Hwf Hzero Hctx0) in Htx].
    apply callback_commit in Htx as (bt & total & _ & _ & _ & _ & _ & ->).
    unfold rdctx. rewrite Hctx0. split; simpl.
    + intros rid ctx Hctx. apply elem_of_app. left.
      destruct (decide (requestId = rid)) as [<-|Hne].
      * rewrite lookup_insert_eq in Hctx. injection Hctx as <-. simpl.
        by apply Hreq.
      * rewrite lookup_insert_ne in Hctx by done. by apply Hreq.
    + intros rid ctx Hctx Hp.
      destruct (decide (requestId = rid)) as [<-|Hne].
      * rewrite lookup_insert_eq in Hctx. injection Hctx as <-. simpl.
        exists total. apply elem_of_app. right. by apply list_elem_of_singleton.
      * rewrite lookup_insert_ne in Hctx by done.
        destruct (Hdone rid ctx Hctx Hp) as [t Ht]. exists t. apply elem_of_app. by left.
Qed.

(** X20. The request events tell the contexts: in reachable storage every
    stored context was announced by a DecryptionRequested event carrying
    its request id, its batch and its fingerprint, and every processed
    context has a DecryptionCompleted event for its request id and its
    batch in the log. *)
Theorem contexts_reflect_log (s : State) :
  reachable s ->
  zero_handle_uninitialized ->
  (forall rid ctx, decryptionContexts s !! rid = Some ctx ->
     DecryptionRequested rid (batchId ctx) (stateHash ctx) ∈ events s) /\
  (forall rid ctx, decryptionContexts s !! rid = Some ctx -> processed ctx = true ->
     exists t, DecryptionCompleted rid (batchId ctx) t ∈ events s).
Proof.
  intros Hs Hzero.
  assert (batches_wf s /\ contexts_logged s) as [_ Hres]; [|exact Hres].
  revert s Hs. apply reachable_ind.
  - intros e0. split; [apply batches_wf_constructor|].
    split; intros rid ctx Hctx; simpl in Hctx; by rewrite lookup_empty in Hctx.
  - intros s e c s' [Hwf Hcl] Htx. split.
    + by eapply batches_wf_step.
    + by eapply contexts_logged_step.
Qed.

End ContextLog.

(** ** The administrative state from the log *)

Section AdminLog.
Context `{fhe : FHEVM}.

Lemma admin_step s e c s' :
  transact e c s = inr s' ->
  exists evs, events s' = events s ++ evs /\
              admin_of s' = fold_left replay_admin evs (admin_of s).
Proof.
  intros Htx. destruct c.
  1-6: run_tx Htx; first [ by (exists []; rewrite app_nil_r) | by eexists [_] ].
  - apply openBatch_commit in Htx as (? & ? & _ & _ & _ & _ & _ & ->). by eexists [_].
  - apply closeBatch_commit in Htx as (? & ? & _ & _ & _ & _ & _ & ->). by eexists [_].
  - apply submitTip_commit in Htx as (? & ? & _ & _ & _ & _ & _ & _ & _ & ->).
    by eexists [_].
  - apply request_commit in Htx as (? & _ & _ & _ & _ & _ & _ & ->). by eexists [_].
  - apply callback_commit in Htx as (? & ? & _ & _ & _ & _ & _ & ->). by eexists [_].
Qed.

(** X21. Owner, pause flag, cooldown and provider map can be read off the
    log: after any sequence of transactions on a deployment they are what
    replaying the logged events, in order, on the constructor's values
    (the deployer as owner and only provider, not paused, cooldown 60)
    gives. *)
Theorem admin_state_from_log (e0 : Env) (tr : list (Env * Call)) :
  admin_of (run tr (constructor e0))
  = fold_left replay_admin (events (run tr (constructor e0)))
      (msg_sender e0, false, 60, <[msg_sender e0 := true]> ∅).
Proof.
  induction tr as [|[e c] tr IH] using rev_ind; [reflexivity|].
  rewrite run_snoc. unfold step. simpl.
  destruct (transact e c (run tr (constructor e0))) as [err|s'] eqn:Htx; [exact IH|].
  destruct (admin_step _ e c s' Htx) as (evs & -> & ->).
  by rewrite fold_left_app, IH.
Qed.

End AdminLog.

(** ** Decoding the cleartext *)

Section Decoding.

Lemma be_value_acc bs acc :
  fold_left (fun a b => a * 256 + Byte.to_N b) bs acc
  = acc * 256 ^ N.of_nat (length bs) + be_value bs.
Proof.
  unfold be_value. revert acc. induction bs as [|b bs IH]; intros acc.
  - simpl. lia.
  - simpl. rewrite (IH (acc * 256 + Byte.to_N b)), (IH (0 * 256 + Byte.to_N b)).
    replace (N.of_nat (S (length bs))) with (N.succ (N.of_nat (length bs))) by lia.
    rewrite N.pow_succ_r'. lia.
Qed.

Lemma be_value_app hi lo :
  be_value (hi ++ lo) = be_value hi * 256 ^ N.of_nat (length lo) + be_value lo.
Proof.
  unfold be_value at 1. rewrite fold_left_app. fold (be_value hi). apply be_value_acc.
Qed.

Lemma be_value_bound bs : be_value bs < 256 ^ N.of_nat (length bs).
Proof.
  induction bs as [|b bs IH] using rev_ind; [reflexivity|].
  rewrite be_value_app, length_app. simpl.
  replace (N.of_nat (length bs + 1)) with (N.succ (N.of_nat (length bs))) by lia.
  rewrite N.pow_succ_r'. unfold be_value at 2. simpl.
  pose proof (Byte.to_N_bounded b). lia.
Qed.

Lemma be_value_zero bs : be_value bs = 0 <-> Forall (eq x00) bs.
Proof.
  induction bs as [|b bs IH] using rev_ind; [done|].
  rewrite be_value_app, Forall_app, Forall_singleton, <- IH.
  unfold be_value at 2. simpl. split.
  - intros Hz. assert (be_value bs = 0 /\ Byte.to_N b = 0) as [Hhi Hb] by lia.
    split; [done|]. by destruct b.
  - intros [-> <-]. done.
Qed.

(** X22. [abi.decode(cleartexts, (uint32))] in the callback accepts
    exactly the byte strings of at least 32 bytes whose first 28 bytes
    are zero; the total it yields is the big-endian value of bytes 28 to
    31, everything behind byte 31 is ignored, storage is left as it is,
    and every other input reverts without data. *)
Theorem decode_accepts_padded_words (data : bytes) (s : State) :
  (forall v s', abi_decode_uint32 data s = inr (v, s') <->
     s' = s /\ (32 <= length data)%nat /\
     Forall (eq x00) (take 28 data) /\
     v = be_value (take 4 (drop 28 data))) /\
  (forall err, abi_decode_uint32 data s = inl err -> err = DecodeFailure) /\
  (forall v, decoded_uint32 data = Some v <-> abi_decode_uint32 data s = inr (v, s)) /\
  (forall junk, (32 <= length data)%nat ->
     abi_decode_uint32 (data ++ junk) s = abi_decode_uint32 data s).
Proof.
  assert (forall d, (32 <= length d)%nat ->
            be_value (take 32 d)
            = be_value (take 28 d) * UINT32_MOD + be_value (take 4 (drop 28 d)) /\
            be_value (take 4 (drop 28 d)) < UINT32_MOD) as Hsplit.
  { intros d Hlen.
    assert (length (take 4 (drop 28 d)) = 4%nat) as Hlo
      by (rewrite length_take, length_drop; lia).
    split.
    - change 32%nat with (28 + 4)%nat.
      rewrite <- (take_take_drop d 28 4), be_value_app, Hlo. reflexivity.
    - pose proof (be_value_bound (take 4 (drop 28 d))) as Hb. by rewrite Hlo in Hb. }
  assert (forall v s', abi_decode_uint32 data s = inr (v, s') <->
            s' = s /\ (32 <= length data)%nat /\
            Forall (eq x00) (take 28 data) /\
            v = be_value (take 4 (drop 28 data))) as Hiff.
  { intros v s'. unfold abi_decode_uint32, revert, ret.
    destruct (Nat.ltb_spec (length data) 32) as [Hshort|Hlen].
    - split; [done|]. intros (_ & Hlen & _). lia.
    - destruct (Hsplit data Hlen) as [Hval Hlo].
      rewrite <- be_value_zero.
      destruct (N.leb_spec UINT32_MOD (be_value (take 32 data))) as [Hbig|Hsmall].
      + split; [done|]. intros (_ & _ & Hz & _). rewrite Hz in Hval. lia.
      + assert (be_value (take 28 data) = 0) as Hz.
        { destruct (N.eq_dec (be_value (take 28 data)) 0) as [Hz|Hnz]; [done|].
          assert (1 <= be_value (take 28 data)) by lia.
          assert (UINT32_MOD <= be_value (take 28 data) * UINT32_MOD) by nia. lia. }
        rewrite Hz in Hval. simpl in Hval. split.
        * intros [= <- <-]. by rewrite Hval.
        * intros (-> & _ & _ & ->). by rewrite Hval. }
  split; [exact Hiff|]. split; [|split].
  - intros err. unfold abi_decode_uint32, revert, ret.
    destruct (length data <? 32)%nat; [by intros [= <-]|].
    destruct (UINT32_MOD <=? be_value (take 32 data)); [by intros [= <-]|done].
  - intros v. unfold decoded_uint32, abi_decode_uint32, revert, ret.
    destruct (length data <? 32)%nat; [done|].
    destruct (UINT32_MOD <=? be_value (take 32 data)); [done|].
    split; intros [= <-]; done.
  - intros junk Hlen. unfold abi_decode_uint32.
    rewrite length_app, take_app_le by lia.
    destruct (Nat.ltb_spec (length data) 32) as [Hshort|_]; [lia|].
    destruct (Nat.ltb_spec (length data + length junk) 32) as [Hshort|_]; [lia|done].
Qed.

End Decoding.

(** ** Which batches can be decrypted *)

Section Decryptable.
Context `{fhe : FHEVM}.

(** The checks a committed request passed. *)
Lemma request_commit_guards s e b s' :
  transact e (RequestBatchTotalDecryption b) s = inr s' ->
  rd (lastDecryptionRequestTime s) (msg_sender e) + cooldownSeconds s <= UINT256_MAX /\
  rd (lastDecryptionRequestTime s) (msg_sender e) + cooldownSeconds s <= block_timestamp e.
Proof.
  intros Htx. run_tx Htx.
  repeat match goal with
         | Hl : (_ <? _) = false |- _ => apply N.ltb_ge in Hl
         end.
  by split.
Qed.

(** X23. requestBatchTotalDecryption commits exactly when the caller is
    a provider, the contract is not paused, the caller's decryption timer
    plus the cooldown neither overflows nor exceeds the block time, and
    the batch exists, is not the sentinel, is closed and has an
    initialized running total.  It then sets the caller's decryption
    timer to the block time and leaves the submission timers, the
    registry, the ledger and the aggregates alone. *)
Theorem request_commits_iff (s : State) (e : Env) (b : uint256) :
  ((exists s', transact e (RequestBatchTotalDecryption b) s = inr s') <->
     rdb (isProvider s) (msg_sender e) = true /\
     paused s = false /\
     rd (lastDecryptionRequestTime s) (msg_sender e) + cooldownSeconds s <= UINT256_MAX /\
     rd (lastDecryptionRequestTime s) (msg_sender e) + cooldownSeconds s
       <= block_timestamp e /\
     decryptable s b) /\
  (forall s', transact e (RequestBatchTotalDecryption b) s = inr s' ->
     rd (lastDecryptionRequestTime s') (msg_sender e) = block_timestamp e /\
     (forall q, q <> msg_sender e ->
        rd (lastDecryptionRequestTime s') q = rd (lastDecryptionRequestTime s) q) /\
     lastSubmissionTime s' = lastSubmissionTime s /\
     batches s' = batches s /\ tips s' = tips s /\
     batchTipCount s' = batchTipCount s /\
     batchTotalEncryptedAmount s' = batchTotalEncryptedAmount s).
Proof.
  split.
  - split.
    + intros [s' Htx].
      destruct (request_commit_guards s e b s' Htx) as [Hfit Hcd].
      apply request_commit in Htx as (bt & Hb0 & Hbt & Hclosed & Hinit & Hp & Hu & _).
      repeat split; try done. by exists bt.
    + intros (Hp & Hu & Hfit & Hcd & Hb0 & bt & Hbt & Hclosed & Hinit).
      unfold_contract; unfold_monad; simpl.
      rewrite Hp; simpl. rewrite Hu; simpl.
      apply N.ltb_ge in Hfit. rewrite Hfit; simpl.
      apply N.ltb_ge in Hcd. rewrite Hcd; simpl.
      assert ((N.of_nat (length (batches s)) <=? b) || (b =? 0) = false) as ->.
      { apply orb_false_iff. split; [|by apply N.eqb_neq].
        apply N.leb_gt. apply lookup_lt_Some in Hbt. lia. }
      simpl. rewrite Hbt; simpl. rewrite Hclosed; simpl. rewrite Hinit; simpl.
      by eexists.
  - intros s' Htx.
    apply request_commit in Htx as (bt & _ & _ & _ & _ & _ & _ & ->). simpl.
    split; [apply rd_insert_eq|]. split; [|done].
    intros q Hq. by rewrite rd_insert_ne.
Qed.

(** X24. A closed batch can be decrypted exactly when it received a tip:
    in reachable storage, for a closed batch other than the sentinel, the
    running total is initialized if and only if the count is not zero.
    Either way it stays so: after any further transactions a batch closed
    empty makes every decryption request revert, and one closed with tips
    is still fit for decryption. *)
Theorem closed_batch_decryptable_iff_tipped (s : State) (i : nat) (b : Batch)
    (tr : list (Env * Call)) :
  reachable s ->
  zero_handle_uninitialized ->
  add_initialized ->
  batches s !! i = Some b ->
  isOpen b = false ->
  i <> 0%nat ->
  (decryptable s (N.of_nat i) <-> rd (batchTipCount s) (N.of_nat i) <> 0) /\
  (rd (batchTipCount s) (N.of_nat i) = 0 ->
     forall e, exists err,
       transact e (RequestBatchTotalDecryption (N.of_nat i)) (run tr s) = inl err) /\
  (rd (batchTipCount s) (N.of_nat i) <> 0 -> decryptable (run tr s) (N.of_nat i)).
Proof.
  intros Hs Hzero Hadd Hb Hclosed Hi.
  pose proof (reachable_wf s Hs) as Hwf.
  pose proof (reachable_ledger_wf s Hzero Hadd Hs) as Hlw.
  destruct (closed_aggregates_run s tr i b Hs Hb Hclosed) as (Hb' & Htot' & Hcnt').
  assert (rd (batchTipCount s) (N.of_nat i) <> 0 ->
          FHE_isInitialized (rd (batchTotalEncryptedAmount s) (N.of_nat i)) = true) as Hinit.
  { intros Hcnt. rewrite (lw_total s Hlw). apply hfold_initialized; [done| |].
    - apply (lw_initialized s Hlw).
    - intros Hnil. apply Hcnt. by rewrite (lw_count s Hlw), Hnil. }
  assert (rd (batchTipCount s) (N.of_nat i) = 0 ->
          FHE_isInitialized (rd (batchTotalEncryptedAmount s) (N.of_nat i)) = false) as Huninit.
  { intros Hcnt. by rewrite (wf_total0 s Hwf _ Hcnt). }
  split; [|split].
  - split.
    + intros (_ & bt & _ & _ & Hok) Hcnt. rewrite (Huninit Hcnt) in Hok. discriminate.
    + intros Hcnt. split; [lia|]. exists b. rewrite Nat2N.id. by rewrite (Hinit Hcnt).
  - intros Hcnt e.
    destruct (transact e (RequestBatchTotalDecryption (N.of_nat i)) (run tr s))
      as [err|s'] eqn:Htx; [by exists err|].
    apply request_commit in Htx as (bt & _ & _ & _ & Hok & _).
    rewrite Htot', (Huninit Hcnt) in Hok. discriminate.
  - intros Hcnt. split; [lia|]. exists b. rewrite Nat2N.id.
    by rewrite Htot', (Hinit Hcnt).
Qed.

End Decryptable.

(** ** The further properties on concrete transactions *)

(** X3: the oracle's answer to request 77 commits on a paused contract. *)
Lemma pause_blind_witness :
  transact (fhe := Cleartext.fhevm) (Cleartext.at_ 9 2000)
    (MyCallback 77 (Cleartext.word 8) [x01]) (set_paused true Cleartext.requested_state)
  = inr (set_paused true Cleartext.completed_state).
Proof.
  rewrite (pause_blind_calls (fhe := Cleartext.fhevm) Cleartext.requested_state
             (Cleartext.at_ 9 2000) (MyCallback 77 (Cleartext.word 8) [x01]) true eq_refl).
  vm_compute. reflexivity.
Defined.

(** X4: the deployer pauses the fresh contract and cannot pause it twice. *)
Lemma pause_unpause_witness :
  exists s1,
    transact (fhe := Cleartext.fhevm) (Cleartext.at_ Cleartext.deployer 1100) Pause
      Cleartext.genesis = inr s1 /\
    transact (fhe := Cleartext.fhevm) (Cleartext.at_ Cleartext.deployer 1100) Pause s1
      = inl PausedState.
Proof.
  destruct (pause_unpause_roundtrip (fhe := Cleartext.fhevm) Cleartext.genesis
              (Cleartext.at_ Cleartext.deployer 1100) (Cleartext.at_ Cleartext.deployer 1200)
              eq_refl eq_refl) as [_ Hpause].
  destruct (Hpause eq_refl) as (s1 & Hp & _ & Htwice & _).
  exists s1. by split.
Defined.

(** X5: after the deployer hands the contract to alice, the deployer's
    setCooldownSeconds is refused. *)
Lemma ownership_handover_witness :
  exists s',
    transact (fhe := Cleartext.fhevm) (Cleartext.at_ Cleartext.deployer 1100)
      (TransferOwnership Cleartext.alice) Cleartext.genesis = inr s' /\
    transact (fhe := Cleartext.fhevm) (Cleartext.at_ Cleartext.deployer 1200)
      (SetCooldownSeconds 0) s' = inl NotOwner.
Proof.
  destruct (ownership_handover (fhe := Cleartext.fhevm) Cleartext.genesis
              (Cleartext.at_ Cleartext.deployer 1100) Cleartext.alice eq_refl)
    as (s' & Htx & _ & Hothers & _).
  exists s'. split; [exact Htx|]. apply Hothers; [reflexivity|discriminate].
Defined.

(** X7: the total of the scenario's closed batch 1 survives the aftermath. *)
Lemma closed_aggregates_witness :
  rd (batchTotalEncryptedAmount
        (run (fhe := Cleartext.fhevm) Cleartext.aftermath Cleartext.requested_state)) 1
  = rd (batchTotalEncryptedAmount Cleartext.requested_state) 1.
Proof.
  destruct (closed_aggregates_frozen (fhe := Cleartext.fhevm) Cleartext.requested_state
              Cleartext.aftermath 1
              {| id := 1; isOpen := false; startTime := 1100; closeTime := 1400 |}
              (cleartext_reachable Cleartext.scenario))
    as (_ & Htot & _).
  - vm_compute. reflexivity.
  - reflexivity.
  - exact Htot.
Defined.

(** X8: in the scenario's storage, whose latest batch is closed, the
    deployer's openBatch commits. *)
Lemma batch_lifecycle_witness :
  exists s', transact (fhe := Cleartext.fhevm) (Cleartext.at_ Cleartext.deployer 5000)
               OpenBatch Cleartext.requested_state = inr s'.
Proof.
  destruct (batch_lifecycle_commits (fhe := Cleartext.fhevm) Cleartext.requested_state
              (Cleartext.at_ Cleartext.deployer 5000)
              (cleartext_reachable Cleartext.scenario)) as (Hopen & _).
  apply Hopen. repeat split; vm_compute; reflexivity.
Defined.

(** X9: the scenario's registry holds the sentinel and the one batch that
    was opened. *)
Lemma registry_log_witness :
  length (batches Cleartext.requested_state)
  = S (count_events is_opened (events Cleartext.requested_state)).
Proof.
  destruct (registry_log (fhe := Cleartext.fhevm) Cleartext.requested_state
              (cleartext_reachable Cleartext.scenario)) as [Hlen _].
  exact Hlen.
Defined.

(** X10: the scenario's log holds the closing of batch 1 at 1400 with two
    tips. *)
Lemma batch_events_witness :
  BatchClosed 1 1400 2 ∈ events Cleartext.requested_state.
Proof.
  destruct (batch_events_reflect_registry (fhe := Cleartext.fhevm) Cleartext.requested_state
              (cleartext_reachable Cleartext.scenario)) as [_ Hclosed].
  apply (Hclosed 1%nat 1400 2). split; [done|].
  exists {| id := 1; isOpen := false; startTime := 1100; closeTime := 1400 |}.
  repeat split; vm_compute; reflexivity.
Defined.

(** X11: the scenario's ledger has as many records as its log has
    TipSubmitted events. *)
Lemma tip_events_witness :
  length (tips Cleartext.requested_state)
  = count_events is_tip (events Cleartext.requested_state).
Proof.
  destruct (tip_events_reflect_ledger (fhe := Cleartext.fhevm) Cleartext.requested_state
              (cleartext_reachable Cleartext.scenario)) as (_ & Hlen & _).
  exact Hlen.
Defined.

(** X12: the oracle's answer to the pending request 77 commits. *)
Lemma issued_callback_witness :
  transact (fhe := Cleartext.fhevm) (Cleartext.at_ 9 2000)
    (MyCallback 77 (Cleartext.word 8) [x01]) Cleartext.requested_state
  = inr Cleartext.completed_state.
Proof.
  destruct (issued_callback_outcome (fhe := Cleartext.fhevm) Cleartext.requested_state
              (Cleartext.at_ 9 2000) 77
              {| batchId := 1; stateHash := 127017; processed := false |}
              (Cleartext.word 8) [x01]
              (cleartext_reachable Cleartext.scenario) cleartext_zero_handle)
    as [_ Hout].
  - vm_compute. reflexivity.
  - rewrite (Hout eq_refl). vm_compute. reflexivity.
Defined.

(** X13: the completion logged for request 77 carries a 32-bit total of
    the closed batch 1. *)
Lemma completions_witness :
  8 < UINT32_MOD /\ decryptable (fhe := Cleartext.fhevm) Cleartext.completed_state 1.
Proof.
  destruct (completions_are_of_closed_batches (fhe := Cleartext.fhevm)
              Cleartext.completed_state 77 1 8
              (reachable_run (fhe := Cleartext.fhevm) [Cleartext.answer]
                 Cleartext.requested_state (cleartext_reachable Cleartext.scenario))
              cleartext_zero_handle) as (Hrange & Hfit & _).
  - apply list_elem_of_lookup. exists 5%nat. vm_compute. reflexivity.
  - split; [exact Hrange | exact Hfit].
Defined.

(** X14: request 77 is answered after a new batch, a pause, another
    request with its answer, and a change of owner. *)
Lemma request_answered_witness :
  exists s3,
    transact (fhe := Cleartext.fhevm) (Cleartext.at_ Cleartext.bob 9000)
      (MyCallback 77 (Cleartext.word 8) [x01])
      (run (fhe := Cleartext.fhevm) Cleartext.interlude Cleartext.requested_state) = inr s3 /\
    events s3 =
      events (run (fhe := Cleartext.fhevm) Cleartext.interlude Cleartext.requested_state)
      ++ [DecryptionCompleted 77 1 8].
Proof.
  assert (transact (fhe := Cleartext.fhevm) Cleartext.request77
            (RequestBatchTotalDecryption 1) Cleartext.closed_state
          = inr Cleartext.requested_state) as Hrequest by (vm_compute; reflexivity).
  assert (forallb (fun ec => negb (reissues (oracle_requestId Cleartext.request77) ec))
            Cleartext.interlude = true) as Hfresh by (vm_compute; reflexivity).
  assert (decryptionContexts
            (run (fhe := Cleartext.fhevm) Cleartext.interlude Cleartext.requested_state)
            !! oracle_requestId Cleartext.request77
          = Some {| batchId := 1; stateHash := 127017; processed := false |})
    as Hstored by (vm_compute; reflexivity).
  pose proof (request_answered_later (fhe := Cleartext.fhevm)
                Cleartext.closed_state Cleartext.requested_state
                Cleartext.request77 (Cleartext.at_ Cleartext.bob 9000) 1
                Cleartext.interlude (Cleartext.word 8) [x01] 8
                (cleartext_reachable (take 4 Cleartext.scenario)) cleartext_zero_handle
                Hrequest Hfresh) as Hlater.
  cbv zeta in Hlater. destruct Hlater as (ctx & Hctx & _ & _ & _ & Hanswer).
  rewrite Hstored in Hctx. injection Hctx as <-.
  destruct Hanswer as (s3 & Htx & Hev & _);
    [reflexivity | reflexivity | vm_compute; reflexivity |].
  exists s3. split; [exact Htx | exact Hev].
Defined.

(** X15: alice tips at 1200; her next tip at 1230 is within the minute. *)
Lemma cooldown_after_tip_witness :
  transact (fhe := Cleartext.fhevm) (Cleartext.at_ Cleartext.alice 1230)
    (SubmitTip (Cleartext.enc 2) (Cleartext.enc 1) (Cleartext.enc 1))
    (step (fhe := Cleartext.fhevm) Cleartext.opened_state
       (Cleartext.at_ Cleartext.alice 1200,
        SubmitTip (Cleartext.enc 5) (Cleartext.enc 1) (Cleartext.enc 1)))
  = inl CooldownActive.
Proof.
  destruct (cooldown_after_tip (fhe := Cleartext.fhevm) Cleartext.opened_state
              (step (fhe := Cleartext.fhevm) Cleartext.opened_state
                 (Cleartext.at_ Cleartext.alice 1200,
                  SubmitTip (Cleartext.enc 5) (Cleartext.enc 1) (Cleartext.enc 1)))
              (Cleartext.at_ Cleartext.alice 1200)
              (Cleartext.enc 5) (Cleartext.enc 1) (Cleartext.enc 1))
    as (_ & _ & _ & _ & Hnext).
  - vm_compute. reflexivity.
  - apply Hnext; [reflexivity | vm_compute; discriminate | vm_compute; reflexivity].
Defined.

(** X16: alice's tip into the freshly opened batch 1 commits. *)
Lemma submitTip_commits_witness :
  exists s', transact (fhe := Cleartext.fhevm) (Cleartext.at_ Cleartext.alice 1200)
               (SubmitTip (Cleartext.enc 5) (Cleartext.enc 1) (Cleartext.enc 1))
               Cleartext.opened_state = inr s'.
Proof.
  pose proof (submitTip_commits (fhe := Cleartext.fhevm) Cleartext.opened_state
                (Cleartext.at_ Cleartext.alice 1200)
                (Cleartext.enc 5) (Cleartext.enc 1) (Cleartext.enc 1)
                (cleartext_reachable [(Cleartext.at_ Cleartext.deployer 1100, OpenBatch)]))
    as Hcommits.
  cbv zeta in Hcommits. destruct Hcommits as [Hiff _].
  apply Hiff. repeat split; vm_compute; first [reflexivity | discriminate].
Defined.

(** X17: the deployer makes alice a provider and revokes her; her
    openBatch is then refused. *)
Lemma provider_add_remove_witness :
  exists s1 s2,
    transact (fhe := Cleartext.fhevm) (Cleartext.at_ Cleartext.deployer 1100)
      (AddProvider Cleartext.alice) Cleartext.genesis = inr s1 /\
    transact (fhe := Cleartext.fhevm) (Cleartext.at_ Cleartext.deployer 1100)
      (RemoveProvider Cleartext.alice) s1 = inr s2 /\
    transact (fhe := Cleartext.fhevm) (Cleartext.at_ Cleartext.alice 1200) OpenBatch s2
      = inl NotProvider.
Proof.
  destruct (provider_add_remove (fhe := Cleartext.fhevm) Cleartext.genesis
              (Cleartext.at_ Cleartext.deployer 1100) Cleartext.alice eq_refl)
    as (s1 & s2 & Hadd & Hremove & _ & _ & _ & _ & _ & _ & Hrefused).
  exists s1, s2. split; [exact Hadd|]. split; [exact Hremove|].
  by apply Hrefused.
Defined.

(** X20: the context stored for request 77 was announced in the log. *)
Lemma contexts_reflect_witness :
  DecryptionRequested 77 1 127017 ∈ events Cleartext.requested_state.
Proof.
  destruct (contexts_reflect_log (fhe := Cleartext.fhevm) Cleartext.requested_state
              (cleartext_reachable Cleartext.scenario) cleartext_zero_handle)
    as [Hreq _].
  apply (Hreq 77 {| batchId := 1; stateHash := 127017; processed := false |}).
  vm_compute. reflexivity.
Defined.

(** X24: the scenario's batch 1 was closed with two tips and is fit for
    decryption after the aftermath. *)
Lemma closed_batch_decryptable_witness :
  decryptable (fhe := Cleartext.fhevm)
    (run (fhe := Cleartext.fhevm) Cleartext.aftermath Cleartext.requested_state) 1.
Proof.
  destruct (closed_batch_decryptable_iff_tipped (fhe := Cleartext.fhevm)
              Cleartext.requested_state 1
              {| id := 1; isOpen := false; startTime := 1100; closeTime := 1400 |}
              Cleartext.aftermath
              (cleartext_reachable Cleartext.scenario)
              cleartext_zero_handle cleartext_add_initialized)
    as (_ & _ & Hstays).
  - vm_compute. reflexivity.
  - reflexivity.
  - discriminate.
  - apply Hstays. vm_compute. discriminate.
Defined.
